(** * remote-fastboot: a bridge between a TCP client and a USB bulk device

    A shallow embedding of [main.go].  The Go program is a single-threaded
    accept loop; every function below is the translation of the Go function
    of the same name.  Effects (the accepted connection, the USB bus, the
    log, the clock) are threaded through a state monad over [World]; a Go
    run-time panic is an outcome of its own, and so is a loop that runs out
    of fuel. *)

From Stdlib Require Import String Ascii Strings.Byte ZArith Arith Bool Lia List.
Import ListNotations.
Local Open Scope Z_scope.

(* ================================================================== *)
(** ** Bytes, Go integers and big-endian words                         *)
(* ================================================================== *)

(** [uint64(b)] of a byte. *)
Definition Z_of_byte (b : byte) : Z := Z.of_N (Byte.to_N b).

(** Go's conversion [byte(v)]: the low eight bits. *)
Definition byte_of_Z (z : Z) : byte :=
  match Byte.of_N (Z.to_N (z mod 256)) with
  | Some b => b
  | None => x00
  end.

(** Go's [int] on the 64-bit targets the program is built for. *)
Definition int_min : Z := - 2 ^ 63.
Definition int_max : Z := 2 ^ 63 - 1.

(** Two's complement wrap-around of [int] arithmetic. *)
Definition wrap_int (z : Z) : Z := (z + 2 ^ 63) mod 2 ^ 64 - 2 ^ 63.

(** Wrap-around of [uint64]. *)
Definition wrap_uint64 (z : Z) : Z := z mod 2 ^ 64.

(** [len(s)] as a Go [int]. *)
Definition len {A} (s : list A) : Z := Z.of_nat (length s).

(** The Go run time refuses to allocate a slice above this many bytes
    (linux/amd64: 48 bits of heap address), so no [[]byte] is longer. *)
Definition maxAlloc : Z := 2 ^ 48.

Definition slice_ok {A} (s : list A) : Prop := len s <= maxAlloc.

(** [binary.BigEndian.PutUint64(header, v)] on an 8-byte slice: the
    resulting contents of the slice. *)
Definition PutUint64 (v : Z) : list byte :=
  [ byte_of_Z (Z.shiftr v 56); byte_of_Z (Z.shiftr v 48);
    byte_of_Z (Z.shiftr v 40); byte_of_Z (Z.shiftr v 32);
    byte_of_Z (Z.shiftr v 24); byte_of_Z (Z.shiftr v 16);
    byte_of_Z (Z.shiftr v 8);  byte_of_Z v ].

Definition at_ (b : list byte) (i : nat) : Z := Z_of_byte (nth i b x00).

(** [binary.BigEndian.Uint64(b)]. *)
Definition Uint64 (b : list byte) : Z :=
  Z.lor (at_ b 7)
    (Z.lor (Z.shiftl (at_ b 6) 8)
      (Z.lor (Z.shiftl (at_ b 5) 16)
        (Z.lor (Z.shiftl (at_ b 4) 24)
          (Z.lor (Z.shiftl (at_ b 3) 32)
            (Z.lor (Z.shiftl (at_ b 2) 40)
              (Z.lor (Z.shiftl (at_ b 1) 48)
                     (Z.shiftl (at_ b 0) 56))))))).

(** The handshake literal ["FB01"]. *)
Definition FB01 : list byte := [x46; x42; x30; x31].

Definition bytes_eqb (a b : list byte) : bool :=
  if list_eq_dec Byte.byte_eq_dec a b then true else false.

(* ================================================================== *)
(** ** USB descriptors (the fields of the libusb binding the code reads) *)
(* ================================================================== *)

Record EndpointDescriptor := {
  EndpointAddress : Z;     (* uint8 *)
  Attributes : Z;          (* uint8, bmAttributes *)
  MaxPacketSize : Z        (* uint16 *)
}.

(** The binding's [TransferType()]: bits 0..1 of bmAttributes. *)
Definition TransferType (e : EndpointDescriptor) : Z := Z.land (Attributes e) 3.
Definition BulkTransfer_type : Z := 2.

(** The binding's [Direction()]: bit 7 of the endpoint address
    (1 = device to host). *)
Definition Direction (e : EndpointDescriptor) : Z :=
  Z.shiftr (Z.land (EndpointAddress e) 128) 7.

Record InterfaceDescriptor := {
  InterfaceClass : Z;
  InterfaceSubClass : Z;
  InterfaceProtocol : Z;
  EndpointDescriptors : list EndpointDescriptor
}.

(** One interface with its alternate settings. *)
Record SupportedInterface := {
  InterfaceDescriptors : list InterfaceDescriptor
}.

Record ConfigDescriptor := {
  NumInterfaces : Z;
  SupportedInterfaces : list SupportedInterface
}.

(** An attached device: its descriptors and how it answers the calls
    the locator makes on it. *)
Record Device := {
  BusNumber : Z;
  DeviceAddress : Z;
  VendorID : Z;
  ProductID : Z;
  active_config : option ConfigDescriptor;  (* None: ActiveConfigDescriptor fails *)
  can_open : bool;                          (* whether Open succeeds *)
  serial_number : option string;            (* None: StringDescriptorASCII fails *)
  can_claim : bool                          (* whether ClaimInterface(0) succeeds *)
}.

Definition DeviceHandle := nat.

(** The Go struct [usbDevice]; a nil pointer is [None]. *)
Record usbDevice := {
  endpointIn : option EndpointDescriptor;
  endpointOut : option EndpointDescriptor;
  device : option Device;
  handle : option DeviceHandle
}.

Definition zero_usbDevice : usbDevice :=
  {| endpointIn := None; endpointOut := None; device := None; handle := None |}.

(* ================================================================== *)
(** ** Errors, log lines, events                                       *)
(* ================================================================== *)

(** Errors of the transports. *)
Inductive ioerr := EOF | ErrUnexpectedEOF | ErrNet | ErrUsb.

(** The [error] values the program builds with [fmt.Errorf]. *)
Inductive error :=
| ErrNoDevice                         (* "no apropriate usb device found" *)
| ErrMultipleDevices                  (* "found multiple devices" *)
| ErrOpenFailed (cause : ioerr)       (* "open device failed: %v" *)
| ErrClaimFailed (cause : ioerr)      (* "claime interface failed: %v" *)
| ErrReadHandshake (cause : option ioerr)  (* "read handshake header failed: %v" *)
| ErrReadHeader (cause : option ioerr)     (* "read header failed: %v" *)
| ErrReadPacket (cause : ioerr)            (* "read packet failed: %v" *)
| ErrWriteHeader (cause : ioerr)           (* "write header failed: %v" *)
| ErrWritePacket (n : Z) (cause : option ioerr) (* "write packet failed: %v %v" *)
| ErrUsbWrite (cause : ioerr)              (* "write failed: %v" *)
| ErrUsbRead (cause : ioerr).              (* "read failed: %v" *)

Inductive logline :=
| LogFound (bus addr vid pid : Z)     (* "found device %v:%v, vendor: ..., product: ..." *)
| LogTcp (e : error)                  (* "tcp: %v" *)
| LogDeviceError (e : error)          (* "device error: %v" *)
| LogUsb (e : error)                  (* "usb: %v" *)
| LogWriteHandshake (e : ioerr)       (* "write handshake header failed: %v" *)
| LogUsbSend (n count mps : Z).       (* "usb send: %v, %v %v" *)

(** What the program does to the outside, in order. *)
Inductive event :=
| EvAccept
| EvLog (l : logline)
| EvSleep (ms : Z)
| EvConnRead (cap : nat)
| EvConnWrite (data : list byte)
| EvConnClose
| EvDeviceList
| EvOpen (d : Device) (h : option DeviceHandle)
| EvHandleClose (h : DeviceHandle)
| EvClaim (h : DeviceHandle) (iface : Z) (ok : bool)
| EvRelease (h : DeviceHandle) (iface : Z)
| EvBulk (h : DeviceHandle) (endpoint : Z) (data : list byte) (length_ : Z) (timeout : Z).

Definition is_usb_event (e : event) : bool :=
  match e with
  | EvDeviceList | EvOpen _ _ | EvHandleClose _ | EvClaim _ _ _
  | EvRelease _ _ | EvBulk _ _ _ _ _ => true
  | _ => false
  end.

(* ================================================================== *)
(** ** The world: one accepted connection and the USB bus              *)
(* ================================================================== *)

(** What one [conn.Write] call does: take everything, or fail after
    [n] bytes. *)
Inductive wres := WOk | WFail (n : nat) (e : ioerr).

(** The accepted TCP connection seen from the server.  [pending] is what
    the client has sent and the server has not yet read, in the pieces
    in which [conn.Read] will hand it over; when it is exhausted every
    read fails with [fin] (the peer closed, or the link broke). *)
Record Conn := {
  pending : list (list byte);
  fin : ioerr;
  wscript : list wres;
  sent : list byte;
  closed : bool
}.

(** What one bulk transfer does: for an OUT endpoint [XferOk bs] is
    success ([bs] is not used), for an IN endpoint the device answers
    with [bs]. *)
Inductive xres := XferOk (bs : list byte) | XferFail (e : ioerr).

Record Usb := {
  devices : list Device;
  xscript : list xres;        (* outcomes of the bulk transfers to come *)
  next_handle : DeviceHandle
}.

Record World := {
  conn : Conn;
  usb : Usb;
  deferred : list DeviceHandle;   (* handles under a pending [defer handle.Close()] *)
  trace : list event
}.

Definition set_conn (c : Conn) (w : World) : World :=
  {| conn := c; usb := usb w; deferred := deferred w; trace := trace w |}.
Definition set_usb (u : Usb) (w : World) : World :=
  {| conn := conn w; usb := u; deferred := deferred w; trace := trace w |}.
Definition set_deferred (d : list DeviceHandle) (w : World) : World :=
  {| conn := conn w; usb := usb w; deferred := d; trace := trace w |}.
Definition emit (e : event) (w : World) : World :=
  {| conn := conn w; usb := usb w; deferred := deferred w;
     trace := trace w ++ [e] |}.

(* ================================================================== *)
(** ** The monad                                                       *)
(* ================================================================== *)

(** The run-time panics the code can raise. *)
Inductive panic :=
| IndexOutOfRange
| NilDereference
| DivideByZero
| SliceOutOfRange
| MakesliceLen.

(** How a call ends: it returns, it panics, or the model has no fuel
    left for it. *)
Inductive res (A : Type) : Type :=
| Ret (a : A)
| Panic (p : panic)
| Diverge.
Arguments Ret {A} a.
Arguments Panic {A} p.
Arguments Diverge {A}.

Definition M (A : Type) : Type := World -> res A * World.

Definition ret {A} (a : A) : M A := fun w => (Ret a, w).

Definition bind {A B} (m : M A) (k : A -> M B) : M B :=
  fun w =>
    match m w with
    | (Ret a, w') => k a w'
    | (Panic p, w') => (Panic p, w')
    | (Diverge, w') => (Diverge, w')
    end.

Definition throw {A} (p : panic) : M A := fun w => (Panic p, w).
Definition out_of_fuel {A} : M A := fun w => (Diverge, w).
Definition get : M World := fun w => (Ret w, w).
Definition tell (e : event) : M unit := fun w => (Ret tt, emit e w).
Definition log (l : logline) : M unit := tell (EvLog l).

Declare Scope go_scope.
Delimit Scope go_scope with go.
Notation "x <- m ;; k" := (bind m (fun x => k))
  (at level 61, m at next level, right associativity) : go_scope.
Notation "' pat <- m ;; k" := (bind m (fun x => match x with pat => k end))
  (at level 61, pat pattern, m at next level, right associativity) : go_scope.
Notation "m ;;; k" := (bind m (fun _ => k))
  (at level 61, right associativity) : go_scope.
Local Open Scope go_scope.

(* ================================================================== *)
(** ** The connection ([net.Conn])                                     *)
(* ================================================================== *)

(** The first non-empty piece of [p], cut at [cap] bytes, and what is
    left to read after it. *)
Fixpoint take_pending (cap : nat) (p : list (list byte))
  : option (list byte * list (list byte)) :=
  match p with
  | [] => None
  | [] :: rest => take_pending cap rest
  | seg :: rest =>
      Some (firstn cap seg,
            match skipn cap seg with
            | [] => rest
            | more => more :: rest
            end)
  end.

Definition with_pending (p : list (list byte)) (c : Conn) : Conn :=
  {| pending := p; fin := fin c; wscript := wscript c;
     sent := sent c; closed := closed c |}.

(** [conn.Read(p)] with [len(p) = cap]: the bytes stored in [p] and
    the error. *)
Definition conn_Read (cap : nat) : M (list byte * option ioerr) :=
  fun w =>
    let w1 := emit (EvConnRead cap) w in
    let c := conn w in
    if closed c then (Ret ([], Some ErrNet), w1)
    else if (cap =? 0)%nat then (Ret ([], None), w1)
    else match take_pending cap (pending c) with
         | Some (bs, rest) => (Ret (bs, None), set_conn (with_pending rest c) w1)
         | None => (Ret ([], Some (fin c)), set_conn (with_pending [] c) w1)
         end.

(** [conn.Write(p)]: the count and the error. *)
Definition conn_Write (p : list byte) : M (Z * option ioerr) :=
  fun w =>
    let w1 := emit (EvConnWrite p) w in
    let c := conn w in
    if closed c then (Ret (0, Some ErrNet), w1)
    else match wscript c with
         | WFail n e :: tl =>
             (Ret (len (firstn n p), Some e),
              set_conn {| pending := pending c; fin := fin c; wscript := tl;
                          sent := sent c ++ firstn n p; closed := closed c |} w1)
         | _ =>
             (Ret (len p, None),
              set_conn {| pending := pending c; fin := fin c;
                          wscript := tl (wscript c);
                          sent := sent c ++ p; closed := closed c |} w1)
         end.

(** [conn.Close()]. *)
Definition conn_Close : M unit :=
  fun w =>
    let c := conn w in
    (Ret tt,
     set_conn {| pending := pending c; fin := fin c; wscript := wscript c;
                 sent := sent c; closed := true |} (emit EvConnClose w)).

(** [time.Sleep(d)], in milliseconds. *)
Definition Sleep (ms : Z) : M unit := tell (EvSleep ms).

(* ================================================================== *)
(** ** [bufio.Reader] and [io.ReadFull] of the Go library              *)
(* ================================================================== *)

(** The unread part of the reader's buffer and its stored error. *)
Record Reader := {
  buffered : list byte;
  rerr : option ioerr
}.

Definition defaultBufSize : nat := 4096.

(** [bufio.NewReader(conn)]. *)
Definition NewReader : Reader := {| buffered := []; rerr := None |}.

(** The method [Read(p)] of the reader, with [len(p) = n]. *)
Definition bufio_Read (n : nat) (r : Reader)
  : M (list byte * option ioerr * Reader) :=
  if (n =? 0)%nat then
    match buffered r with
    | [] => ret ([], rerr r, {| buffered := []; rerr := None |})
    | _ => ret ([], None, r)
    end
  else
    match buffered r with
    | [] =>
        match rerr r with
        | Some e => ret ([], Some e, {| buffered := []; rerr := None |})
        | None =>
            if (defaultBufSize <=? n)%nat then
              (* large read, empty buffer: read directly into p *)
              '(bs, e) <- conn_Read n ;;
              ret (bs, e, {| buffered := []; rerr := None |})
            else
              (* one read into the reader's own buffer *)
              '(bs, e) <- conn_Read defaultBufSize ;;
              match bs with
              | [] => ret ([], e, {| buffered := []; rerr := None |})
              | _ => ret (firstn n bs, None,
                          {| buffered := skipn n bs; rerr := e |})
              end
        end
    | buf => ret (firstn n buf, None,
                  {| buffered := skipn n buf; rerr := rerr r |})
    end.

(** The loop of [io.ReadAtLeast(r, buf, min)] with [len(buf) = min]:
    [acc] is [buf[:n]]. *)
Fixpoint ReadAtLeast_loop (fuel : nat) (r : Reader) (min : nat)
    (acc : list byte) (err : option ioerr)
  : M (list byte * option ioerr * Reader) :=
  match err with
  | None =>
      if (List.length acc <? min)%nat then
        match fuel with
        | O => out_of_fuel
        | S fuel' =>
            '(bs, e, r') <- bufio_Read (min - List.length acc) r ;;
            ReadAtLeast_loop fuel' r' min (acc ++ bs) e
        end
      else ret (acc, err, r)
  | Some _ => ret (acc, err, r)
  end.

(** Bytes the reader can still obtain. *)
Definition available (r : Reader) (w : World) : nat :=
  List.length (buffered r) + List.length (concat (pending (conn w))).

(** [io.ReadFull(reader, buf)] with [len(buf) = n]: the bytes stored
    at the front of [buf] (their number is the returned count), the
    error, and the reader afterwards. *)
Definition io_ReadFull (r : Reader) (n : nat)
  : M (list byte * option ioerr * Reader) :=
  w <- get ;;
  '(acc, err, r') <- ReadAtLeast_loop (S (available r w)) r n [] None ;;
  let err' :=
    if (n <=? List.length acc)%nat then None
    else match acc, err with
         | _ :: _, Some EOF => Some ErrUnexpectedEOF
         | _, _ => err
         end in
  ret (acc, err', r').

(** A buffer from [make([]byte, n)] after its front was overwritten. *)
Definition filled (n : nat) (acc : list byte) : list byte :=
  acc ++ repeat x00 (n - List.length acc).

(* ================================================================== *)
(** ** Network framer                                                  *)
(* ================================================================== *)

(** [netReadHandshake(conn)] (main.go:214-223): nil is [None]. *)
Definition netReadHandshake : M (option error) :=
  let reader := NewReader in
  '(acc, err, _) <- io_ReadFull reader 4 ;;
  let header := filled 4 acc in
  let n := len acc in
  if negb (n =? 4) || negb (bytes_eqb header FB01) then
    ret (Some (ErrReadHandshake err))
  else ret None.

(** [netWriteHandshake(conn)] (main.go:225-232). *)
Definition netWriteHandshake : M (option ioerr) :=
  '(_, err) <- conn_Write FB01 ;;
  match err with
  | Some e => log (LogWriteHandshake e) ;;; ret err
  | None => ret err
  end.

(** [make([]byte, size)] for a [uint64] size: a length the run time
    cannot allocate is a panic.  (Running out of memory below that
    bound is not modelled.) *)
Definition make_bytes (size : Z) : M nat :=
  if maxAlloc <? size then throw MakesliceLen else ret (Z.to_nat size).

(** [netRead(conn)] (main.go:234-250): the payload (a nil slice is the
    empty list) and the error. *)
Definition netRead : M (list byte * option error) :=
  let reader := NewReader in
  '(acc, err, reader) <- io_ReadFull reader 8 ;;
  let header := filled 8 acc in
  if negb (len acc =? 8) then ret ([], Some (ErrReadHeader err))
  else
    let size := Uint64 header in
    cap <- make_bytes size ;;
    '(acc, err, _) <- io_ReadFull reader cap ;;
    match err with
    | Some e => ret ([], Some (ErrReadPacket e))
    | None => ret (filled cap acc, None)
    end.

(** [netWrite(conn, data)] (main.go:252-263). *)
Definition netWrite (data : list byte) : M (option error) :=
  let header := PutUint64 (wrap_uint64 (len data)) in
  '(_, err) <- conn_Write header ;;
  match err with
  | Some e => ret (Some (ErrWriteHeader e))
  | None =>
      '(n, err) <- conn_Write data ;;
      match err with
      | Some e => ret (Some (ErrWritePacket n err))
      | None =>
          if negb (n =? len data) then ret (Some (ErrWritePacket n err))
          else ret None
      end
  end.

(* ================================================================== *)
(** ** The calls of the libusb binding                                 *)
(* ================================================================== *)

(** [usbCtx.DeviceList()]; the code drops its error. *)
Definition DeviceList : M (list Device) :=
  fun w => (Ret (devices (usb w)), emit EvDeviceList w).

(** [device.Open()]. *)
Definition Open (d : Device) : M (option DeviceHandle * option ioerr) :=
  fun w =>
    if can_open d then
      let u := usb w in
      let h := next_handle u in
      (Ret (Some h, None),
       emit (EvOpen d (Some h))
         (set_usb {| devices := devices u; xscript := xscript u;
                     next_handle := S h |} w))
    else (Ret (None, Some ErrUsb), emit (EvOpen d None) w).

(** [handle.Close()]. *)
Definition handle_Close (h : DeviceHandle) : M unit := tell (EvHandleClose h).

(** [handle.ClaimInterface(iface)] on a handle of device [d]. *)
Definition ClaimInterface (d : Device) (h : DeviceHandle) (iface : Z)
  : M (option ioerr) :=
  tell (EvClaim h iface (can_claim d)) ;;;
  ret (if can_claim d then None else Some ErrUsb).

(** [handle.ReleaseInterface(iface)]; the code drops its error. *)
Definition ReleaseInterface (h : DeviceHandle) (iface : Z) : M unit :=
  tell (EvRelease h iface).

(** [handle.StringDescriptorASCII(index)]; the code drops its error,
    and the string is empty then. *)
Definition StringDescriptorASCII (d : Device) : string :=
  match serial_number d with
  | Some s => s
  | None => EmptyString
  end.

(** The outcome of the next bulk transfer; a device that has nothing
    more to say times out. *)
Definition pop_xscript : M xres :=
  fun w =>
    let u := usb w in
    match xscript u with
    | [] => (Ret (XferFail ErrUsb), w)
    | x :: rest =>
        (Ret x, set_usb {| devices := devices u; xscript := rest;
                           next_handle := next_handle u |} w)
    end.

(** [handle.BulkTransfer(endpoint, data, length, timeout)]: the count,
    the error, and the contents of [data] afterwards.  Bit 7 of the
    endpoint address gives the direction. *)
Definition BulkTransfer (h : DeviceHandle) (endpoint : Z) (data : list byte)
    (length_ : Z) (timeout : Z) : M (Z * option ioerr * list byte) :=
  tell (EvBulk h endpoint data length_ timeout) ;;;
  x <- pop_xscript ;;
  match x with
  | XferFail e => ret (0, Some e, data)
  | XferOk bs =>
      if Z.testbit endpoint 7 then
        if len bs <=? length_ then
          ret (len bs, None, bs ++ skipn (List.length bs) data)
        else ret (0, Some ErrUsb, data)
      else ret (length_, None, data)
  end.

Definition usbTimeout : Z := 5000.

(* ================================================================== *)
(** ** USB device locator                                              *)
(* ================================================================== *)

(** [showDeviceInfo(dev)] (main.go:32-43). *)
Definition showDeviceInfo (dev : usbDevice) : M unit :=
  match device dev with
  | None => throw NilDereference
  | Some d => log (LogFound (BusNumber d) (DeviceAddress d) (VendorID d) (ProductID d))
  end.

(** The loop over the endpoints (main.go:73-82): [i] is the index of
    the head of [eps]; the last bulk endpoint of each direction wins. *)
Fixpoint find_endpoints (i : Z) (eps : list EndpointDescriptor)
    (in_ out : Z) : Z * Z :=
  match eps with
  | [] => (in_, out)
  | endpoint :: rest =>
      if negb (TransferType endpoint =? BulkTransfer_type) then
        find_endpoints (i + 1) rest in_ out
      else if Direction endpoint =? 1 then
        find_endpoints (i + 1) rest i out
      else
        find_endpoints (i + 1) rest in_ i
  end.

(** Indexing a slice: out of range is a run-time panic. *)
Definition index {A} (s : list A) (i : Z) : M A :=
  if i <? 0 then throw IndexOutOfRange
  else match nth_error s (Z.to_nat i) with
       | Some a => ret a
       | None => throw IndexOutOfRange
       end.

(** [defer handle.Close()]. *)
Definition defer_Close (h : DeviceHandle) : M unit :=
  fun w => (Ret tt, set_deferred (h :: deferred w) w).

(** The body of the loop over the devices (main.go:50-105): [dev] and
    [deviceCount] before, and after.  Every [continue] returns them
    unchanged. *)
Definition scan_device (serial : string) (d : Device)
    (st : usbDevice * Z) : M (usbDevice * Z) :=
  let '(dev, deviceCount) := st in
  match active_config d with
  | None => ret st
  | Some configDescriptor =>
      if NumInterfaces configDescriptor >? 1 then ret st
      else
        iface0 <- index (SupportedInterfaces configDescriptor) 0 ;;
        ifaceDescriptor <- index (InterfaceDescriptors iface0) 0 ;;
        if negb (InterfaceClass ifaceDescriptor =? 255)
           || negb (InterfaceSubClass ifaceDescriptor =? 66)
           || negb (InterfaceProtocol ifaceDescriptor =? 3)
        then ret st
        else
          let '(in_, out) :=
            find_endpoints 0 (EndpointDescriptors ifaceDescriptor) (-1) (-1) in
          if (in_ <? 0) || (out <? 0) then ret st
          else
            let matched : M (usbDevice * Z) :=
              epIn <- index (EndpointDescriptors ifaceDescriptor) in_ ;;
              epOut <- index (EndpointDescriptors ifaceDescriptor) out ;;
              let dev' := {| endpointIn := Some epIn; endpointOut := Some epOut;
                             device := Some d; handle := handle dev |} in
              showDeviceInfo dev' ;;;
              ret (dev', wrap_int (deviceCount + 1)) in
            if negb (String.eqb serial EmptyString) then
              '(h, err) <- Open d ;;
              match h, err with
              | Some h, None =>
                  defer_Close h ;;;
                  let serialNumber := StringDescriptorASCII d in
                  if negb (String.eqb serialNumber serial) then ret st
                  else matched
              | _, _ => ret st
              end
            else matched
  end.

(** [for _, device := range devices]. *)
Fixpoint scan_devices (serial : string) (ds : list Device)
    (st : usbDevice * Z) : M (usbDevice * Z) :=
  match ds with
  | [] => ret st
  | d :: rest => st' <- scan_device serial d st ;; scan_devices serial rest st'
  end.

Fixpoint close_all (hs : list DeviceHandle) (w : World) : World :=
  match hs with
  | [] => w
  | h :: rest => close_all rest (emit (EvHandleClose h) w)
  end.

(** A function body with its deferred calls: they run, last first,
    when the body returns and also when it panics. *)
Definition with_defers {A} (body : M A) : M A :=
  fun w =>
    let outer := deferred w in
    let '(r, w') := body (set_deferred [] w) in
    (r, set_deferred outer (close_all (deferred w') w')).

(** [usbDeviceOpen(serial)] (main.go:45-125). *)
Definition usbDeviceOpen (serial : string) : M (usbDevice * option error) :=
  with_defers (
    let dev := zero_usbDevice in
    devices <- DeviceList ;;
    '(dev, deviceCount) <- scan_devices serial devices (dev, 0) ;;
    if deviceCount =? 0 then ret (dev, Some ErrNoDevice)
    else if deviceCount >? 1 then ret (dev, Some ErrMultipleDevices)
    else
      match device dev with
      | None => throw NilDereference
      | Some d =>
          '(h, err) <- Open d ;;
          let dev := {| endpointIn := endpointIn dev;
                        endpointOut := endpointOut dev;
                        device := device dev; handle := h |} in
          match h, err with
          | Some hd, None =>
              err <- ClaimInterface d hd 0 ;;
              match err with
              | Some e => handle_Close hd ;;; ret (dev, Some (ErrClaimFailed e))
              | None => ret (dev, None)
              end
          | _, Some e => ret (dev, Some (ErrOpenFailed e))
          | None, None => throw NilDereference
          end
      end).

(** [usbDeviceClose(dev)] (main.go:127-131). *)
Definition usbDeviceClose (dev : usbDevice) : M unit :=
  match handle dev with
  | None => throw NilDereference
  | Some h => ReleaseInterface h 0 ;;; handle_Close h
  end.

(* ================================================================== *)
(** ** USB session: chunked write, single read                         *)
(* ================================================================== *)

(** The slice expression [s[lo:hi]]. *)
Definition slice {A} (s : list A) (lo hi : Z) : M (list A) :=
  if (0 <=? lo) && (lo <=? hi) && (hi <=? len s) then
    ret (firstn (Z.to_nat (hi - lo)) (skipn (Z.to_nat lo) s))
  else throw SliceOutOfRange.

(** Go's integer division: truncated, and a panic on a zero divisor. *)
Definition int_div (a b : Z) : M Z :=
  if b =? 0 then throw DivideByZero else ret (wrap_int (Z.quot a b)).

(** The [for i := 0; i < count; i++] loop of [usbWrite], with [todo]
    iterations to go. *)
Fixpoint usbWrite_loop (todo : nat) (h : DeviceHandle)
    (endpoint : EndpointDescriptor) (data : list byte) (offset : Z)
  : M (option error) :=
  match todo with
  | O => ret None
  | S todo' =>
      let size := wrap_int (len data - offset) in
      let size := if size >? MaxPacketSize endpoint
                  then MaxPacketSize endpoint else size in
      chunk <- slice data offset (wrap_int (offset + size)) ;;
      '(_, err, _) <- BulkTransfer h (EndpointAddress endpoint) chunk size usbTimeout ;;
      match err with
      | Some e => ret (Some (ErrUsbWrite e))
      | None => usbWrite_loop todo' h endpoint data (wrap_int (offset + size))
      end
  end.

(** [usbWrite(dev, data)] (main.go:265-284). *)
Definition usbWrite (dev : usbDevice) (data : list byte) : M (option error) :=
  match endpointOut dev with
  | None => throw NilDereference
  | Some endpoint =>
      let mps := MaxPacketSize endpoint in
      count <- int_div (wrap_int (wrap_int (len data + mps) - 1)) mps ;;
      log (LogUsbSend (len data) count mps) ;;;
      match handle dev with
      | None => if 0 <? count then throw NilDereference else ret None
      | Some h => usbWrite_loop (Z.to_nat count) h endpoint data 0
      end
  end.

(** [usbRead(dev, data)] (main.go:286-293): the count, the error and
    the contents of [data] afterwards. *)
Definition usbRead (dev : usbDevice) (data : list byte)
  : M (Z * option error * list byte) :=
  match handle dev, endpointIn dev with
  | Some h, Some endpoint =>
      '(n, err, data') <- BulkTransfer h (EndpointAddress endpoint) data (len data) usbTimeout ;;
      match err with
      | Some e => ret (n, Some (ErrUsbRead e), data')
      | None => ret (n, None, data')
      end
  | _, _ => throw NilDereference
  end.

(* ================================================================== *)
(** ** Bridge loop                                                     *)
(* ================================================================== *)

(** The inner [for] of [main] (main.go:189-208): one request and one
    response per iteration, until a step fails.  [response] is the one
    256-byte buffer every iteration reads into. *)
Fixpoint relay_loop (fuel : nat) (dev : usbDevice) (response : list byte)
  : M unit :=
  match fuel with
  | O => out_of_fuel
  | S fuel' =>
      '(data, err) <- netRead ;;
      match err with
      | Some e => log (LogTcp e)
      | None =>
          err <- usbWrite dev data ;;
          match err with
          | Some e => log (LogUsb e)
          | None =>
              '(n, err, response') <- usbRead dev response ;;
              match err with
              | Some e => log (LogUsb e)
              | None =>
                  reply <- slice response' 0 n ;;
                  err <- netWrite reply ;;
                  match err with
                  | Some e => log (LogTcp e)
                  | None => relay_loop fuel' dev response'
                  end
              end
          end
      end
  end.

(** Every iteration that goes on has taken a header from the
    connection, so this many iterations are never exceeded. *)
Definition relay_fuel (w : World) : nat :=
  S (List.length (concat (pending (conn w)))).

(** The body of the accept loop of [main] (main.go:171-210), from the
    return of [ln.Accept()] to the next iteration. *)
Definition session (argSerial : string) : M unit :=
  err <- netReadHandshake ;;
  match err with
  | Some e => log (LogTcp e)
  | None =>
      '(dev, err) <- usbDeviceOpen argSerial ;;
      match err with
      | Some e =>
          log (LogDeviceError e) ;;;
          Sleep 1000 ;;;
          conn_Close
      | None =>
          netWriteHandshake ;;;
          let response := repeat x00 256 in
          w <- get ;;
          relay_loop (relay_fuel w) dev response ;;;
          conn_Close ;;;
          usbDeviceClose dev
      end
  end.

(** How a run of the accept loop ends.  The loop itself has no exit:
    it ends blocked in [ln.Accept()], or with the process. *)
Inductive outcome :=
| Waiting                (* blocked in Accept: no client is connecting *)
| Stuck                  (* blocked in Accept: the listener's one slot is taken *)
| Crashed (p : panic)
| OutOfFuel.

(** [ln.Accept()] on the listener [netutil.LimitListener(ln, 1)] handing
    out connection [c]: [c] becomes the connection of the world. *)
Definition Accept (c : Conn) (w : World) : World :=
  set_conn c (emit EvAccept w).

(** The one slot of the limited listener is taken from the moment a
    connection is handed out until that connection is closed. *)
Definition slot_taken (w : World) : bool := negb (closed (conn w)).

(** The [for] loop of [main] (main.go:170-211) over the connections
    the clients open, in order.  The program is single-threaded: when
    [Accept] finds the slot taken, nothing will ever free it. *)
Fixpoint accept_loop (argSerial : string) (incoming : list Conn) (w : World)
  : outcome * World :=
  match incoming with
  | [] => (Waiting, w)
  | c :: rest =>
      if slot_taken w then (Stuck, w)
      else
        match session argSerial (Accept c w) with
        | (Ret _, w') => accept_loop argSerial rest w'
        | (Panic p, w') => (Crashed p, w')
        | (Diverge, w') => (OutOfFuel, w')
        end
  end.

(** Before the first [Accept]: no connection, the slot is free. *)
Definition no_conn : Conn :=
  {| pending := []; fin := EOF; wscript := []; sent := []; closed := true |}.

(* ================================================================== *)
(** ** Start-up ([main] before its accept loop)                        *)
(* ================================================================== *)

(** The command line as [getopt.Parse()] leaves it (main.go:136-141). *)
Record Options := {
  argPort : string;          (* -l, --listen; ":5554" when not given *)
  argSerial : string;        (* -s, --serial; empty when not given *)
  argCheckDevice : bool;     (* -c, --check *)
  argHelp : bool             (* -h, --help *)
}.

(** What the host answers to the two calls of the start-up that can
    fail. *)
Record Host := {
  new_context : option ioerr;   (* the error of [libusb.NewContext()] *)
  listen : option ioerr         (* the error of [net.Listen("tcp", port)] *)
}.

(** The lines of [log.Fatalf]. *)
Inductive fatal :=
| FatalContext (e : ioerr)      (* "create USB context failed: %v" *)
| FatalCheck (e : error)        (* "error: %v" *)
| FatalListen (e : ioerr).      (* "open tcp server failed: %v" *)

(** What the process does, in order; [Run e] is an event of the world. *)
Inductive step :=
| Usage                         (* getopt.PrintUsage(os.Stdout) *)
| NewContext                    (* libusb.NewContext() *)
| Fatal (f : fatal)             (* log.Fatalf: the line, then os.Exit(1) *)
| Launching (port : string)     (* "launching server at %v" *)
| Listen (port : string)        (* net.Listen("tcp", port) *)
| Limit (n : Z)                 (* netutil.LimitListener(ln, n) *)
| ContextClose                  (* the deferred usbCtx.Close() *)
| Run (e : event).

(** How the process ends: by [os.Exit], or as the accept loop does. *)
Inductive ending :=
| Exit (status : Z)
| Ended (o : outcome).

(** The world of a process that has just started: no connection, no
    event yet. *)
Definition boot (u : Usb) : World :=
  {| conn := no_conn; usb := u; deferred := []; trace := [] |}.

(** The [-c] check of [main] (main.go:154-160): the error that makes
    [log.Fatalf] end the process, if any. *)
Definition check_device (opts : Options) : M (option error) :=
  if argCheckDevice opts then
    '(dev, err) <- usbDeviceOpen (argSerial opts) ;;
    match err with
    | Some e => ret (Some e)
    | None => usbDeviceClose dev ;;; ret None
    end
  else ret None.

(** [main()] (main.go:133-212) on the bus [u], with the connections
    [incoming] that clients will open: how it ends, what it has done,
    and the world it leaves.  The deferred [usbCtx.Close()] runs when
    [main] panics; [os.Exit] does not run it. *)
Definition main (opts : Options) (host : Host) (incoming : list Conn) (u : Usb)
  : ending * list step * World :=
  let w0 := boot u in
  if argHelp opts then (Exit 0, [Usage], w0)
  else
    match new_context host with
    | Some e => (Exit 1, [NewContext; Fatal (FatalContext e)], w0)
    | None =>
        match check_device opts w0 with
        | (Panic p, w1) =>
            (Ended (Crashed p),
             NewContext :: map Run (trace w1) ++ [ContextClose], w1)
        | (Diverge, w1) =>
            (Ended OutOfFuel, NewContext :: map Run (trace w1), w1)
        | (Ret (Some e), w1) =>
            (Exit 1,
             NewContext :: map Run (trace w1) ++ [Fatal (FatalCheck e)], w1)
        | (Ret None, w1) =>
            let started :=
              NewContext :: map Run (trace w1)
              ++ [Launching (argPort opts); Listen (argPort opts)] in
            match listen host with
            | Some e => (Exit 1, started ++ [Fatal (FatalListen e)], w1)
            | None =>
                let '(o, w2) := accept_loop (argSerial opts) incoming w1 in
                (Ended o,
                 started ++ Limit 1 :: map Run (skipn (List.length (trace w1)) (trace w2))
                 ++ match o with
                    | Crashed _ => [ContextClose]
                    | _ => []
                    end,
                 w2)
            end
        end
    end.

(* ================================================================== *)
(** ** Vocabulary of the statements                                    *)
(* ================================================================== *)

(** The bytes a reader will deliver, in order: its buffer, then what
    the connection still holds. *)
Definition stream (r : Reader) (w : World) : list byte :=
  buffered r ++ concat (pending (conn w)).

(** [w'] comes from [w] by reads on the connection and nothing else. *)
Definition only_reads (w w' : World) : Prop :=
  usb w' = usb w /\ deferred w' = deferred w /\
  fin (conn w') = fin (conn w) /\ wscript (conn w') = wscript (conn w) /\
  sent (conn w') = sent (conn w) /\ closed (conn w') = closed (conn w) /\
  exists caps, trace w' = trace w ++ map EvConnRead caps.

(** Every run of [m] moves the world along [R], whatever its outcome. *)
Definition steps (R : World -> World -> Prop) {A} (m : M A) : Prop :=
  forall w, R w (snd (m w)).

(** [w'] comes from [w] by appending events that all satisfy [P]. *)
Definition appends (P : event -> Prop) (w w' : World) : Prop :=
  exists evs, trace w' = trace w ++ evs /\ Forall P evs.

(** The events of the locator: calls on the USB library and log lines. *)
Definition usb_or_log (e : event) : Prop :=
  match e with
  | EvLog _ | EvDeviceList | EvOpen _ _ | EvHandleClose _ | EvClaim _ _ _ => True
  | _ => False
  end.

(** [w'] comes from [w] by locator events; the connection is not
    touched. *)
Definition locator_step (w w' : World) : Prop :=
  conn w' = conn w /\ appends usb_or_log w w'.

(** The events since [w]. *)
Definition since (w w' : World) : list event :=
  skipn (List.length (trace w)) (trace w').

(** *** The locator's filter, in the words of the specification *)

Definition is_bulk_in (e : EndpointDescriptor) : bool :=
  (TransferType e =? BulkTransfer_type) && (Direction e =? 1).

Definition is_bulk_out (e : EndpointDescriptor) : bool :=
  (TransferType e =? BulkTransfer_type) && (Direction e =? 0).

Definition fastboot_signature (i : InterfaceDescriptor) : bool :=
  (InterfaceClass i =? 255) && (InterfaceSubClass i =? 66)
  && (InterfaceProtocol i =? 3).

(** The one interface of a configuration (its first setting). *)
Definition first_interface (c : ConfigDescriptor) : option InterfaceDescriptor :=
  match SupportedInterfaces c with
  | {| InterfaceDescriptors := i :: _ |} :: _ => Some i
  | _ => None
  end.

(** Exactly one interface, with the fastboot triple and a bulk endpoint
    in each direction. *)
Definition signature_matches (d : Device) : bool :=
  match active_config d with
  | None => false
  | Some c =>
      (NumInterfaces c =? 1) &&
      match first_interface c with
      | None => false
      | Some i =>
          fastboot_signature i
          && existsb is_bulk_in (EndpointDescriptors i)
          && existsb is_bulk_out (EndpointDescriptors i)
      end
  end.

(** No serial was asked for, or the device can be opened and its serial
    string is the one asked for. *)
Definition serial_matches (serial : string) (d : Device) : bool :=
  if String.eqb serial EmptyString then true
  else can_open d &&
       match serial_number d with
       | Some s => String.eqb s serial
       | None => false
       end.

Definition spec_matches (serial : string) (d : Device) : bool :=
  signature_matches d && serial_matches serial d.

(** A configuration descriptor as the binding builds it: one entry per
    interface counted, each with at least one setting. *)
Definition config_ok (c : ConfigDescriptor) : Prop :=
  NumInterfaces c = len (SupportedInterfaces c) /\
  Forall (fun i => InterfaceDescriptors i <> []) (SupportedInterfaces c).

(** The device reports at least one interface. *)
Definition has_interface (d : Device) : Prop :=
  match active_config d with
  | None => True
  | Some c => config_ok c /\ NumInterfaces c <> 0
  end.

(** [dev] is a session on device [d]: its endpoints are a bulk IN and a
    bulk OUT endpoint of the interface of [d]. *)
Definition session_on (d : Device) (dev : usbDevice) : Prop :=
  device dev = Some d /\
  exists c i ei eo,
    active_config d = Some c /\ first_interface c = Some i /\
    endpointIn dev = Some ei /\ In ei (EndpointDescriptors i) /\
    is_bulk_in ei = true /\
    endpointOut dev = Some eo /\ In eo (EndpointDescriptors i) /\
    is_bulk_out eo = true.

(** Ceiling of a quotient. *)
Definition ceil_div (a b : Z) : Z :=
  a / b + (if a mod b =? 0 then 0 else 1).

(** The next [n] bulk transfers succeed. *)
Definition accepts (n : nat) (xs : list xres) : Prop :=
  exists oks, List.length oks = n /\ firstn n xs = map XferOk oks.

(** Every value [m] returns satisfies [Q]. *)
Definition returns {A} (Q : A -> Prop) (m : M A) : Prop :=
  forall w a w', m w = (Ret a, w') -> Q a.

(** The endpoints of a session, when set, are bulk endpoints of the
    right direction. *)
Definition endpoints_ok (dev : usbDevice) : Prop :=
  (forall ei, endpointIn dev = Some ei -> is_bulk_in ei = true) /\
  (forall eo, endpointOut dev = Some eo -> is_bulk_out eo = true).

(** A bulk transfer on an IN endpoint is given a 256-byte buffer. *)
Definition read_capacity_256 (e : event) : Prop :=
  match e with
  | EvBulk _ a data l _ => Z.testbit a 7 = true -> l = 256 /\ len data = 256
  | _ => True
  end.

(** Every run of [m] first emits [e]. *)
Definition starts_with (e : event) {A} (m : M A) : Prop :=
  forall w, exists evs, trace (snd (m w)) = trace w ++ e :: evs.

Definition not_a_write (e : event) : Prop := forall data, e <> EvConnWrite data.

Definition not_usb (e : event) : Prop := is_usb_event e = false.

Definition any_event (e : event) : Prop := True.

(** The network frame of a payload. *)
Definition frame (data : list byte) : list byte := PutUint64 (len data) ++ data.

(** [m] does not run out of fuel and leaves alone what the client has
    sent and whether the connection is open. *)
Definition quiet {A} (m : M A) : Prop :=
  forall w,
    fst (m w) <> Diverge /\
    pending (conn (snd (m w))) = pending (conn w) /\
    closed (conn (snd (m w))) = closed (conn w).

(** The bulk transfer that sends chunk [c] to endpoint [ep]. *)
Definition bulk_out (h : DeviceHandle) (ep : EndpointDescriptor)
    (c : list byte) : event :=
  EvBulk h (EndpointAddress ep) c (len c) usbTimeout.

(** Every panic [m] can end in satisfies [P]. *)
Definition panics_only (P : panic -> Prop) {A} (m : M A) : Prop :=
  forall w p w', m w = (Panic p, w') -> P p.

(** *** What the locator does on the bus *)

(** The log line of [showDeviceInfo] for device [d]. *)
Definition found_line (d : Device) : event :=
  EvLog (LogFound (BusNumber d) (DeviceAddress d) (VendorID d) (ProductID d)).

Definition is_found_event (e : event) : bool :=
  match e with
  | EvLog (LogFound _ _ _ _) => true
  | _ => false
  end.

(** The devices [Open] was called on, in order, each with whether the
    call succeeded. *)
Fixpoint opens (evs : list event) : list (Device * bool) :=
  match evs with
  | [] => []
  | EvOpen d h :: rest =>
      (d, match h with Some _ => true | None => false end) :: opens rest
  | _ :: rest => opens rest
  end.

(** The handles open after the events [evs] when [hs] were open before:
    those [Open] has returned and [Close] has not been called on. *)
Fixpoint open_handles (evs : list event) (hs : list DeviceHandle)
  : list DeviceHandle :=
  match evs with
  | [] => hs
  | EvOpen _ (Some h) :: rest => open_handles rest (h :: hs)
  | EvHandleClose h :: rest => open_handles rest (remove Nat.eq_dec h hs)
  | _ :: rest => open_handles rest hs
  end.

(** Neither an [Open] nor a [Close] of a handle. *)
Definition no_handle_event (e : event) : Prop :=
  match e with
  | EvOpen _ _ | EvHandleClose _ => False
  | _ => True
  end.

(** The scan opens [d] to read its serial: a serial is asked for and [d]
    passes the signature filter. *)
Definition probed (serial : string) (d : Device) : bool :=
  signature_matches d && negb (String.eqb serial EmptyString).

(** The last element of [l] that satisfies [p]. *)
Definition last_where {A} (p : A -> bool) (l : list A) : option A :=
  match rev (filter p l) with
  | [] => None
  | a :: _ => Some a
  end.

(** The endpoints of the first setting of the first interface of [d]. *)
Definition endpoints_of (d : Device) : list EndpointDescriptor :=
  match active_config d with
  | Some c =>
      match first_interface c with
      | Some i => EndpointDescriptors i
      | None => []
      end
  | None => []
  end.

(** Where the endpoint scan leaves an index that started as [x0], [i]
    being the index of the head of [eps]: at the last endpoint that
    satisfies [p]. *)
Definition located (p : EndpointDescriptor -> bool)
    (eps : list EndpointDescriptor) (i x0 x : Z) : Prop :=
  match last_where p eps with
  | Some e => i <= x /\ nth_error eps (Z.to_nat (x - i)) = Some e
  | None => x = x0
  end.


(** The locator can acquire a device on the bus [ds]: one device and no
    other passes the filter, and it can be opened and claimed. *)
Definition acquirable (serial : string) (ds : list Device) : bool :=
  match filter (spec_matches serial) ds with
  | [d] => can_open d && can_claim d
  | _ => false
  end.

(** The session the scan records for a matching device [d]: the last
    bulk endpoint of each direction. *)
Definition selected (d : Device) (hd : option DeviceHandle) : usbDevice :=
  {| endpointIn := last_where is_bulk_in (endpoints_of d);
     endpointOut := last_where is_bulk_out (endpoints_of d);
     device := Some d; handle := hd |}.

(** What the scan does with device [d], [h] being the next free handle. *)
Definition scan_events (serial : string) (d : Device) (h : DeviceHandle)
  : list event :=
  (if probed serial d
   then [EvOpen d (if can_open d then Some h else None)] else [])
  ++ (if spec_matches serial d then [found_line d] else []).

(** The handles the scan of [ds] opens for probing, in the order of
    their opening, [h] being the next free handle. *)
Fixpoint probe_handles (serial : string) (ds : list Device) (h : DeviceHandle)
  : list DeviceHandle :=
  match ds with
  | [] => []
  | d :: rest =>
      if probed serial d && can_open d
      then h :: probe_handles serial rest (S h)
      else probe_handles serial rest h
  end.

(** What the scan does with the devices [ds]. *)
Fixpoint scan_all_events (serial : string) (ds : list Device) (h : DeviceHandle)
  : list event :=
  match ds with
  | [] => []
  | d :: rest =>
      scan_events serial d h
      ++ scan_all_events serial rest
           (if probed serial d && can_open d then S h else h)
  end.

(** The bytes sent to the device: the data of the bulk transfers on
    OUT endpoints, in order. *)
Fixpoint bytes_out (evs : list event) : list byte :=
  match evs with
  | [] => []
  | EvBulk _ a data _ _ :: rest =>
      if Z.testbit a 7 then bytes_out rest else data ++ bytes_out rest
  | _ :: rest => bytes_out rest
  end.

(** A bulk transfer on an IN endpoint. *)
Definition is_bulk_in_event (e : event) : bool :=
  match e with
  | EvBulk _ a _ _ _ => Z.testbit a 7
  | _ => false
  end.

(** What the device does in one exchange [(request, response)] over an
    OUT endpoint of maximum packet size [mps]: it takes the chunks of
    the request, then answers the read with the response. *)
Definition exchange_script (mps : Z) (x : list byte * list byte) : list xres :=
  repeat (XferOk []) (Z.to_nat (ceil_div (len (fst x)) mps))
  ++ [XferOk (snd x)].

(** The messages [msgs] arrive in the pieces [p], and no piece holds
    bytes of two messages. *)
Definition in_pieces (msgs p : list (list byte)) : Prop :=
  exists cuts,
    p = concat cuts /\ Forall2 (fun segs m => concat segs = m) cuts msgs.

(** The error [io.ReadFull] reports when the stream ends with [e] after
    the bytes [got], fewer than asked for. *)
Definition short_read_error (got : list byte) (e : ioerr) : ioerr :=
  match got, e with
  | _ :: _, EOF => ErrUnexpectedEOF
  | _, _ => e
  end.

(** Where the endpoint scan leaves an index. *)
Definition found (p : EndpointDescriptor -> bool) (eps : list EndpointDescriptor)
    (i x0 x : Z) : Prop :=
  if existsb p eps then
    i <= x /\ exists e, nth_error eps (Z.to_nat (x - i)) = Some e /\ p e = true
  else x = x0.

(* ================================================================== *)
(** ** Sample devices and worlds                                       *)
(* ================================================================== *)

Definition ep_in : EndpointDescriptor :=
  {| EndpointAddress := 129; Attributes := 2; MaxPacketSize := 512 |}.

Definition ep_out : EndpointDescriptor :=
  {| EndpointAddress := 1; Attributes := 2; MaxPacketSize := 512 |}.

Definition fastboot_iface : InterfaceDescriptor :=
  {| InterfaceClass := 255; InterfaceSubClass := 66; InterfaceProtocol := 3;
     EndpointDescriptors := [ep_in; ep_out] |}.

Definition fastboot_config : ConfigDescriptor :=
  {| NumInterfaces := 1;
     SupportedInterfaces := [ {| InterfaceDescriptors := [fastboot_iface] |} ] |}.

(** A fastboot gadget; [openable] says whether [Open] succeeds on it. *)
Definition fastboot_device (openable : bool) : Device :=
  {| BusNumber := 1; DeviceAddress := 4; VendorID := 6353; ProductID := 20192;
     active_config := Some fastboot_config; can_open := openable;
     serial_number := Some "0123456789ABCDEF"%string; can_claim := true |}.

(** A device whose configuration descriptor counts no interface. *)
Definition bare_device : Device :=
  {| BusNumber := 1; DeviceAddress := 2; VendorID := 7531; ProductID := 2;
     active_config := Some {| NumInterfaces := 0; SupportedInterfaces := [] |};
     can_open := true; serial_number := None; can_claim := true |}.

(** A freshly accepted connection on which the client has sent [p];
    [ws] says how the writes to come will go. *)
Definition accepted (p : list (list byte)) (ws : list wres) : Conn :=
  {| pending := p; fin := EOF; wscript := ws; sent := []; closed := false |}.

Definition world (c : Conn) (ds : list Device) (xs : list xres) : World :=
  {| conn := c;
     usb := {| devices := ds; xscript := xs; next_handle := 0%nat |};
     deferred := []; trace := [] |}.

(** One fastboot gadget on the bus, and it cannot be opened. *)
Definition w_unopenable : World :=
  world (accepted [] []) [fastboot_device false] [].

(** One fastboot gadget on the bus. *)
Definition w_one_gadget : World :=
  world (accepted [] []) [fastboot_device true] [].

(** A device without interfaces sits on the bus next to the gadget. *)
Definition w_bare : World :=
  world (accepted [] []) [bare_device; fastboot_device true] [].

(** The server has started and nobody has connected yet. *)
Definition w_idle : World := world no_conn [fastboot_device true] [].

(** The client opens with ["FB02"]. *)
Definition w_bad_handshake : World :=
  world (accepted [[x46; x42; x30; x32]] []) [fastboot_device true] [].

(** The client shakes hands and no device is attached. *)
Definition w_no_device : World :=
  world (accepted [FB01] []) [] [].

(** The client shakes hands, the gadget is there, and the first write
    to the client fails. *)
Definition w_ack_fails : World :=
  world (accepted [FB01] [WFail 0 ErrNet]) [fastboot_device true] [].

(** The client sends the handshake and a first request in one piece. *)
Definition w_eager_client : World :=
  world (accepted [FB01 ++ frame [x01; x02; x03]] []) [fastboot_device true] [].

(** An open session on the gadget. *)
Definition gadget_session : usbDevice :=
  {| endpointIn := Some ep_in; endpointOut := Some ep_out;
     device := Some (fastboot_device true); handle := Some 0%nat |}.

(** A three-byte request, the connection it is written to and the
    connection it arrives on. *)
Definition request3 : list byte := [x01; x02; x03].

Definition w_sender : World := world (accepted [] []) [] [].

Definition w_receiver : World := world (accepted [frame request3] []) [] [].

(** The gadget answers the next IN transfer with ["OKAY"]. *)
Definition w_okay : World :=
  world (accepted [] []) [fastboot_device true] [XferOk [x4f; x4b; x41; x59]].

(** A whole exchange: handshake, one three-byte request, a five-byte
    answer of the gadget, then the client hangs up. *)
Definition w_exchange : World :=
  world (accepted [FB01; frame request3] []) [fastboot_device true]
        [XferOk []; XferOk [x4f; x4b; x41; x59; x21]].

(** A five-byte answer of the gadget. *)
Definition reply5 : list byte := [x4f; x4b; x41; x59; x21].

(** The client has sent three bytes and hung up. *)
Definition w_cut_short : World :=
  world (accepted [[x00; x00; x00]] []) [] [].

(** The client announces a frame of 2^64 - 1 bytes. *)
Definition w_oversized : World :=
  world (accepted [[xff; xff; xff; xff; xff; xff; xff; xff]] [])
        [fastboot_device true] [].


(** An open session: one request has arrived, the gadget takes it and
    answers with five bytes. *)
Definition w_one_exchange : World :=
  world (accepted [frame request3] []) [fastboot_device true]
        (exchange_script 512 (request3, reply5)).

(** An open session: one request has arrived, and the gadget fails the
    first transfer. *)
Definition w_usb_fails : World :=
  world (accepted [frame request3] []) [fastboot_device true]
        [XferFail ErrUsb].

(** [remote-fastboot -c], and a host on which the start-up calls
    succeed. *)
Definition check_options : Options :=
  {| argPort := ":5554"; argSerial := EmptyString;
     argCheckDevice := true; argHelp := false |}.

Definition good_host : Host := {| new_context := None; listen := None |}.

(* ================================================================== *)
(** ** Proofs                                                          *)
(* ================================================================== *)

(* ------------------------------------------------------------------ *)
(** *** Big-endian words                                               *)

Lemma Z_of_byte_range b : 0 <= Z_of_byte b < 256.
Proof.
  unfold Z_of_byte. pose proof (Byte.to_N_bounded b). lia.
Qed.

Lemma Z_of_byte_of_Z z : Z_of_byte (byte_of_Z z) = z mod 256.
Proof.
  unfold Z_of_byte, byte_of_Z.
  assert (H : 0 <= z mod 256 < 256) by (apply Z.mod_pos_bound; lia).
  destruct (Byte.of_N (Z.to_N (z mod 256))) as [b|] eqn:E.
  - apply Byte.to_of_N in E. rewrite E. lia.
  - apply Byte.of_N_None_iff in E. lia.
Qed.

Lemma byte_of_Z_of_byte b : byte_of_Z (Z_of_byte b) = b.
Proof.
  unfold byte_of_Z. pose proof (Z_of_byte_range b).
  rewrite Z.mod_small by lia. unfold Z_of_byte. rewrite N2Z.id.
  now rewrite Byte.of_to_N.
Qed.

(** The bits of the byte that [PutUint64] takes from position [k]. *)
Lemma byte_lane_bit a k n :
  0 <= k -> 0 <= n ->
  Z.testbit (Z.shiftl (Z.shiftr a k mod 256) k) n =
  if (k <=? n) && (n <? k + 8) then Z.testbit a n else false.
Proof.
  intros Hk Hn. rewrite Z.shiftl_spec by assumption.
  destruct (Z.leb_spec k n); simpl.
  - change 256 with (2 ^ 8).
    destruct (Z.ltb_spec n (k + 8)).
    + rewrite Z.mod_pow2_bits_low by lia.
      rewrite Z.shiftr_spec by lia. f_equal. lia.
    + rewrite Z.mod_pow2_bits_high by lia. reflexivity.
  - apply Z.testbit_neg_r. lia.
Qed.

Lemma byte_lane0_bit a n :
  0 <= n ->
  Z.testbit (a mod 256) n = if n <? 8 then Z.testbit a n else false.
Proof.
  intros Hn. change 256 with (2 ^ 8).
  destruct (Z.ltb_spec n 8).
  - now rewrite Z.mod_pow2_bits_low by lia.
  - now rewrite Z.mod_pow2_bits_high by lia.
Qed.

Ltac decide_cmp :=
  repeat match goal with
         | |- context [?a <=? ?b] =>
             first [ replace (a <=? b) with true by (symmetry; apply Z.leb_le; lia)
                   | replace (a <=? b) with false by (symmetry; apply Z.leb_gt; lia) ]
         | |- context [?a <? ?b] =>
             first [ replace (a <? b) with true by (symmetry; apply Z.ltb_lt; lia)
                   | replace (a <? b) with false by (symmetry; apply Z.ltb_ge; lia) ]
         end.

Lemma high_bits_zero v n : 0 <= v < 2 ^ 64 -> 64 <= n -> Z.testbit v n = false.
Proof.
  intros Hv Hn.
  destruct (Z.eq_dec v 0) as [->|]; [apply Z.bits_0|].
  apply Z.bits_above_log2; [lia|].
  assert (Z.log2 v < 64) by (apply Z.log2_lt_pow2; lia). lia.
Qed.

(** Decoding undoes encoding on every [uint64]. *)
Lemma Uint64_PutUint64 v : 0 <= v < 2 ^ 64 -> Uint64 (PutUint64 v) = v.
Proof.
  intros Hv. unfold Uint64, PutUint64, at_. cbn [nth].
  rewrite !Z_of_byte_of_Z.
  apply Z.bits_inj'. intros n Hn.
  rewrite !Z.lor_spec, !byte_lane_bit, byte_lane0_bit by lia.
  assert (Hcase : n < 8 \/ 8 <= n < 16 \/ 16 <= n < 24 \/ 24 <= n < 32 \/
                  32 <= n < 40 \/ 40 <= n < 48 \/ 48 <= n < 56 \/
                  56 <= n < 64 \/ 64 <= n) by lia.
  pose proof (high_bits_zero v n Hv) as Hhigh. clear Hv.
  repeat (destruct Hcase as [Hcase | Hcase]);
    try (clear Hhigh; decide_cmp; cbn [andb orb];
         rewrite ?orb_false_r; reflexivity).
  rewrite (Hhigh Hcase). decide_cmp. reflexivity.
Qed.

(* ------------------------------------------------------------------ *)
(** *** Reading from the connection                                    *)

Lemma bind_Ret {A B} (m : M A) (k : A -> M B) w a w' :
  m w = (Ret a, w') -> bind m k w = k a w'.
Proof. intros H. unfold bind. now rewrite H. Qed.

Lemma only_reads_refl w : only_reads w w.
Proof.
  unfold only_reads. repeat split; trivial.
  exists []. now rewrite app_nil_r.
Qed.

Lemma only_reads_trans w1 w2 w3 :
  only_reads w1 w2 -> only_reads w2 w3 -> only_reads w1 w3.
Proof.
  intros (U1 & D1 & F1 & W1 & S1 & C1 & caps1 & T1)
         (U2 & D2 & F2 & W2 & S2 & C2 & caps2 & T2).
  unfold only_reads. repeat split; try congruence.
  exists (caps1 ++ caps2). rewrite T2, T1, map_app, app_assoc. reflexivity.
Qed.

Lemma take_pending_Some cap p bs rest :
  (0 < cap)%nat -> take_pending cap p = Some (bs, rest) ->
  bs <> [] /\ (List.length bs <= cap)%nat /\ bs ++ concat rest = concat p.
Proof.
  intros Hcap. induction p as [|seg p IH]; cbn [take_pending]; [discriminate|].
  destruct seg as [|b seg]; [exact IH|].
  intros [= <- <-]. split; [|split].
  - destruct cap; [lia|]. cbn. discriminate.
  - apply firstn_le_length.
  - destruct (skipn cap (b :: seg)) eqn:E.
    + rewrite <- (firstn_skipn cap (b :: seg)) at 2. rewrite E, app_nil_r.
      reflexivity.
    + cbn [concat]. rewrite <- E, app_assoc, firstn_skipn. reflexivity.
Qed.

Lemma take_pending_None cap p : take_pending cap p = None -> concat p = [].
Proof.
  induction p as [|seg p IH]; cbn [take_pending]; [reflexivity|].
  destruct seg; [exact IH | discriminate].
Qed.

(** A read on an open connection hands over a non-empty prefix of
    what is pending, or fails because nothing is. *)
Lemma conn_Read_spec cap w :
  closed (conn w) = false -> (0 < cap)%nat ->
  exists bs e w', conn_Read cap w = (Ret (bs, e), w') /\ only_reads w w' /\
    ((e = None /\ bs <> [] /\ (List.length bs <= cap)%nat /\
      bs ++ concat (pending (conn w')) = concat (pending (conn w)))
     \/ (e = Some (fin (conn w)) /\ bs = [] /\
         concat (pending (conn w)) = [] /\ pending (conn w') = [])).
Proof.
  intros Hc Hcap. unfold conn_Read. rewrite Hc.
  destruct (Nat.eqb_spec cap 0) as [->|_]; [lia|].
  assert (Hframe : forall p, only_reads w (set_conn (with_pending p (conn w)) (emit (EvConnRead cap) w))).
  { intros p. unfold only_reads. cbn. repeat split; trivial. now exists [cap]. }
  destruct (take_pending cap (pending (conn w))) as [[bs rest]|] eqn:E.
  - exists bs, None. eexists. split; [reflexivity|]. split; [apply Hframe|].
    left. apply take_pending_Some in E; [|assumption]. cbn. tauto.
  - exists [], (Some (fin (conn w))). eexists. split; [reflexivity|].
    split; [apply Hframe|]. right. apply take_pending_None in E. cbn. tauto.
Qed.

(** The same for a read through the buffered reader, on the bytes of
    [stream]. *)
Lemma bufio_Read_spec n r w :
  closed (conn w) = false -> rerr r = None -> (0 < n)%nat ->
  exists bs e r' w', bufio_Read n r w = (Ret (bs, e, r'), w') /\
    only_reads w w' /\ rerr r' = None /\
    ((e = None /\ bs <> [] /\ (List.length bs <= n)%nat /\
      bs ++ stream r' w' = stream r w)
     \/ (e = Some (fin (conn w)) /\ bs = [] /\
         stream r w = [] /\ stream r' w' = [])).
Proof.
  intros Hc Hr Hn. unfold bufio_Read.
  destruct (Nat.eqb_spec n 0) as [->|_]; [lia|].
  destruct (buffered r) as [|b buf] eqn:Eb.
  - rewrite Hr.
    destruct (defaultBufSize <=? n)%nat eqn:Ebig.
    + destruct (conn_Read_spec n w Hc Hn) as (bs & e & w' & Hrun & Hfr & Hcases).
      rewrite (bind_Ret _ _ _ _ _ Hrun). cbv beta iota.
      exists bs, e. do 2 eexists. split; [reflexivity|]. split; [assumption|].
      split; [reflexivity|]. unfold stream. rewrite Eb. cbn [buffered app].
      destruct Hcases as [(-> & Hne & Hlen & Heq) | (-> & -> & Hnil & Hp)].
      * left. tauto.
      * right. rewrite Hp, Hnil. cbn. tauto.
    + assert (Hd : (0 < defaultBufSize)%nat) by (unfold defaultBufSize; lia).
      destruct (conn_Read_spec defaultBufSize w Hc Hd)
        as (bs & e & w' & Hrun & Hfr & Hcases).
      rewrite (bind_Ret _ _ _ _ _ Hrun). cbv beta iota.
      unfold stream. rewrite Eb. cbn [app].
      destruct Hcases as [(-> & Hne & Hlen & Heq) | (-> & -> & Hnil & Hp)].
      * destruct bs as [|b bs]; [congruence|].
        do 4 eexists. split; [reflexivity|]. split; [assumption|].
        split; [reflexivity|]. left. cbn [buffered].
        repeat split.
        -- destruct n; [lia|]. cbn. discriminate.
        -- apply firstn_le_length.
        -- rewrite app_assoc, firstn_skipn. exact Heq.
      * do 4 eexists. split; [reflexivity|]. split; [assumption|].
        split; [reflexivity|]. right. rewrite Hp, Hnil. cbn. tauto.
  - do 4 eexists. split; [reflexivity|]. split; [apply only_reads_refl|].
    split; [assumption|]. left. unfold stream. cbn [buffered]. rewrite Eb.
    repeat split.
    + destruct n; [lia|]. cbn. discriminate.
    + apply firstn_le_length.
    + rewrite app_assoc, firstn_skipn. reflexivity.
Qed.

(** The loop has fuel enough, and fills [acc] with the next bytes of
    the stream. *)
Lemma ReadAtLeast_loop_spec fuel : forall r n acc w,
  closed (conn w) = false -> rerr r = None ->
  (List.length acc <= n)%nat -> (List.length (stream r w) < fuel)%nat ->
  exists err r' w',
    ReadAtLeast_loop fuel r n acc None w
      = (Ret (acc ++ firstn (n - List.length acc) (stream r w), err, r'), w') /\
    only_reads w w' /\ rerr r' = None /\
    stream r' w' = skipn (n - List.length acc) (stream r w) /\
    ((n - List.length acc <= List.length (stream r w))%nat -> err = None) /\
    ((List.length (stream r w) < n - List.length acc)%nat ->
     err = Some (fin (conn w))).
Proof.
  induction fuel as [|fuel IH]; intros r n acc w Hc Hr Hacc Hfuel; [lia|].
  cbn [ReadAtLeast_loop].
  destruct (Nat.ltb_spec (List.length acc) n) as [Hlt|Hge].
  - assert (Hpos : (0 < n - List.length acc)%nat) by lia.
    destruct (bufio_Read_spec _ r w Hc Hr Hpos)
      as (bs & e & r1 & w1 & Hrun & Hfr & Hr1 & Hcases).
    rewrite (bind_Ret _ _ _ _ _ Hrun). cbv beta iota.
    assert (Hc1 : closed (conn w1) = false)
      by (destruct Hfr as (_ & _ & _ & _ & _ & -> & _); exact Hc).
    assert (Hfin : fin (conn w1) = fin (conn w))
      by (destruct Hfr as (_ & _ & -> & _); reflexivity).
    destruct Hcases as [(-> & Hne & Hlen & Heq) | (-> & -> & Hnil & Hnil1)].
    + assert (Hbs : (0 < List.length bs)%nat)
        by (destruct bs; [congruence | cbn; lia]).
      assert (Hsplit : List.length (stream r w)
                       = (List.length bs + List.length (stream r1 w1))%nat)
        by (rewrite <- Heq; apply length_app).
      assert (Hacc1 : (List.length (acc ++ bs) <= n)%nat)
        by (rewrite length_app; lia).
      assert (Hfuel1 : (List.length (stream r1 w1) < fuel)%nat) by lia.
      destruct (IH r1 n (acc ++ bs) w1 Hc1 Hr1 Hacc1 Hfuel1)
        as (err & r' & w' & Hloop & Hfr' & Hr' & Hst & Hok & Hko).
      exists err, r', w'. rewrite Hloop, length_app.
      rewrite length_app in Hst, Hok, Hko.
      split; [|split; [|split; [|split; [|split]]]].
      * do 2 f_equal. do 2 f_equal. rewrite <- Heq, <- app_assoc. f_equal.
        rewrite firstn_app, (@firstn_all2 _ _ bs) by lia. do 2 f_equal. lia.
      * eapply only_reads_trans; eassumption.
      * assumption.
      * rewrite Hst, <- Heq, skipn_app, (@skipn_all2 _ _ bs) by lia. cbn [app].
        f_equal. lia.
      * intros H. apply Hok. lia.
      * intros H. rewrite <- Hfin. apply Hko. lia.
    + exists (Some (fin (conn w))), r1, w1. rewrite Hnil, Hnil1, app_nil_r.
      rewrite firstn_nil, skipn_nil, app_nil_r.
      split; [destruct fuel; reflexivity|].
      split; [assumption|]. split; [assumption|]. split; [reflexivity|].
      cbn [List.length]. split; [lia | reflexivity].
  - exists None, r, w. replace (n - List.length acc)%nat with 0%nat by lia.
    cbn [firstn skipn]. rewrite app_nil_r.
    split; [reflexivity|]. split; [apply only_reads_refl|].
    split; [assumption|]. split; [reflexivity|]. split; [reflexivity | lia].
Qed.

(** [io.ReadFull] returns the first [n] bytes of the stream, or all
    of it with an error when it is shorter; the rest of the stream stays
    with the reader and the connection. *)
Lemma io_ReadFull_spec r n w :
  closed (conn w) = false -> rerr r = None ->
  exists err r' w',
    io_ReadFull r n w = (Ret (firstn n (stream r w), err, r'), w') /\
    only_reads w w' /\ rerr r' = None /\
    stream r' w' = skipn n (stream r w) /\
    ((n <= List.length (stream r w))%nat -> err = None) /\
    ((List.length (stream r w) < n)%nat -> exists e, err = Some e).
Proof.
  intros Hc Hr. unfold io_ReadFull, get, bind at 1.
  assert (Hfuel : (List.length (stream r w) < S (available r w))%nat)
    by (unfold available, stream; rewrite length_app; lia).
  destruct (ReadAtLeast_loop_spec (S (available r w)) r n [] w Hc Hr
              (Nat.le_0_l n) Hfuel)
    as (err & r' & w' & Hloop & Hfr & Hr' & Hst & Hok & Hko).
  cbn [List.length] in *. rewrite Nat.sub_0_r in *. cbn [app] in Hloop.
  rewrite (bind_Ret _ _ _ _ _ Hloop). cbv beta iota.
  do 3 eexists. split; [reflexivity|]. split; [assumption|].
  split; [assumption|]. split; [assumption|]. split.
  - intros H. rewrite length_firstn.
    destruct (Nat.leb_spec n (Nat.min n (List.length (stream r w)))); [reflexivity | lia].
  - intros H. rewrite length_firstn.
    destruct (Nat.leb_spec n (Nat.min n (List.length (stream r w)))); [lia|].
    rewrite (Hko H).
    destruct (firstn n (stream r w)); [eauto|]. destruct (fin (conn w)); eauto.
Qed.

(* ------------------------------------------------------------------ *)
(** *** Frames                                                         *)

Lemma length_PutUint64 v : List.length (PutUint64 v) = 8%nat.
Proof. reflexivity. Qed.

Lemma firstn_app_exact {A} n (a b : list A) :
  List.length a = n -> firstn n (a ++ b) = a.
Proof.
  intros <-. rewrite firstn_app, Nat.sub_diag, firstn_all, firstn_O.
  apply app_nil_r.
Qed.

Lemma skipn_app_exact {A} n (a b : list A) :
  List.length a = n -> skipn n (a ++ b) = b.
Proof.
  intros <-. rewrite skipn_app, Nat.sub_diag, skipn_all. reflexivity.
Qed.

Lemma to_nat_len {A} (s : list A) : Z.to_nat (len s) = List.length s.
Proof. apply Nat2Z.id. Qed.

Lemma filled_full n acc : List.length acc = n -> filled n acc = acc.
Proof.
  intros <-. unfold filled. rewrite Nat.sub_diag. cbn. apply app_nil_r.
Qed.

Lemma wrap_uint64_len {A} (s : list A) : slice_ok s -> wrap_uint64 (len s) = len s.
Proof.
  unfold slice_ok, wrap_uint64, len, maxAlloc. intros H.
  apply Z.mod_small. split; [lia|].
  apply Z.le_lt_trans with (2 ^ 48); [assumption | reflexivity].
Qed.

(** What a successful [netWrite] has put on the wire. *)
Lemma netWrite_sent data w w' :
  netWrite data w = (Ret None, w') ->
  sent (conn w') = sent (conn w) ++ PutUint64 (wrap_uint64 (len data)) ++ data.
Proof.
  unfold netWrite, bind, conn_Write.
  destruct (closed (conn w)) eqn:Hc; cbn; [discriminate|].
  destruct (wscript (conn w)) as [|[|k e] tl] eqn:Hs; cbn; try discriminate.
  - rewrite Z.eqb_refl. cbn. intros [= <-]. cbn. now rewrite <- app_assoc.
  - destruct tl as [|[|k e] tl']; cbn; try discriminate;
      rewrite Z.eqb_refl; cbn; intros [= <-]; cbn; now rewrite <- app_assoc.
Qed.

(** On a connection that takes the writes, [netWrite] succeeds. *)
Lemma netWrite_total data w :
  closed (conn w) = false -> wscript (conn w) = [] ->
  exists w', netWrite data w = (Ret None, w').
Proof.
  intros Hc Hs. unfold netWrite, bind, conn_Write. rewrite Hc, Hs. cbn.
  rewrite Z.eqb_refl. cbn. eexists. reflexivity.
Qed.

(** [netRead] on a stream that starts with a frame, however it is cut
    into pieces. *)
Lemma netRead_frame data rest w :
  slice_ok data -> closed (conn w) = false ->
  concat (pending (conn w)) = PutUint64 (wrap_uint64 (len data)) ++ data ++ rest ->
  exists w', netRead w = (Ret (data, None), w') /\ only_reads w w'.
Proof.
  intros Hok Hc Hp. unfold netRead.
  destruct (io_ReadFull_spec NewReader 8 w Hc eq_refl)
    as (err & r1 & w1 & Hrun & Hfr & Hr1 & Hst & Herr & _).
  unfold stream in Hrun, Hst, Herr. cbn [NewReader buffered app] in Hrun, Hst, Herr.
  rewrite Hp in Hrun, Hst, Herr.
  rewrite firstn_app_exact in Hrun by apply length_PutUint64.
  rewrite skipn_app_exact in Hst by apply length_PutUint64.
  rewrite (bind_Ret _ _ _ _ _ Hrun). cbv beta iota.
  replace (len (PutUint64 (wrap_uint64 (len data))) =? 8) with true
    by reflexivity.
  cbn [negb].
  rewrite filled_full by apply length_PutUint64.
  rewrite wrap_uint64_len by assumption.
  rewrite Uint64_PutUint64
    by (unfold slice_ok, maxAlloc, len in *; split; [lia|];
        apply Z.le_lt_trans with (2 ^ 48); [assumption | reflexivity]).
  unfold make_bytes.
  destruct (Z.ltb_spec maxAlloc (len data)) as [Hbad|_];
    [unfold slice_ok in Hok; lia|].
  unfold bind at 1, ret at 1. rewrite to_nat_len.
  assert (Hc1 : closed (conn w1) = false)
    by (destruct Hfr as (_ & _ & _ & _ & _ & -> & _); exact Hc).
  destruct (io_ReadFull_spec r1 (List.length data) w1 Hc1 Hr1)
    as (err2 & r2 & w2 & Hrun2 & Hfr2 & _ & _ & Herr2 & _).
  unfold stream in Hrun2, Herr2. rewrite Hst in Hrun2, Herr2.
  rewrite firstn_app_exact in Hrun2 by reflexivity.
  rewrite (bind_Ret _ _ _ _ _ Hrun2). cbv beta iota.
  rewrite Herr2 by (rewrite length_app; lia).
  rewrite filled_full by reflexivity.
  eexists. split; [reflexivity|]. eapply only_reads_trans; eassumption.
Qed.

(** C3.  A payload written with [netWrite] (the 8-byte big-endian
    length, then the payload) and read back with [netRead] from a
    connection that delivers exactly those bytes, in whatever pieces,
    comes out as the same bytes, hence with the same length. *)
Theorem netWrite_netRead_roundtrip (data : list byte) (ws ws' wr : World) :
  slice_ok data ->
  netWrite data ws = (Ret None, ws') ->
  closed (conn wr) = false ->
  concat (pending (conn wr))
    = skipn (List.length (sent (conn ws))) (sent (conn ws')) ->
  sent (conn ws') = sent (conn ws) ++ PutUint64 (len data) ++ data /\
  exists wr', netRead wr = (Ret (data, None), wr').
Proof.
  intros Hok Hw Hc Hp. apply netWrite_sent in Hw.
  rewrite Hw, skipn_app_exact in Hp by reflexivity.
  rewrite wrap_uint64_len in Hw by assumption. split; [assumption|].
  destruct (netRead_frame data [] wr Hok Hc) as (wr' & Hr & _).
  - now rewrite app_nil_r.
  - eauto.
Qed.


(* ------------------------------------------------------------------ *)
(** *** The handshake reader                                           *)

Lemma bytes_eqb_true a b : bytes_eqb a b = true <-> a = b.
Proof.
  unfold bytes_eqb. destruct (list_eq_dec Byte.byte_eq_dec a b);
    split; congruence.
Qed.

Lemma netReadHandshake_ok w :
  closed (conn w) = false ->
  firstn 4 (concat (pending (conn w))) = FB01 ->
  exists w', netReadHandshake w = (Ret None, w') /\ only_reads w w'.
Proof.
  intros Hc Hp. unfold netReadHandshake.
  destruct (io_ReadFull_spec NewReader 4 w Hc eq_refl)
    as (err & r1 & w1 & Hrun & Hfr & _).
  unfold stream in Hrun. cbn [NewReader buffered app] in Hrun.
  rewrite Hp in Hrun. rewrite (bind_Ret _ _ _ _ _ Hrun).
  eexists. split; [reflexivity | assumption].
Qed.

Lemma netReadHandshake_bad w :
  closed (conn w) = false ->
  firstn 4 (concat (pending (conn w))) <> FB01 ->
  exists e w', netReadHandshake w = (Ret (Some e), w') /\ only_reads w w'.
Proof.
  intros Hc Hp. unfold netReadHandshake.
  destruct (io_ReadFull_spec NewReader 4 w Hc eq_refl)
    as (err & r1 & w1 & Hrun & Hfr & _).
  unfold stream in Hrun. cbn [NewReader buffered app] in Hrun.
  rewrite (bind_Ret _ _ _ _ _ Hrun). cbv beta iota.
  set (acc := firstn 4 (concat (pending (conn w)))) in *.
  destruct (len acc =? 4) eqn:Hlen; cbn [negb orb].
  - rewrite filled_full by (unfold len in Hlen; lia).
    destruct (bytes_eqb acc FB01) eqn:Heq.
    + apply bytes_eqb_true in Heq. contradiction.
    + cbn [negb]. do 2 eexists. split; [reflexivity | assumption].
  - do 2 eexists. split; [reflexivity | assumption].
Qed.

(* ------------------------------------------------------------------ *)
(** *** Moving the world along a preorder                              *)

Section Steps.
Variable R : World -> World -> Prop.
Hypothesis R_refl : forall w, R w w.
Hypothesis R_trans : forall w1 w2 w3, R w1 w2 -> R w2 w3 -> R w1 w3.

Lemma steps_ret {A} (a : A) : steps R (ret a).
Proof. intros w. apply R_refl. Qed.

Lemma steps_throw {A} p : steps R (@throw A p).
Proof. intros w. apply R_refl. Qed.

Lemma steps_out_of_fuel {A} : steps R (@out_of_fuel A).
Proof. intros w. apply R_refl. Qed.

Lemma steps_get : steps R get.
Proof. intros w. apply R_refl. Qed.

Lemma steps_bind {A B} (m : M A) (k : A -> M B) :
  steps R m -> (forall a, steps R (k a)) -> steps R (bind m k).
Proof.
  intros Hm Hk w. unfold bind. specialize (Hm w).
  destruct (m w) as [[a | p |] w1]; cbn [snd] in *; try assumption.
  eapply R_trans; [eassumption | apply Hk].
Qed.
End Steps.

Lemma appends_refl P w : appends P w w.
Proof. exists []. now rewrite app_nil_r. Qed.

Lemma appends_trans P w1 w2 w3 :
  appends P w1 w2 -> appends P w2 w3 -> appends P w1 w3.
Proof.
  intros (e1 & T1 & F1) (e2 & T2 & F2). exists (e1 ++ e2).
  rewrite T2, T1, app_assoc. split; [reflexivity | now apply Forall_app].
Qed.

Lemma appends_emit (P : event -> Prop) e w : P e -> appends P w (emit e w).
Proof. intros H. exists [e]. split; [reflexivity | now constructor]. Qed.

Lemma appends_weaken (P Q : event -> Prop) w w' :
  (forall e, P e -> Q e) -> appends P w w' -> appends Q w w'.
Proof.
  intros H (evs & T & F). exists evs. split; [assumption|].
  eapply Forall_impl; eassumption.
Qed.

Lemma appends_since P w w' : appends P w w' -> Forall P (since w w').
Proof.
  intros (evs & T & F). unfold since.
  now rewrite T, skipn_app_exact by reflexivity.
Qed.

Lemma only_reads_appends w w' :
  only_reads w w' ->
  appends (fun e => exists cap, e = EvConnRead cap) w w'.
Proof.
  intros (_ & _ & _ & _ & _ & _ & caps & T). exists (map EvConnRead caps).
  split; [assumption|]. apply Forall_forall. intros e He.
  apply in_map_iff in He. destruct He as (cap & <- & _). eauto.
Qed.


(* ------------------------------------------------------------------ *)
(** *** Endpoint direction and the endpoint scan                       *)

Lemma Direction_bit e : Direction e = Z.b2z (Z.testbit (EndpointAddress e) 7).
Proof.
  unfold Direction. apply Z.bits_inj'. intros n Hn.
  rewrite Z.shiftr_spec, Z.land_spec by assumption.
  change 128 with (2 ^ 7). rewrite Z.pow2_bits_eqb by lia.
  destruct (Z.eqb_spec 7 (n + 7)) as [E|E].
  - assert (n = 0) as -> by lia. cbn [Z.add].
    rewrite andb_true_r, Z.b2z_bit0. reflexivity.
  - rewrite andb_false_r.
    destruct (Z.testbit (EndpointAddress e) 7); cbn [Z.b2z].
    + symmetry. apply Z.bits_above_log2; cbn; lia.
    + symmetry. apply Z.bits_0.
Qed.

Lemma Direction_01 e : Direction e = 0 \/ Direction e = 1.
Proof.
  rewrite Direction_bit. destruct (Z.testbit (EndpointAddress e) 7); cbn; auto.
Qed.


Lemma found_skip p e eps i x0 x :
  p e = false -> found p eps (i + 1) x0 x -> found p (e :: eps) i x0 x.
Proof.
  unfold found. cbn [existsb]. intros ->. cbn [orb].
  destruct (existsb p eps); [|trivial].
  intros (Hle & e' & Hnth & Hp). split; [lia|]. exists e'. split; [|assumption].
  replace (Z.to_nat (x - i)) with (S (Z.to_nat (x - (i + 1)))) by lia.
  exact Hnth.
Qed.

Lemma found_here p e eps i x0 x :
  p e = true -> found p eps (i + 1) i x -> found p (e :: eps) i x0 x.
Proof.
  unfold found. cbn [existsb]. intros Hpe. rewrite Hpe. cbn [orb].
  destruct (existsb p eps).
  - intros (Hle & e' & Hnth & Hp). split; [lia|]. exists e'. split; [|assumption].
    replace (Z.to_nat (x - i)) with (S (Z.to_nat (x - (i + 1)))) by lia.
    exact Hnth.
  - intros ->. split; [lia|]. exists e. rewrite Z.sub_diag. auto.
Qed.

Lemma find_endpoints_spec eps : forall i in0 out0,
  found is_bulk_in eps i in0 (fst (find_endpoints i eps in0 out0)) /\
  found is_bulk_out eps i out0 (snd (find_endpoints i eps in0 out0)).
Proof.
  induction eps as [|e eps IH]; intros i in0 out0; cbn [find_endpoints].
  - split; reflexivity.
  - unfold is_bulk_in at 1, is_bulk_out at 1.
    destruct (TransferType e =? BulkTransfer_type) eqn:Hb; cbn [negb].
    + destruct (Z.eqb_spec (Direction e) 1) as [Hd|Hd].
      * destruct (IH (i + 1) i out0) as [Hin Hout]. split.
        -- apply found_here; [|assumption].
           unfold is_bulk_in. now rewrite Hb, Hd.
        -- apply found_skip; [|assumption].
           unfold is_bulk_out. now rewrite Hb, Hd.
      * assert (Hd0 : Direction e = 0) by (destruct (Direction_01 e); tauto).
        destruct (IH (i + 1) in0 i) as [Hin Hout]. split.
        -- apply found_skip; [|assumption].
           unfold is_bulk_in. now rewrite Hb, Hd0.
        -- apply found_here; [|assumption].
           unfold is_bulk_out. now rewrite Hb, Hd0.
    + destruct (IH (i + 1) in0 out0) as [Hin Hout]. split.
      * apply found_skip; [|assumption]. unfold is_bulk_in. now rewrite Hb.
      * apply found_skip; [|assumption]. unfold is_bulk_out. now rewrite Hb.
Qed.

Lemma index_Some {A} (s : list A) i a w :
  0 <= i -> nth_error s (Z.to_nat i) = Some a -> index s i w = (Ret a, w).
Proof.
  intros Hi Hn. unfold index.
  destruct (Z.ltb_spec i 0); [lia|]. now rewrite Hn.
Qed.

Lemma wrap_int_small z : int_min <= z <= int_max -> wrap_int z = z.
Proof.
  unfold int_min, int_max, wrap_int. intros H.
  rewrite Z.mod_small; lia.
Qed.

Lemma maxAlloc_int : maxAlloc + 65536 <= int_max.
Proof. unfold maxAlloc, int_max. lia. Qed.


(* ------------------------------------------------------------------ *)
(** *** The locator touches the USB bus and the log only               *)

Lemma locator_step_refl w : locator_step w w.
Proof. split; [reflexivity | apply appends_refl]. Qed.

Lemma locator_step_trans w1 w2 w3 :
  locator_step w1 w2 -> locator_step w2 w3 -> locator_step w1 w3.
Proof.
  intros [C1 A1] [C2 A2]. split; [congruence|].
  eapply appends_trans; eassumption.
Qed.

Lemma locator_step_emit e w : usb_or_log e -> locator_step w (emit e w).
Proof. intros H. split; [reflexivity | now apply appends_emit]. Qed.

Lemma steps_tell_locator e : usb_or_log e -> steps locator_step (tell e).
Proof. intros H w. now apply locator_step_emit. Qed.

Lemma steps_index_locator {A} (s : list A) i : steps locator_step (index s i).
Proof.
  unfold index.
  destruct (i <? 0); [apply (steps_throw _ locator_step_refl)|].
  destruct (nth_error s (Z.to_nat i));
    [apply (steps_ret _ locator_step_refl)
    | apply (steps_throw _ locator_step_refl)].
Qed.

Lemma steps_Open_locator d : steps locator_step (Open d).
Proof.
  intros w. unfold Open. destruct (can_open d); cbn [snd].
  - split; [reflexivity|]. exists [EvOpen d (Some (next_handle (usb w)))].
    split; [reflexivity|]. repeat constructor.
  - now apply locator_step_emit.
Qed.

Lemma steps_defer_Close_locator h : steps locator_step (defer_Close h).
Proof.
  intros w. split; [reflexivity|]. exists []. cbn. now rewrite app_nil_r.
Qed.

Lemma steps_showDeviceInfo_locator dev : steps locator_step (showDeviceInfo dev).
Proof.
  unfold showDeviceInfo. destruct (device dev).
  - now apply steps_tell_locator.
  - apply (steps_throw _ locator_step_refl).
Qed.

Ltac locator_tac :=
  repeat first
    [ apply (steps_ret _ locator_step_refl)
    | apply (steps_throw _ locator_step_refl)
    | apply (steps_bind _ locator_step_trans); [ | intros ]
    | apply steps_index_locator
    | apply steps_Open_locator
    | apply steps_defer_Close_locator
    | apply steps_showDeviceInfo_locator
    | apply steps_tell_locator; exact I
    | match goal with
      | |- steps _ (match ?x with _ => _ end) => destruct x
      end ].

Lemma steps_scan_device_locator serial d st :
  steps locator_step (scan_device serial d st).
Proof.
  unfold scan_device. destruct st as [dev deviceCount]. locator_tac.
Qed.

Lemma steps_scan_devices_locator serial ds :
  forall st, steps locator_step (scan_devices serial ds st).
Proof.
  induction ds as [|d ds IH]; intros st; cbn [scan_devices].
  - apply (steps_ret _ locator_step_refl).
  - apply (steps_bind _ locator_step_trans); [|exact IH].
    apply steps_scan_device_locator.
Qed.

Lemma locator_step_close_all hs : forall w, locator_step w (close_all hs w).
Proof.
  induction hs as [|h hs IH]; intros w; cbn [close_all].
  - apply locator_step_refl.
  - eapply locator_step_trans; [|apply IH]. now apply locator_step_emit.
Qed.

Lemma steps_with_defers_locator {A} (body : M A) :
  steps locator_step body -> steps locator_step (with_defers body).
Proof.
  intros Hb w. unfold with_defers. specialize (Hb (set_deferred [] w)).
  destruct (body (set_deferred [] w)) as [r w1]. cbn [snd] in *.
  destruct Hb as [C (evs & T & F)].
  pose proof (locator_step_close_all (deferred w1) w1) as [C2 (evs2 & T2 & F2)].
  cbn [set_deferred conn trace] in C, T.
  split; [cbn [set_deferred conn]; congruence|].
  exists (evs ++ evs2). cbn [set_deferred trace].
  rewrite T2, T, app_assoc.
  split; [reflexivity | now apply Forall_app].
Qed.

Lemma steps_usbDeviceOpen_locator serial :
  steps locator_step (usbDeviceOpen serial).
Proof.
  unfold usbDeviceOpen. apply steps_with_defers_locator.
  apply (steps_bind _ locator_step_trans).
  - intros w. now apply locator_step_emit.
  - intros ds. apply (steps_bind _ locator_step_trans).
    + apply steps_scan_devices_locator.
    + intros [dev deviceCount]. unfold ClaimInterface, handle_Close. locator_tac.
Qed.


(* ------------------------------------------------------------------ *)
(** *** What the scan does with one device                             *)

Lemma first_interface_one c si i alts :
  SupportedInterfaces c = [si] -> InterfaceDescriptors si = i :: alts ->
  first_interface c = Some i.
Proof.
  intros Hs Hi. unfold first_interface. rewrite Hs.
  destruct si as [ids]. cbn in Hi. now rewrite Hi.
Qed.

Lemma signature_check i :
  negb (InterfaceClass i =? 255) || negb (InterfaceSubClass i =? 66)
  || negb (InterfaceProtocol i =? 3) = negb (fastboot_signature i).
Proof.
  unfold fastboot_signature.
  destruct (InterfaceClass i =? 255), (InterfaceSubClass i =? 66),
    (InterfaceProtocol i =? 3); reflexivity.
Qed.

Lemma endpoints_check eps in_ out :
  find_endpoints 0 eps (-1) (-1) = (in_, out) ->
  (in_ <? 0) || (out <? 0)
    = negb (existsb is_bulk_in eps && existsb is_bulk_out eps) /\
  (existsb is_bulk_in eps = true ->
   0 <= in_ /\ exists e, nth_error eps (Z.to_nat in_) = Some e /\ is_bulk_in e = true) /\
  (existsb is_bulk_out eps = true ->
   0 <= out /\ exists e, nth_error eps (Z.to_nat out) = Some e /\ is_bulk_out e = true).
Proof.
  intros E. destruct (find_endpoints_spec eps 0 (-1) (-1)) as [Hin Hout].
  rewrite E in Hin, Hout. cbn [fst snd] in Hin, Hout. unfold found in Hin, Hout.
  rewrite Z.sub_0_r in Hin, Hout.
  destruct (existsb is_bulk_in eps), (existsb is_bulk_out eps); cbn [andb negb];
    repeat match goal with
           | H : _ /\ _ |- _ => destruct H
           | H : _ = -1 |- _ => rewrite H
           end;
    (split; [| split; intros; try discriminate; auto]).
  - destruct (Z.ltb_spec in_ 0), (Z.ltb_spec out 0); reflexivity || lia.
  - apply orb_true_r.
  - reflexivity.
  - reflexivity.
Qed.

Lemma scan_device_spec serial d dev c w :
  has_interface d -> 0 <= c <= maxAlloc ->
  exists dev' w',
    scan_device serial d (dev, c) w
      = (Ret (dev', if spec_matches serial d then c + 1 else c), w') /\
    handle dev' = handle dev /\
    (if spec_matches serial d then session_on d dev' else dev' = dev).
Proof.
  intros Hd Hc.
  assert (Hwrap : wrap_int (c + 1) = c + 1).
  { apply wrap_int_small. pose proof maxAlloc_int. unfold int_min. lia. }
  unfold scan_device, spec_matches, signature_matches, has_interface, session_on in *.
  destruct (active_config d) as [cfg|] eqn:Hcfg;
    [| exists dev, w; cbn; auto].
  destruct Hd as [[Hnum Halt] Hnz].
  rewrite Z.gtb_ltb.
  destruct (Z.ltb_spec 1 (NumInterfaces cfg)) as [Hmany|Hfew].
  { exists dev, w. destruct (Z.eqb_spec (NumInterfaces cfg) 1); [lia|].
    cbn. auto. }
  destruct (SupportedInterfaces cfg) as [|si [|si2 more]] eqn:Hsi;
    unfold len in Hnum; cbn [List.length] in Hnum; try lia.
  apply Forall_inv in Halt.
  destruct (InterfaceDescriptors si) as [|i alts] eqn:Hi; [congruence|].
  pose proof (first_interface_one cfg si i alts Hsi Hi) as Hfirst.
  rewrite Hfirst.
  rewrite (bind_Ret _ _ _ _ _ (index_Some [si] 0 si w (Z.le_refl 0) eq_refl)).
  rewrite Hi.
  rewrite (bind_Ret _ _ _ _ _ (index_Some (i :: alts) 0 i w (Z.le_refl 0) eq_refl)).
  rewrite signature_check.
  destruct (Z.eqb_spec (NumInterfaces cfg) 1) as [_|]; [|lia]. cbn [andb].
  destruct (fastboot_signature i); cbn [negb andb];
    [| exists dev, w; auto].
  destruct (find_endpoints 0 (EndpointDescriptors i) (-1) (-1)) as [in_ out] eqn:Hfind.
  destruct (endpoints_check _ _ _ Hfind) as (Hchk & Hin & Hout). rewrite Hchk.
  destruct (existsb is_bulk_in (EndpointDescriptors i)); cbn [andb negb];
    [| exists dev, w; auto].
  destruct (existsb is_bulk_out (EndpointDescriptors i)); cbn [andb negb];
    [| exists dev, w; auto].
  destruct (Hin eq_refl) as (Hin0 & ei & Hei & Hbi).
  destruct (Hout eq_refl) as (Hout0 & eo & Heo & Hbo).
  assert (Hmatched : forall w0, exists dev' w',
    (epIn <- index (EndpointDescriptors i) in_ ;;
     epOut <- index (EndpointDescriptors i) out ;;
     showDeviceInfo {| endpointIn := Some epIn; endpointOut := Some epOut;
                       device := Some d; handle := handle dev |} ;;;
     ret ({| endpointIn := Some epIn; endpointOut := Some epOut;
             device := Some d; handle := handle dev |}, wrap_int (c + 1))) w0
      = (Ret (dev', c + 1), w') /\
    handle dev' = handle dev /\
    device dev' = Some d /\
    exists c0 i0 ei0 eo0,
      Some cfg = Some c0 /\ first_interface c0 = Some i0 /\
      endpointIn dev' = Some ei0 /\ In ei0 (EndpointDescriptors i0) /\
      is_bulk_in ei0 = true /\
      endpointOut dev' = Some eo0 /\ In eo0 (EndpointDescriptors i0) /\
      is_bulk_out eo0 = true).
  { intros w0.
    rewrite (bind_Ret _ _ _ _ _ (index_Some _ _ _ w0 Hin0 Hei)).
    rewrite (bind_Ret _ _ _ _ _ (index_Some _ _ _ w0 Hout0 Heo)).
    rewrite Hwrap. do 2 eexists. split; [reflexivity|]. cbn.
    split; [reflexivity|]. split; [reflexivity|].
    exists cfg, i, ei, eo. apply nth_error_In in Hei, Heo. auto 10. }
  unfold serial_matches.
  destruct (String.eqb_spec serial EmptyString) as [Hs|Hs]; cbn [negb].
  { apply Hmatched. }
  unfold bind at 1, Open.
  destruct (can_open d); cbn [andb];
    [| do 2 eexists; split; [reflexivity | auto]].
  unfold bind at 1, defer_Close. unfold StringDescriptorASCII.
  destruct (serial_number d) as [s|].
  - destruct (String.eqb s serial); cbn [negb];
      [apply Hmatched | do 2 eexists; split; [reflexivity | auto]].
  - assert (String.eqb EmptyString serial = false) as ->.
    { apply String.eqb_neq. congruence. }
    cbn [negb]. do 2 eexists; split; [reflexivity | auto].
Qed.


Lemma scan_devices_spec serial ds : forall dev c w,
  Forall has_interface ds -> 0 <= c -> c + len ds <= maxAlloc ->
  exists dev' w',
    scan_devices serial ds (dev, c) w
      = (Ret (dev', c + len (filter (spec_matches serial) ds)), w') /\
    handle dev' = handle dev /\
    match rev (filter (spec_matches serial) ds) with
    | [] => dev' = dev
    | d :: _ => session_on d dev'
    end.
Proof.
  induction ds as [|d ds IH]; intros dev c w Hds Hc Hlen.
  - exists dev, w. cbn. rewrite Z.add_0_r. auto.
  - unfold len in Hlen. cbn [List.length] in Hlen. rewrite Nat2Z.inj_succ in Hlen.
    fold (len ds) in Hlen. pose proof (Nat2Z.is_nonneg (List.length ds)) as Hnn.
    fold (len ds) in Hnn.
    inversion Hds as [|? ? Hd Hds']; subst.
    destruct (scan_device_spec serial d dev c w Hd) as (dev1 & w1 & Hrun & Hh1 & Hm);
      [lia|].
    cbn [scan_devices filter]. rewrite (bind_Ret _ _ _ _ _ Hrun).
    destruct (spec_matches serial d).
    + destruct (IH dev1 (c + 1) w1 Hds') as (dev' & w' & Hrun' & Hh' & Hm');
        [lia | lia |].
      exists dev', w'. rewrite Hrun'. split; [|split; [congruence|]].
      * unfold len. cbn [List.length]. rewrite Nat2Z.inj_succ.
        do 3 f_equal. lia.
      * cbn [rev].
        destruct (rev (filter (spec_matches serial) ds)); cbn [app];
          [subst dev'|]; assumption.
    + subst dev1. apply IH; [assumption | lia | lia].
Qed.

Lemma filter_length_le {A} (p : A -> bool) l :
  (List.length (filter p l) <= List.length l)%nat.
Proof.
  induction l as [|a l IH]; cbn; [lia|]. destruct (p a); cbn; lia.
Qed.

Lemma session_on_handle d dev h :
  session_on d dev ->
  session_on d {| endpointIn := endpointIn dev; endpointOut := endpointOut dev;
                  device := Some d; handle := h |}.
Proof.
  intros [Hdev Hrest]. split; [reflexivity | exact Hrest].
Qed.

(** The locator, device list by device list. *)
Lemma usbDeviceOpen_cases serial w :
  slice_ok (devices (usb w)) -> Forall has_interface (devices (usb w)) ->
  exists dev err w',
    usbDeviceOpen serial w = (Ret (dev, err), w') /\
    match filter (spec_matches serial) (devices (usb w)) with
    | [] => err = Some ErrNoDevice
    | [d] =>
        session_on d dev /\
        err = (if can_open d then
                 if can_claim d then None else Some (ErrClaimFailed ErrUsb)
               else Some (ErrOpenFailed ErrUsb)) /\
        (err = None -> exists h, handle dev = Some h)
    | _ :: _ :: _ => err = Some ErrMultipleDevices
    end.
Proof.
  intros Hok Hds. unfold usbDeviceOpen, with_defers.
  unfold bind at 1, DeviceList. cbn [usb set_deferred].
  set (w0 := emit EvDeviceList (set_deferred [] w)).
  destruct (scan_devices_spec serial (devices (usb w)) zero_usbDevice 0 w0 Hds)
    as (dev1 & w1 & Hrun & Hh & Hm); [lia | exact Hok |].
  rewrite (bind_Ret _ _ _ _ _ Hrun). cbv beta iota. cbn [Z.add] in *.
  pose proof (filter_length_le (spec_matches serial) (devices (usb w))) as Hle.
  destruct (filter (spec_matches serial) (devices (usb w))) as [|d [|d2 more]];
    unfold len; cbn [List.length rev app] in *.
  - cbn. do 3 eexists. split; reflexivity.
  - cbn [Z.of_nat Pos.of_succ_nat Z.eqb Z.gtb Z.compare Pos.compare Pos.compare_cont].
    pose proof Hm as [Hdev _]. rewrite Hdev.
    unfold bind at 1, Open.
    destruct (can_open d).
    + unfold ClaimInterface, tell, bind, ret, handle_Close.
      destruct (can_claim d); do 3 eexists; (split; [reflexivity|]);
        (split; [apply session_on_handle; exact Hm |]);
        (split; [reflexivity|]); cbn; intros; try discriminate; eauto.
    + do 3 eexists. split; [reflexivity|].
      split; [apply session_on_handle; exact Hm |].
      split; [reflexivity | discriminate].
  - assert (Hcount : (Z.of_nat (S (S (List.length more))) =? 0) = false)
      by (apply Z.eqb_neq; lia).
    assert (Hcount' : (Z.of_nat (S (S (List.length more))) >? 1) = true)
      by (apply Z.gtb_lt; lia).
    rewrite Hcount, Hcount'. do 3 eexists. split; reflexivity.
Qed.


(* ------------------------------------------------------------------ *)
(** *** Which events a function can emit                               *)

Section Events.
Variable P : event -> Prop.

Hypothesis P_read : forall cap, P (EvConnRead cap).
Hypothesis P_write : forall data, P (EvConnWrite data).
Hypothesis P_log : forall l, P (EvLog l).

Lemma ev_ret {A} (a : A) : steps (appends P) (ret a).
Proof. apply steps_ret, appends_refl. Qed.

Lemma ev_throw {A} p : steps (appends P) (@throw A p).
Proof. apply steps_throw, appends_refl. Qed.

Lemma ev_out_of_fuel {A} : steps (appends P) (@out_of_fuel A).
Proof. apply steps_out_of_fuel, appends_refl. Qed.

Lemma ev_get : steps (appends P) get.
Proof. apply steps_get, appends_refl. Qed.

Lemma ev_bind {A B} (m : M A) (k : A -> M B) :
  steps (appends P) m -> (forall a, steps (appends P) (k a)) -> steps (appends P) (bind m k).
Proof. apply steps_bind, appends_trans. Qed.

Lemma ev_tell e : P e -> steps (appends P) (tell e).
Proof. intros H w. now apply appends_emit. Qed.

Lemma ev_conn_Read cap : steps (appends P) (conn_Read cap).
Proof.
  intros w. unfold conn_Read.
  destruct (closed (conn w)); [apply appends_emit, P_read|].
  destruct (cap =? 0)%nat; [apply appends_emit, P_read|].
  destruct (take_pending cap (pending (conn w))) as [[bs rest]|];
    cbn [snd]; exists [EvConnRead cap]; split; auto.
Qed.

Lemma ev_conn_Write data : steps (appends P) (conn_Write data).
Proof.
  intros w. unfold conn_Write.
  destruct (closed (conn w)); [apply appends_emit, P_write|].
  destruct (wscript (conn w)) as [|[|n e] tl];
    cbn [snd]; exists [EvConnWrite data]; split; auto.
Qed.

Ltac ev_tac :=
  repeat first
    [ apply ev_ret | apply ev_throw | apply ev_out_of_fuel | apply ev_get
    | apply ev_conn_Read | apply ev_conn_Write
    | apply ev_tell; solve [auto]
    | apply ev_bind; [ | intros ]
    | match goal with
      | |- steps _ (match ?x with _ => _ end) => destruct x
      | |- steps _ (let '(_, _) := ?x in _) => destruct x
      end ].

Lemma ev_bufio_Read n r : steps (appends P) (bufio_Read n r).
Proof. unfold bufio_Read. ev_tac. Qed.

Lemma ev_ReadAtLeast_loop fuel : forall r n acc err,
  steps (appends P) (ReadAtLeast_loop fuel r n acc err).
Proof.
  induction fuel as [|fuel IH]; intros r n acc err; cbn [ReadAtLeast_loop].
  - ev_tac.
  - destruct err; [ev_tac|].
    destruct (List.length acc <? n)%nat; [|ev_tac].
    apply ev_bind; [apply ev_bufio_Read|]. intros [[bs e] r']. apply IH.
Qed.

Lemma ev_io_ReadFull r n : steps (appends P) (io_ReadFull r n).
Proof.
  unfold io_ReadFull. apply ev_bind; [apply ev_get|]. intros w.
  apply ev_bind; [apply ev_ReadAtLeast_loop|]. intros [[acc err] r'].
  apply ev_ret.
Qed.

Lemma ev_netReadHandshake : steps (appends P) netReadHandshake.
Proof.
  unfold netReadHandshake. apply ev_bind; [apply ev_io_ReadFull|].
  intros [[acc err] r']. ev_tac.
Qed.

Lemma ev_netRead : steps (appends P) netRead.
Proof.
  unfold netRead, make_bytes. apply ev_bind; [apply ev_io_ReadFull|].
  intros [[acc err] r']. destruct (negb (len acc =? 8)); [ev_tac|].
  apply ev_bind; [ev_tac|]. intros cap.
  apply ev_bind; [apply ev_io_ReadFull|]. intros [[acc' err'] r'']. ev_tac.
Qed.

Lemma ev_netWrite data : steps (appends P) (netWrite data).
Proof. unfold netWrite. ev_tac. Qed.

Lemma ev_netWriteHandshake : steps (appends P) netWriteHandshake.
Proof. unfold netWriteHandshake, log. ev_tac. Qed.

Lemma ev_slice {A} (s : list A) lo hi : steps (appends P) (slice s lo hi).
Proof. unfold slice. ev_tac. Qed.

Lemma ev_pop_xscript : steps (appends P) pop_xscript.
Proof.
  intros w. unfold pop_xscript. destruct (xscript (usb w)); cbn [snd];
    exists []; cbn; now rewrite app_nil_r.
Qed.

Lemma ev_BulkTransfer h a data l t :
  P (EvBulk h a data l t) -> steps (appends P) (BulkTransfer h a data l t).
Proof.
  intros H. unfold BulkTransfer. apply ev_bind; [now apply ev_tell|].
  intros _. apply ev_bind; [apply ev_pop_xscript|]. intros x. ev_tac.
Qed.

Lemma ev_usbWrite_loop h ep data :
  (forall c l, P (EvBulk h (EndpointAddress ep) c l usbTimeout)) ->
  forall todo offset, steps (appends P) (usbWrite_loop todo h ep data offset).
Proof.
  intros HP. induction todo as [|todo IH]; intros offset;
    cbn [usbWrite_loop]; [apply ev_ret|].
  apply ev_bind; [apply ev_slice|]. intros chunk.
  apply ev_bind; [apply ev_BulkTransfer, HP|]. intros [[n err] data'].
  destruct err; [apply ev_ret | apply IH].
Qed.

Lemma ev_usbWrite dev data :
  (forall h ep c l, handle dev = Some h -> endpointOut dev = Some ep ->
                    P (EvBulk h (EndpointAddress ep) c l usbTimeout)) ->
  steps (appends P) (usbWrite dev data).
Proof.
  intros HP. unfold usbWrite, int_div, log.
  destruct (endpointOut dev) as [ep|]; [|apply ev_throw].
  apply ev_bind; [ev_tac|]. intros count.
  apply ev_bind; [ev_tac|]. intros _.
  destruct (handle dev) as [h|]; [|ev_tac].
  apply ev_usbWrite_loop. intros c l. now apply HP.
Qed.

Lemma ev_usbRead dev data :
  (forall h ep, handle dev = Some h -> endpointIn dev = Some ep ->
                P (EvBulk h (EndpointAddress ep) data (len data) usbTimeout)) ->
  steps (appends P) (usbRead dev data).
Proof.
  intros HP. unfold usbRead.
  destruct (handle dev) as [h|]; [|apply ev_throw].
  destruct (endpointIn dev) as [ep|]; [|apply ev_throw].
  apply ev_bind; [apply ev_BulkTransfer; now apply HP|].
  intros [[n err] data']. ev_tac.
Qed.

Hypothesis P_bulk : forall h a data l t, P (EvBulk h a data l t).

Lemma ev_relay_loop fuel : forall dev response,
  steps (appends P) (relay_loop fuel dev response).
Proof.
  induction fuel as [|fuel IH]; intros dev response; cbn [relay_loop];
    [apply ev_out_of_fuel|].
  apply ev_bind; [apply ev_netRead|]. intros [data err].
  destruct err; [apply ev_tell, P_log|].
  apply ev_bind; [apply ev_usbWrite; intros; apply P_bulk|]. intros err.
  destruct err; [apply ev_tell, P_log|].
  apply ev_bind; [apply ev_usbRead; intros; apply P_bulk|].
  intros [[n err] response'].
  destruct err; [apply ev_tell, P_log|].
  apply ev_bind; [apply ev_slice|]. intros reply.
  apply ev_bind; [apply ev_netWrite|]. intros err.
  destruct err; [apply ev_tell, P_log | apply IH].
Qed.

Hypothesis P_close : P EvConnClose.
Hypothesis P_usb : forall e, is_usb_event e = true -> P e.
Hypothesis P_sleep : forall ms, P (EvSleep ms).

Lemma ev_conn_Close : steps (appends P) conn_Close.
Proof. intros w. exists [EvConnClose]. cbn. auto. Qed.

Lemma ev_usbDeviceClose dev : steps (appends P) (usbDeviceClose dev).
Proof.
  unfold usbDeviceClose, ReleaseInterface, handle_Close.
  destruct (handle dev); [|apply ev_throw].
  apply ev_bind; [|intros _]; apply ev_tell, P_usb; reflexivity.
Qed.

Lemma ev_usbDeviceOpen serial : steps (appends P) (usbDeviceOpen serial).
Proof.
  intros w. destruct (steps_usbDeviceOpen_locator serial w) as [_ H].
  revert H. apply appends_weaken. intros [] H; try contradiction;
    solve [apply P_log | apply P_usb; reflexivity].
Qed.

Lemma ev_session serial : steps (appends P) (session serial).
Proof.
  unfold session, log, Sleep.
  apply ev_bind; [apply ev_netReadHandshake|]. intros err.
  destruct err; [apply ev_tell, P_log|].
  apply ev_bind; [apply ev_usbDeviceOpen|]. intros [dev err].
  destruct err.
  - apply ev_bind; [apply ev_tell, P_log|]. intros _.
    apply ev_bind; [apply ev_tell, P_sleep|]. intros _. apply ev_conn_Close.
  - apply ev_bind; [apply ev_netWriteHandshake|]. intros _.
    apply ev_bind; [apply ev_get|]. intros w.
    apply ev_bind; [apply ev_relay_loop|]. intros _.
    apply ev_bind; [apply ev_conn_Close|]. intros _. apply ev_usbDeviceClose.
Qed.
End Events.


(* ------------------------------------------------------------------ *)
(** *** Chunked write                                                  *)

Lemma ceil_div_alt x m : 0 <= x -> 0 < m -> ceil_div x m = (x + m - 1) / m.
Proof.
  intros Hx Hm. unfold ceil_div.
  pose proof (Z.div_mod x m ltac:(lia)) as Hdm.
  pose proof (Z.mod_pos_bound x m Hm) as Hr.
  destruct (Z.eqb_spec (x mod m) 0) as [E|E].
  - apply Z.div_unique with (r := m - 1); lia.
  - apply Z.div_unique with (r := x mod m - 1); lia.
Qed.

Lemma ceil_div_0 m : 0 < m -> ceil_div 0 m = 0.
Proof.
  intros Hm. rewrite ceil_div_alt by lia. apply Z.div_small. lia.
Qed.

Lemma ceil_div_pos x m : 0 < x -> 0 < m -> 1 <= ceil_div x m.
Proof.
  intros Hx Hm. rewrite ceil_div_alt by lia.
  apply Z.div_le_lower_bound; lia.
Qed.

Lemma ceil_div_step x m :
  0 < x -> 0 < m -> ceil_div (x - Z.min x m) m = ceil_div x m - 1.
Proof.
  intros Hx Hm. destruct (Z.le_gt_cases x m) as [Hle|Hgt].
  - rewrite Z.min_l, Z.sub_diag, ceil_div_0 by lia.
    rewrite ceil_div_alt by lia.
    symmetry. apply Z.sub_move_0_r. symmetry.
    apply Z.div_unique with (r := x - 1); lia.
  - rewrite Z.min_r by lia. rewrite !ceil_div_alt by lia.
    replace (x + m - 1) with ((x - m + m - 1) + 1 * m) by lia.
    rewrite Z.div_add by lia. lia.
Qed.

Lemma int_div_nonneg a b w :
  0 <= a <= int_max -> 0 < b ->
  int_div a b w = (Ret (a / b), w).
Proof.
  intros Ha Hb. unfold int_div.
  destruct (Z.eqb_spec b 0); [lia|].
  rewrite Z.quot_div_nonneg by lia.
  rewrite wrap_int_small; [reflexivity|].
  unfold int_min. split.
  - pose proof (Z.div_pos a b). lia.
  - pose proof (Z.div_le_upper_bound a b int_max). nia.
Qed.

Lemma slice_in_range {A} (s : list A) lo hi w :
  0 <= lo -> lo <= hi -> hi <= len s ->
  slice s lo hi w
    = (Ret (firstn (Z.to_nat (hi - lo)) (skipn (Z.to_nat lo) s)), w).
Proof.
  intros H1 H2 H3. unfold slice.
  destruct (Z.leb_spec 0 lo); [|lia].
  destruct (Z.leb_spec lo hi); [|lia].
  destruct (Z.leb_spec hi (len s)); [|lia]. reflexivity.
Qed.

(** A bulk transfer returns, and it is one event. *)
Lemma BulkTransfer_total h a data l t w :
  exists n err data' w',
    BulkTransfer h a data l t w = (Ret (n, err, data'), w') /\
    trace w' = trace w ++ [EvBulk h a data l t] /\
    conn w' = conn w /\
    xscript (usb w') = tl (xscript (usb w)).
Proof.
  unfold BulkTransfer, bind, tell, pop_xscript. cbn [emit usb].
  destruct (xscript (usb w)) as [|[bs|e] rest] eqn:Hx; cbn [tl].
  - do 4 eexists. split; [reflexivity|]. cbn. rewrite Hx. auto.
  - destruct (Z.testbit a 7); [destruct (len bs <=? l)|];
      do 4 eexists; (split; [reflexivity|]); cbn; auto.
  - do 4 eexists. split; [reflexivity|]. cbn. auto.
Qed.

Lemma BulkTransfer_out_ok h a data l t w bs rest :
  xscript (usb w) = XferOk bs :: rest -> Z.testbit a 7 = false ->
  exists w',
    BulkTransfer h a data l t w = (Ret (l, None, data), w') /\
    trace w' = trace w ++ [EvBulk h a data l t] /\
    conn w' = conn w /\
    xscript (usb w') = rest.
Proof.
  intros Hx Hbit. unfold BulkTransfer, bind, tell, pop_xscript. cbn [emit usb].
  rewrite Hx, Hbit. eexists. split; [reflexivity|]. cbn. auto.
Qed.

Lemma accepts_S n xs :
  accepts (S n) xs ->
  exists bs rest, xs = XferOk bs :: rest /\ accepts n rest.
Proof.
  intros (oks & Hlen & Hfirst). destruct oks as [|bs oks]; [discriminate|].
  destruct xs as [|x rest]; [discriminate|]. cbn in Hfirst, Hlen.
  injection Hfirst as -> Hrest. exists bs, rest. split; [reflexivity|].
  exists oks. split; [lia | assumption].
Qed.

Section UsbWrite.
Variables (h : DeviceHandle) (ep : EndpointDescriptor) (data : list byte).
Hypothesis Hmps : 0 < MaxPacketSize ep <= 65535.
Hypothesis Hdata : slice_ok data.

Lemma usbWrite_loop_spec : forall todo offset,
  0 <= offset <= len data ->
  Z.of_nat todo = ceil_div (len data - offset) (MaxPacketSize ep) ->
  exists chunks,
    concat chunks = skipn (Z.to_nat offset) data /\
    List.length chunks = todo /\
    Forall (fun c => 0 < len c <= MaxPacketSize ep) chunks /\
    forall w, exists err j w',
      usbWrite_loop todo h ep data offset w = (Ret err, w') /\
      trace w' = trace w ++ map (bulk_out h ep) (firstn j chunks) /\
      conn w' = conn w /\
      (err = None -> j = todo) /\
      (Z.testbit (EndpointAddress ep) 7 = false ->
       accepts todo (xscript (usb w)) -> err = None).
Proof.
  pose proof maxAlloc_int as Hmax. unfold slice_ok in Hdata.
  induction todo as [|todo IH]; intros offset Hoff Htodo.
  - exists []. assert (offset = len data) as ->.
    { destruct (Z.eq_dec offset (len data)); [assumption|].
      pose proof (ceil_div_pos (len data - offset) (MaxPacketSize ep)). lia. }
    rewrite to_nat_len, skipn_all. repeat split; auto.
    intros w. exists None, 0%nat, w. cbn. rewrite app_nil_r. auto 6.
  - set (x := len data - offset) in *.
    assert (Hx : 0 < x).
    { destruct (Z.eq_dec x 0) as [E|]; [|lia].
      rewrite E, ceil_div_0 in Htodo by lia. lia. }
    set (size := Z.min x (MaxPacketSize ep)).
    assert (Hsize : 0 < size <= MaxPacketSize ep /\ size <= x)
      by (unfold size; lia).
    set (chunk := firstn (Z.to_nat size) (skipn (Z.to_nat offset) data)).
    assert (Hchunk : len chunk = size).
    { unfold chunk, len. rewrite length_firstn, length_skipn.
      unfold x, len in *. lia. }
    destruct (IH (offset + size)) as (chunks & Hcat & Hlen & Hall & Hrun).
    { unfold x in *. lia. }
    { replace (len data - (offset + size)) with (x - size) by (unfold x; lia).
      unfold size. rewrite ceil_div_step by lia. lia. }
    exists (chunk :: chunks). split; [|split; [|split]].
    + cbn [concat]. rewrite Hcat. unfold chunk.
      replace (Z.to_nat (offset + size))
        with (Z.to_nat size + Z.to_nat offset)%nat by lia.
      rewrite <- skipn_skipn. apply firstn_skipn.
    + cbn. now rewrite Hlen.
    + constructor; [lia | assumption].
    + intros w. cbn [usbWrite_loop]. fold x.
      rewrite (wrap_int_small x) by (unfold int_min, x; lia).
      replace (if x >? MaxPacketSize ep then MaxPacketSize ep else x)
        with size
        by (unfold size; rewrite Z.gtb_ltb;
            destruct (Z.ltb_spec (MaxPacketSize ep) x); lia).
      rewrite (wrap_int_small (offset + size)) by (unfold int_min, x in *; lia).
      rewrite (bind_Ret _ _ _ _ _
                 (slice_in_range data offset (offset + size) w
                    ltac:(lia) ltac:(lia) ltac:(unfold x in *; lia))).
      replace (offset + size - offset) with size by lia. fold chunk.
      destruct (BulkTransfer_total h (EndpointAddress ep) chunk size usbTimeout w)
        as (n & err & data' & w1 & Hbulk & Htr & Hconn & Hscript).
      rewrite (bind_Ret _ _ _ _ _ Hbulk). cbv beta iota.
      destruct err as [e|].
      * exists (Some (ErrUsbWrite e)), 1%nat, w1. cbn [firstn map].
        unfold bulk_out. rewrite Hchunk.
        split; [reflexivity|]. split; [assumption|]. split; [assumption|].
        split; [discriminate|]. intros Hbit Hacc.
        apply accepts_S in Hacc. destruct Hacc as (bs & rest & Hxs & _).
        destruct (BulkTransfer_out_ok h _ chunk size usbTimeout w bs rest Hxs Hbit)
          as (w2 & Hbulk2 & _). congruence.
      * destruct (Hrun w1) as (err & j & w' & Hloop & Htr' & Hconn' & Hj & Hacc').
        exists err, (S j), w'. rewrite Hloop. cbn [firstn map].
        unfold bulk_out at 1. rewrite Hchunk, Htr', Htr, <- app_assoc.
        split; [reflexivity|]. split; [reflexivity|].
        split; [congruence|]. split; [intros E; now rewrite Hj|].
        intros Hbit Hacc. apply Hacc'; [assumption|].
        apply accepts_S in Hacc. destruct Hacc as (bs & rest & Hxs & Hrest).
        rewrite Hscript, Hxs. exact Hrest.
Qed.
End UsbWrite.

(** C2.  [usbWrite] cuts a payload of length L into ceil(L / max packet
    size) chunks, none when L = 0, each non-empty and at most one packet
    long, whose concatenation is the payload; it issues them as bulk
    transfers in this order, one per chunk, stopping at the first
    transfer that fails, and all of them when the device takes them. *)
Theorem usbWrite_chunks dev data h ep :
  handle dev = Some h -> endpointOut dev = Some ep ->
  0 < MaxPacketSize ep <= 65535 -> slice_ok data ->
  exists chunks,
    concat chunks = data /\
    len chunks = ceil_div (len data) (MaxPacketSize ep) /\
    (len data = 0 -> chunks = []) /\
    Forall (fun c => 0 < len c <= MaxPacketSize ep) chunks /\
    forall w, exists err j w',
      usbWrite dev data w = (Ret err, w') /\
      since w w'
        = EvLog (LogUsbSend (len data) (len chunks) (MaxPacketSize ep))
          :: map (bulk_out h ep) (firstn j chunks) /\
      (err = None -> j = List.length chunks) /\
      (Z.testbit (EndpointAddress ep) 7 = false ->
       accepts (List.length chunks) (xscript (usb w)) -> err = None).
Proof.
  intros Hh Hep Hmps Hdata.
  pose proof maxAlloc_int as Hmax. pose proof Hdata as Hlen.
  unfold slice_ok in Hlen.
  assert (Hnn : 0 <= len data) by (unfold len; lia).
  set (count := ceil_div (len data) (MaxPacketSize ep)).
  assert (Hcount : 0 <= count).
  { unfold count. rewrite ceil_div_alt by lia. apply Z.div_pos; lia. }
  destruct (usbWrite_loop_spec h ep data Hmps Hdata (Z.to_nat count) 0)
    as (chunks & Hcat & Hclen & Hall & Hrun).
  { lia. }
  { rewrite Z.sub_0_r. fold count. lia. }
  exists chunks. cbn [Z.to_nat skipn] in Hcat.
  assert (Hlc : len chunks = count) by (unfold len; lia).
  split; [assumption|]. split; [assumption|]. split; [|split; [assumption|]].
  - intros H0. destruct chunks; [reflexivity|]. exfalso.
    unfold count in Hlc. rewrite H0, ceil_div_0 in Hlc by lia.
    unfold len in Hlc. cbn in Hlc. lia.
  - intros w. unfold usbWrite. rewrite Hep, Hh.
    rewrite (wrap_int_small (len data + MaxPacketSize ep))
      by (unfold int_min; lia).
    rewrite (wrap_int_small (len data + MaxPacketSize ep - 1))
      by (unfold int_min; lia).
    assert (Hdiv : 0 <= len data + MaxPacketSize ep - 1 <= int_max) by lia.
    rewrite (bind_Ret _ _ _ _ _
               (int_div_nonneg _ (MaxPacketSize ep) w Hdiv (proj1 Hmps))).
    rewrite <- ceil_div_alt by lia. fold count.
    unfold log, tell, bind at 1.
    destruct (Hrun (emit (EvLog (LogUsbSend (len data) count (MaxPacketSize ep))) w))
      as (err & j & w' & Hloop & Htr & _ & Hj & Hacc).
    exists err, j, w'. rewrite Hloop. split; [reflexivity|].
    cbn [emit trace usb] in Htr, Hacc. rewrite Hclen.
    split; [|split; assumption].
    unfold since. rewrite Htr, <- app_assoc, skipn_app_exact by reflexivity.
    rewrite Hlc. reflexivity.
Qed.


(* ------------------------------------------------------------------ *)
(** *** Single read                                                    *)

Lemma usbRead_cases dev data h ep :
  handle dev = Some h -> endpointIn dev = Some ep ->
  forall w, exists n err data' w',
    usbRead dev data w = (Ret (n, err, data'), w') /\
    since w w' = [EvBulk h (EndpointAddress ep) data (len data) usbTimeout] /\
    xscript (usb w') = tl (xscript (usb w)) /\
    len data' = len data /\
    (forall bs rest,
        xscript (usb w) = XferOk bs :: rest ->
        Z.testbit (EndpointAddress ep) 7 = true -> len bs <= len data ->
        err = None /\ n = len bs /\ firstn (Z.to_nat n) data' = bs).
Proof.
  intros Hh Hep w. unfold usbRead. rewrite Hh, Hep.
  unfold BulkTransfer, bind, tell, pop_xscript, since. cbn [emit usb trace].
  destruct (xscript (usb w)) as [|[bs|e] rest] eqn:Hx.
  - do 4 eexists. split; [reflexivity|]. cbn [trace usb set_usb emit xscript tl].
    rewrite skipn_app_exact by reflexivity.
    split; [reflexivity|]. split; [assumption|]. split; [reflexivity|].
    intros; discriminate.
  - destruct (Z.testbit (EndpointAddress ep) 7) eqn:Hbit.
    + destruct (Z.leb_spec (len bs) (len data)) as [Hle|Hgt].
      * do 4 eexists. split; [reflexivity|]. cbn [trace usb set_usb emit xscript tl].
        rewrite skipn_app_exact by reflexivity.
        split; [reflexivity|]. split; [reflexivity|]. split.
        -- unfold len in *. rewrite length_app, length_skipn. lia.
        -- intros bs' rest' [= <- <-] _ _.
           rewrite to_nat_len, firstn_app_exact by reflexivity. auto.
      * do 4 eexists. split; [reflexivity|]. cbn [trace usb set_usb emit xscript tl].
        rewrite skipn_app_exact by reflexivity.
        split; [reflexivity|]. split; [reflexivity|]. split; [reflexivity|].
        intros bs' rest' [= <- <-] _ Hle. lia.
    + do 4 eexists. split; [reflexivity|]. cbn [trace usb set_usb emit xscript tl].
      rewrite skipn_app_exact by reflexivity.
      split; [reflexivity|]. split; [reflexivity|]. split; [reflexivity|].
    intros; discriminate.
  - do 4 eexists. split; [reflexivity|]. cbn [trace usb set_usb emit xscript tl].
    rewrite skipn_app_exact by reflexivity.
    split; [reflexivity|]. split; [reflexivity|]. split; [reflexivity|].
    intros; discriminate.
Qed.

Lemma usbRead_len dev data :
  returns (fun '(_, _, data') => len data' = len data) (usbRead dev data).
Proof.
  intros w [[n err] data'] w' Hrun. unfold usbRead in Hrun.
  destruct (handle dev) as [h|] eqn:Hh; [|discriminate].
  destruct (endpointIn dev) as [ep|] eqn:Hep; [|discriminate].
  destruct (usbRead_cases dev data h ep Hh Hep w)
    as (n1 & err1 & data1 & w1 & Hrun1 & _ & _ & Hlen & _).
  unfold usbRead in Hrun1. rewrite Hh, Hep in Hrun1. congruence.
Qed.

(* ------------------------------------------------------------------ *)
(** *** What a function can return                                     *)

Lemma returns_ret {A} (Q : A -> Prop) a : Q a -> returns Q (ret a).
Proof. intros H w a' w' [= <- _]. exact H. Qed.

Lemma returns_throw {A} (Q : A -> Prop) p : returns Q (throw p).
Proof. intros w a w' H. discriminate. Qed.

Lemma returns_bind {A B} (P : A -> Prop) (Q : B -> Prop) m k :
  returns P m -> (forall a, P a -> returns Q (k a)) -> returns Q (bind m k).
Proof.
  intros Hm Hk w b w'. unfold bind.
  destruct (m w) as [[a | p |] w1] eqn:E; try discriminate.
  apply (Hk a (Hm _ _ _ E)).
Qed.

Lemma returns_any {A} (m : M A) : returns (fun _ => True) m.
Proof. intros w a w' _. exact I. Qed.

Lemma steps_bind_val R (R_trans : forall w1 w2 w3, R w1 w2 -> R w2 w3 -> R w1 w3)
    {A B} (Q : A -> Prop) (m : M A) (k : A -> M B) :
  steps R m -> returns Q m -> (forall a, Q a -> steps R (k a)) ->
  steps R (bind m k).
Proof.
  intros Hm Hq Hk w. unfold bind. specialize (Hm w).
  destruct (m w) as [[a | p |] w1] eqn:E; cbn [snd] in *; try assumption.
  eapply R_trans; [eassumption | apply Hk, (Hq _ _ _ E)].
Qed.

Lemma returns_index {A} (Q : A -> Prop) (s : list A) i :
  (forall a, 0 <= i -> nth_error s (Z.to_nat i) = Some a -> Q a) ->
  returns Q (index s i).
Proof.
  intros H w a w'. unfold index.
  destruct (Z.ltb_spec i 0); [discriminate|].
  destruct (nth_error s (Z.to_nat i)) eqn:E; [|discriminate].
  intros [= <- _]. now apply H.
Qed.

(** The scan sets endpoints only to bulk endpoints of the right
    direction, whatever the descriptors look like. *)
Lemma scan_device_endpoints serial d dev c :
  endpoints_ok dev ->
  returns (fun st => endpoints_ok (fst st)) (scan_device serial d (dev, c)).
Proof.
  intros Hdev. unfold scan_device.
  assert (Hskip : returns (fun st => endpoints_ok (fst st)) (ret (dev, c)))
    by now apply returns_ret.
  destruct (active_config d) as [cfg|]; [|assumption].
  destruct (NumInterfaces cfg >? 1); [assumption|].
  apply (returns_bind (fun _ => True)); [apply returns_any|]. intros iface0 _.
  apply (returns_bind (fun _ => True)); [apply returns_any|]. intros i _.
  destruct (negb (InterfaceClass i =? 255) || negb (InterfaceSubClass i =? 66)
            || negb (InterfaceProtocol i =? 3)); [assumption|].
  destruct (find_endpoints 0 (EndpointDescriptors i) (-1) (-1)) as [in_ out] eqn:Hfind.
  destruct (endpoints_check _ _ _ Hfind) as (Hchk & Hin & Hout).
  destruct ((in_ <? 0) || (out <? 0)); [assumption|].
  destruct (existsb is_bulk_in (EndpointDescriptors i)); [|discriminate].
  destruct (existsb is_bulk_out (EndpointDescriptors i)); [|discriminate].
  destruct (Hin eq_refl) as (_ & ei & Hei & Hbi).
  destruct (Hout eq_refl) as (_ & eo & Heo & Hbo).
  assert (Hmatched : returns (fun st => endpoints_ok (fst st))
    (epIn <- index (EndpointDescriptors i) in_ ;;
     epOut <- index (EndpointDescriptors i) out ;;
     showDeviceInfo {| endpointIn := Some epIn; endpointOut := Some epOut;
                       device := Some d; handle := handle dev |} ;;;
     ret ({| endpointIn := Some epIn; endpointOut := Some epOut;
             device := Some d; handle := handle dev |}, wrap_int (c + 1)))).
  { eapply returns_bind.
    { apply (returns_index (fun e => is_bulk_in e = true)).
      intros a _ Ha. congruence. }
    intros epIn HepIn. eapply returns_bind.
    { apply (returns_index (fun e => is_bulk_out e = true)).
      intros a _ Ha. congruence. }
    intros epOut HepOut. apply (returns_bind (fun _ => True)); [apply returns_any|].
    intros _ _. apply returns_ret. split; cbn; intros e [= <-]; assumption. }
  destruct (negb (String.eqb serial EmptyString)); [|assumption].
  apply (returns_bind (fun _ => True)); [apply returns_any|]. intros [hd err] _.
  destruct hd; [|assumption]. destruct err; [assumption|].
  apply (returns_bind (fun _ => True)); [apply returns_any|]. intros _ _.
  destruct (negb (String.eqb (StringDescriptorASCII d) serial)); assumption.
Qed.

Lemma scan_devices_endpoints serial ds : forall st,
  endpoints_ok (fst st) ->
  returns (fun st' => endpoints_ok (fst st')) (scan_devices serial ds st).
Proof.
  induction ds as [|d ds IH]; intros [dev c] Hst; cbn [scan_devices].
  - now apply returns_ret.
  - eapply returns_bind; [now apply scan_device_endpoints|].
    intros st' Hst'. now apply IH.
Qed.

Lemma returns_with_defers {A} (Q : A -> Prop) (body : M A) :
  returns Q body -> returns Q (with_defers body).
Proof.
  intros Hb w a w'. unfold with_defers.
  destruct (body (set_deferred [] w)) as [r w1] eqn:E.
  intros [= -> _]. eapply Hb, E.
Qed.

Lemma usbDeviceOpen_endpoints serial :
  returns (fun r => endpoints_ok (fst r)) (usbDeviceOpen serial).
Proof.
  unfold usbDeviceOpen. apply returns_with_defers.
  apply (returns_bind (fun _ => True)); [apply returns_any|]. intros ds _.
  eapply returns_bind.
  { apply scan_devices_endpoints. split; cbn; discriminate. }
  intros [dev count] Hdev. cbn [fst] in Hdev.
  destruct (count =? 0); [now apply returns_ret|].
  destruct (count >? 1); [now apply returns_ret|].
  destruct (device dev) as [d|]; [|apply returns_throw].
  apply (returns_bind (fun _ => True)); [apply returns_any|]. intros [hd err] _.
  assert (Hdev' : forall x y, endpoints_ok
            {| endpointIn := endpointIn dev; endpointOut := endpointOut dev;
               device := y; handle := x |}) by (intros x y; exact Hdev).
  destruct hd as [hd|], err as [e|];
    try (apply returns_ret; apply Hdev'); try apply returns_throw.
  apply (returns_bind (fun _ => True)); [apply returns_any|]. intros [e|] _.
  - apply (returns_bind (fun _ => True)); [apply returns_any|]. intros _ _.
    apply returns_ret, Hdev'.
  - apply returns_ret, Hdev'.
Qed.


(* ------------------------------------------------------------------ *)
(** *** The read buffer of the bridge loop                             *)

Lemma bulk_out_bit e : is_bulk_out e = true -> Z.testbit (EndpointAddress e) 7 = false.
Proof.
  unfold is_bulk_out. intros H. apply andb_prop in H. destruct H as [_ H].
  apply Z.eqb_eq in H. rewrite Direction_bit in H.
  destruct (Z.testbit (EndpointAddress e) 7); [discriminate | reflexivity].
Qed.

Lemma bulk_in_bit e : is_bulk_in e = true -> Z.testbit (EndpointAddress e) 7 = true.
Proof.
  unfold is_bulk_in. intros H. apply andb_prop in H. destruct H as [_ H].
  apply Z.eqb_eq in H. rewrite Direction_bit in H.
  destruct (Z.testbit (EndpointAddress e) 7); [reflexivity | discriminate].
Qed.

Lemma relay_loop_capacity fuel : forall dev response,
  len response = 256 -> endpoints_ok dev ->
  steps (appends read_capacity_256) (relay_loop fuel dev response).
Proof.
  induction fuel as [|fuel IH]; intros dev response Hlen Hdev;
    cbn [relay_loop]; [apply ev_out_of_fuel|].
  apply ev_bind; [apply ev_netRead; intros; exact I|]. intros [data err].
  destruct err; [apply ev_tell; exact I|].
  apply ev_bind.
  { apply ev_usbWrite; try (intros; exact I).
    intros h ep c l _ Hep. unfold read_capacity_256. intros Hbit.
    rewrite (bulk_out_bit ep) in Hbit by (apply Hdev; assumption).
    discriminate. }
  intros err. destruct err; [apply ev_tell; exact I|].
  apply (steps_bind_val _ (appends_trans _)
           (fun '(_, _, data') => len data' = len response)).
  { apply ev_usbRead. intros h ep _ _. unfold read_capacity_256. auto. }
  { apply usbRead_len. }
  intros [[n err] response'] Hlen'.
  destruct err; [apply ev_tell; exact I|].
  apply ev_bind; [apply ev_slice|]. intros reply.
  apply ev_bind; [apply ev_netWrite; intros; exact I|]. intros err.
  destruct err; [apply ev_tell; exact I|].
  apply IH; [congruence | assumption].
Qed.

Lemma session_capacity serial :
  steps (appends read_capacity_256) (session serial).
Proof.
  unfold session, log, Sleep.
  apply ev_bind; [apply ev_netReadHandshake; intros; exact I|]. intros err.
  destruct err; [apply ev_tell; exact I|].
  apply (steps_bind_val _ (appends_trans _) (fun r => endpoints_ok (fst r))).
  { intros w. destruct (steps_usbDeviceOpen_locator serial w) as [_ H].
    revert H. apply appends_weaken. intros [] H; try contradiction; exact I. }
  { apply usbDeviceOpen_endpoints. }
  intros [dev err] Hdev. cbn [fst] in Hdev. destruct err.
  - apply ev_bind; [apply ev_tell; exact I|]. intros _.
    apply ev_bind; [apply ev_tell; exact I|]. intros _.
    apply ev_conn_Close. exact I.
  - apply ev_bind; [apply ev_netWriteHandshake; intros; exact I|]. intros _.
    apply ev_bind; [apply ev_get|]. intros w.
    apply ev_bind; [now apply relay_loop_capacity|]. intros _.
    apply ev_bind; [apply ev_conn_Close; exact I|]. intros _.
    unfold usbDeviceClose, ReleaseInterface, handle_Close.
    destruct (handle dev); [|apply ev_throw].
    apply ev_bind; [|intros _]; apply ev_tell; exact I.
Qed.

(** C8.  [usbRead] issues exactly one bulk transfer, into the caller's
    buffer and with the buffer's length as capacity, consumes one answer
    of the device and returns the number of bytes received; it never
    transfers a second time.  In the bridge loop every transfer on an IN
    endpoint is given a 256-byte buffer. *)
Theorem usbRead_single_transfer dev data h ep w serial w0 :
  handle dev = Some h -> endpointIn dev = Some ep ->
  (exists n err data' w',
     usbRead dev data w = (Ret (n, err, data'), w') /\
     since w w' = [EvBulk h (EndpointAddress ep) data (len data) usbTimeout] /\
     xscript (usb w') = tl (xscript (usb w)) /\
     len data' = len data /\
     (forall bs rest,
         xscript (usb w) = XferOk bs :: rest ->
         Z.testbit (EndpointAddress ep) 7 = true -> len bs <= len data ->
         err = None /\ n = len bs /\ firstn (Z.to_nat n) data' = bs)) /\
  Forall read_capacity_256 (since w0 (snd (session serial w0))).
Proof.
  intros Hh Hep. split.
  - now apply usbRead_cases.
  - apply appends_since, session_capacity.
Qed.


(* ------------------------------------------------------------------ *)
(** *** Reads that stay within one piece of the stream                 *)

Lemma bind_assoc {A B C} (m : M A) (k : A -> M B) (k' : B -> M C) w :
  bind (bind m k) k' w = bind m (fun a => bind (k a) k') w.
Proof. unfold bind. destruct (m w) as [[a | p |] w1]; reflexivity. Qed.

Lemma ReadAtLeast_loop_done fuel r n acc w :
  (n <= List.length acc)%nat ->
  ReadAtLeast_loop fuel r n acc None w = (Ret (acc, None, r), w).
Proof.
  intros H. destruct fuel; cbn [ReadAtLeast_loop];
    destruct (Nat.ltb_spec (List.length acc) n); try lia; reflexivity.
Qed.

Lemma conn_Read_whole cap seg w :
  closed (conn w) = false -> pending (conn w) = [seg] ->
  seg <> [] -> (List.length seg <= cap)%nat ->
  conn_Read cap w
    = (Ret (seg, None),
       set_conn (with_pending [] (conn w)) (emit (EvConnRead cap) w)).
Proof.
  intros Hc Hp Hne Hlen. unfold conn_Read. rewrite Hc, Hp.
  destruct seg as [|b seg]; [congruence|].
  destruct (Nat.eqb_spec cap 0) as [->|_]; [cbn in Hlen; lia|].
  cbn [take_pending]. rewrite firstn_all2, skipn_all2 by assumption.
  reflexivity.
Qed.

(** A short read from a fresh reader takes the whole piece off the
    connection and keeps what it does not return in its own buffer. *)
Lemma io_ReadFull_one_piece n seg w :
  closed (conn w) = false -> pending (conn w) = [seg] ->
  (0 < n)%nat -> (n <= List.length seg)%nat ->
  (List.length seg <= defaultBufSize)%nat -> (n < defaultBufSize)%nat ->
  io_ReadFull NewReader n w
    = (Ret (firstn n seg, None, {| buffered := skipn n seg; rerr := None |}),
       set_conn (with_pending [] (conn w)) (emit (EvConnRead defaultBufSize) w)).
Proof.
  intros Hc Hp Hn Hle Hseg Hsmall. unfold io_ReadFull, get, bind at 1.
  cbn [ReadAtLeast_loop List.length].
  destruct (Nat.ltb_spec 0 n); [|lia]. rewrite Nat.sub_0_r.
  unfold bufio_Read at 1.
  destruct (Nat.eqb_spec n 0); [lia|]. cbn [NewReader buffered rerr].
  destruct (Nat.leb_spec defaultBufSize n); [lia|].
  assert (Hne : seg <> []) by (destruct seg; [cbn in Hle; lia | discriminate]).
  rewrite !bind_assoc.
  rewrite (bind_Ret _ _ _ _ _ (conn_Read_whole defaultBufSize seg w Hc Hp Hne Hseg)).
  destruct seg as [|b seg]; [congruence|]. cbv beta iota.
  unfold bind at 1, ret at 1. cbn [app].
  rewrite (bind_Ret _ _ _ _ _
             (ReadAtLeast_loop_done _ _ n (firstn n (b :: seg)) _
                ltac:(rewrite length_firstn; lia))).
  cbv beta iota. unfold ret. rewrite length_firstn.
  destruct (Nat.leb_spec n (Nat.min n (List.length (b :: seg)))); [|lia].
  reflexivity.
Qed.

(** A read the reader's buffer can serve does not touch the
    connection. *)
Lemma io_ReadFull_buffered n r w :
  rerr r = None -> (n <= List.length (buffered r))%nat ->
  io_ReadFull r n w
    = (Ret (firstn n (buffered r), None,
            if (n =? 0)%nat then r
            else {| buffered := skipn n (buffered r); rerr := None |}), w).
Proof.
  intros Hr Hn. unfold io_ReadFull, get, bind at 1.
  cbn [ReadAtLeast_loop List.length].
  destruct (Nat.ltb_spec 0 n) as [Hpos|Hz].
  - rewrite Nat.sub_0_r. unfold bufio_Read.
    destruct (Nat.eqb_spec n 0); [lia|].
    destruct (buffered r) as [|b buf] eqn:Hb; [cbn in Hn; lia|].
    rewrite bind_assoc. unfold bind at 1, ret at 1. cbn [app]. rewrite Hr.
    rewrite (bind_Ret _ _ _ _ _
               (ReadAtLeast_loop_done _ _ n (firstn n (b :: buf)) _
                  ltac:(rewrite length_firstn; lia))).
    cbv beta iota. unfold ret. rewrite length_firstn.
    destruct (Nat.leb_spec n (Nat.min n (List.length (b :: buf)))); [|lia].
    reflexivity.
  - assert (n = 0)%nat as -> by lia. reflexivity.
Qed.

Lemma netRead_nothing_pending w :
  closed (conn w) = false -> pending (conn w) = [] ->
  exists e w', netRead w = (Ret ([], Some e), w').
Proof.
  intros Hc Hp. unfold netRead.
  destruct (io_ReadFull_spec NewReader 8 w Hc eq_refl)
    as (err & r1 & w1 & Hrun & _ & _ & _ & _ & Herr).
  unfold stream in Hrun, Herr. rewrite Hp in Hrun, Herr.
  cbn [NewReader buffered concat app firstn List.length] in Hrun, Herr.
  rewrite (bind_Ret _ _ _ _ _ Hrun). cbn. do 2 eexists. reflexivity.
Qed.

Lemma length_frame data : List.length (frame data) = (8 + List.length data)%nat.
Proof. unfold frame. now rewrite length_app. Qed.

Lemma len_small_ok {A} (s : list A) :
  (List.length s <= defaultBufSize)%nat -> slice_ok s.
Proof.
  unfold slice_ok, len, maxAlloc, defaultBufSize. intros H.
  apply Z.le_trans with 4096; [lia | discriminate].
Qed.

Lemma Uint64_len (data : list byte) :
  slice_ok data -> Uint64 (PutUint64 (len data)) = len data.
Proof.
  intros H. apply Uint64_PutUint64. unfold slice_ok, maxAlloc, len in *.
  split; [lia|]. apply Z.le_lt_trans with (2 ^ 48); [assumption | reflexivity].
Qed.

(** One piece that starts with a frame: [netRead] returns the payload
    and drops whatever followed it in the piece. *)
Lemma netRead_one_piece data more w :
  closed (conn w) = false -> pending (conn w) = [frame data ++ more] ->
  (List.length (frame data ++ more) <= defaultBufSize)%nat ->
  exists w', netRead w = (Ret (data, None), w') /\
             closed (conn w') = false /\ pending (conn w') = [].
Proof.
  intros Hc Hp Hlen.
  assert (Hsmall : (8 + List.length data + List.length more <= defaultBufSize)%nat)
    by (rewrite length_app, length_frame in Hlen; lia).
  assert (Hok : slice_ok data) by (apply len_small_ok; lia).
  unfold netRead.
  rewrite (bind_Ret _ _ _ _ _
             (io_ReadFull_one_piece 8 _ w Hc Hp ltac:(lia)
                ltac:(rewrite length_app, length_frame; lia) Hlen
                ltac:(unfold defaultBufSize; lia))).
  cbv beta iota. unfold frame. rewrite <- app_assoc.
  rewrite firstn_app_exact, skipn_app_exact by apply length_PutUint64.
  replace (len (PutUint64 (len data)) =? 8) with true by reflexivity.
  cbn [negb]. rewrite filled_full by apply length_PutUint64.
  rewrite Uint64_len by assumption.
  unfold make_bytes.
  destruct (Z.ltb_spec maxAlloc (len data)); [unfold slice_ok in Hok; lia|].
  unfold bind at 1, ret at 1. rewrite to_nat_len.
  match goal with
  | |- context [bind (io_ReadFull ?r ?n) _ ?w0] =>
      assert (Hbuf : (n <= List.length (buffered r))%nat)
        by (cbn [buffered]; rewrite length_app; lia);
      rewrite (bind_Ret _ _ _ _ _ (io_ReadFull_buffered n r w0 eq_refl Hbuf))
  end.
  cbv beta iota. cbn [buffered].
  rewrite firstn_app_exact, filled_full by reflexivity.
  eexists. split; [reflexivity|]. cbn. auto.
Qed.

(** C9.  [netReadHandshake] and [netRead] each read through a reader
    of their own, which takes up to 4096 bytes off the connection at
    once.  When the handshake and a frame, or two frames, arrive in one
    piece, the first call takes the whole piece and returns its own
    message only; the bytes that followed are gone with its reader, and
    the next [netRead] does not see the frame the client has sent. *)
Theorem fresh_reader_drops_bytes (d1 d2 : list byte) (w : World) :
  closed (conn w) = false ->
  (16 + List.length d1 + List.length d2 <= defaultBufSize)%nat ->
  (pending (conn w) = [FB01 ++ frame d1] ->
   exists w1 e w2,
     netReadHandshake w = (Ret None, w1) /\ pending (conn w1) = [] /\
     netRead w1 = (Ret ([], Some e), w2)) /\
  (pending (conn w) = [frame d1 ++ frame d2] ->
   exists w1 e w2,
     netRead w = (Ret (d1, None), w1) /\ pending (conn w1) = [] /\
     netRead w1 = (Ret ([], Some e), w2)).
Proof.
  intros Hc Hlen. split; intros Hp.
  - assert (Hrun : netReadHandshake w
                   = (Ret None, set_conn (with_pending [] (conn w))
                                  (emit (EvConnRead defaultBufSize) w))).
    { unfold netReadHandshake.
      rewrite (bind_Ret _ _ _ _ _
                 (io_ReadFull_one_piece 4 _ w Hc Hp ltac:(lia)
                    ltac:(rewrite length_app; cbn; lia)
                    ltac:(rewrite length_app, length_frame; cbn [FB01 List.length]; lia)
                    ltac:(unfold defaultBufSize; lia))).
      cbv beta iota. rewrite firstn_app_exact by reflexivity. reflexivity. }
    rewrite Hrun.
    destruct (netRead_nothing_pending
                (set_conn (with_pending [] (conn w))
                   (emit (EvConnRead defaultBufSize) w)))
      as (e & w2 & Hrd); [exact Hc | reflexivity |].
    eauto 6.
  - destruct (netRead_one_piece d1 (frame d2) w Hc Hp) as (w1 & Hrun & Hc1 & Hp1).
    { rewrite length_app, !length_frame. lia. }
    destruct (netRead_nothing_pending w1 Hc1 Hp1) as (e & w2 & Hrd).
    eauto 6.
Qed.


(* ------------------------------------------------------------------ *)
(** *** The accept loop, one connection                                *)

Lemma since_app w w' evs : trace w' = trace w ++ evs -> since w w' = evs.
Proof.
  intros H. unfold since. rewrite H. now apply skipn_app_exact.
Qed.

Lemma since_trans w1 w2 w3 :
  (exists e1, trace w2 = trace w1 ++ e1) ->
  (exists e2, trace w3 = trace w2 ++ e2) ->
  since w1 w3 = since w1 w2 ++ since w2 w3.
Proof.
  intros [e1 H1] [e2 H2].
  rewrite (since_app _ _ _ H1), (since_app _ _ _ H2).
  apply since_app. now rewrite H2, H1, app_assoc.
Qed.

Lemma appends_grows P w w' : appends P w w' -> exists evs, trace w' = trace w ++ evs.
Proof. intros (evs & H & _). eauto. Qed.

(** A session that returns hands over to the next [Accept]. *)
Lemma accept_loop_next serial c rest w w' :
  closed (conn w) = true ->
  session serial (Accept c w) = (Ret tt, w') ->
  accept_loop serial (c :: rest) w = accept_loop serial rest w'.
Proof.
  intros Hc Hs. cbn [accept_loop]. unfold slot_taken. rewrite Hc, Hs.
  reflexivity.
Qed.

(** After a session that left its connection open no client is served
    any more. *)
Lemma accept_loop_stuck serial c rest w :
  closed (conn w) = false -> accept_loop serial (c :: rest) w = (Stuck, w).
Proof.
  intros Hc. cbn [accept_loop]. unfold slot_taken. now rewrite Hc.
Qed.

Lemma netReadHandshake_closed w :
  closed (conn w) = true ->
  exists e w', netReadHandshake w = (Ret (Some e), w') /\ only_reads w w'.
Proof.
  intros Hc. unfold netReadHandshake, io_ReadFull, get.
  rewrite !bind_assoc. unfold bind at 1.
  cbn [ReadAtLeast_loop List.length Nat.ltb Nat.leb].
  rewrite !bind_assoc. unfold bufio_Read.
  cbn [Nat.sub Nat.eqb NewReader buffered rerr].
  replace (defaultBufSize <=? 4)%nat with false by reflexivity.
  rewrite !bind_assoc. unfold bind at 1, conn_Read at 1. rewrite Hc.
  cbv beta iota. unfold bind at 1, ret at 1.
  destruct (available NewReader w); cbn; do 2 eexists;
    (split; [reflexivity|]); unfold only_reads; cbn;
    repeat split; trivial; now exists [defaultBufSize].
Qed.

Lemma only_reads_not_usb w w' : only_reads w w' -> appends not_usb w w'.
Proof.
  intros H. apply only_reads_appends in H. revert H.
  apply appends_weaken. intros e [cap ->]. reflexivity.
Qed.

Lemma bad_handshake_fails w :
  firstn 4 (concat (pending (conn w))) <> FB01 ->
  exists e w', netReadHandshake w = (Ret (Some e), w') /\ only_reads w w'.
Proof.
  intros Hp. destruct (closed (conn w)) eqn:Hc.
  - now apply netReadHandshake_closed.
  - now apply netReadHandshake_bad.
Qed.

Lemma bad_handshake_touches_no_usb_aux serial w :
  firstn 4 (concat (pending (conn w))) <> FB01 ->
  exists w',
    session serial w = (Ret tt, w') /\
    closed (conn w') = closed (conn w).
Proof.
  intros Hp. destruct (bad_handshake_fails w Hp) as (e & w1 & Hrun & Hfr).
  unfold session. rewrite (bind_Ret _ _ _ _ _ Hrun).
  eexists. split; [reflexivity|]. cbn. apply Hfr.
Qed.

(** C5.  When the first four bytes of the connection are not "FB01"
    (fewer than four bytes included), the session ends in the
    handshake: the USB bus is as it was, none of its events is a call
    on the USB library, and the accept loop goes on to its next
    [Accept]. *)
Theorem bad_handshake_touches_no_usb serial w :
  firstn 4 (concat (pending (conn w))) <> FB01 ->
  exists w',
    session serial w = (Ret tt, w') /\
    usb w' = usb w /\
    Forall not_usb (since w w') /\
    (forall c w0 rest,
        w = Accept c w0 -> closed (conn w0) = true ->
        accept_loop serial (c :: rest) w0 = accept_loop serial rest w').
Proof.
  intros Hp. destruct (bad_handshake_fails w Hp) as (e & w1 & Hrun & Hfr).
  assert (Hs : session serial w = (Ret tt, emit (EvLog (LogTcp e)) w1)).
  { unfold session. now rewrite (bind_Ret _ _ _ _ _ Hrun). }
  eexists. split; [exact Hs|]. split; [|split].
  - cbn. apply Hfr.
  - apply appends_since. eapply appends_trans.
    + apply only_reads_not_usb, Hfr.
    + apply appends_emit. reflexivity.
  - intros c w0 rest -> Hfree. now apply accept_loop_next.
Qed.

(** On that path the connection is left as it was: not closed. *)
Lemma bad_handshake_never_closes serial w :
  firstn 4 (concat (pending (conn w))) <> FB01 ->
  closed (conn (snd (session serial w))) = closed (conn w) /\
  ~ In EvConnClose (since w (snd (session serial w))).
Proof.
  intros Hp. destruct (bad_handshake_fails w Hp) as (e & w1 & Hrun & Hfr).
  unfold session. rewrite (bind_Ret _ _ _ _ _ Hrun). cbn [snd log tell].
  split; [cbn; apply Hfr|].
  destruct Hfr as (_ & _ & _ & _ & _ & _ & caps & T).
  erewrite since_app by (cbn [emit trace]; rewrite T, <- app_assoc; reflexivity).
  intros Hin. apply in_app_or in Hin. destruct Hin as [Hin | [Hin | []]].
  - apply in_map_iff in Hin. destruct Hin as (c & Hc & _). discriminate.
  - discriminate.
Qed.

(** When the relay loop has ended, the connection is closed and the
    interface released and the handle closed, in this order. *)
Lemma relay_end_closes serial w w1 dev h w2 err w3 w4 :
  netReadHandshake w = (Ret None, w1) ->
  usbDeviceOpen serial w1 = (Ret (dev, None), w2) ->
  handle dev = Some h ->
  netWriteHandshake w2 = (Ret err, w3) ->
  relay_loop (relay_fuel w3) dev (repeat x00 256) w3 = (Ret tt, w4) ->
  exists w',
    session serial w = (Ret tt, w') /\
    since w4 w' = [EvConnClose; EvRelease h 0; EvHandleClose h] /\
    closed (conn w') = true.
Proof.
  intros H1 H2 Hh H3 H4. unfold session.
  rewrite (bind_Ret _ _ _ _ _ H1), (bind_Ret _ _ _ _ _ H2).
  rewrite (bind_Ret _ _ _ _ _ H3). unfold get at 1, bind at 1.
  rewrite (bind_Ret _ _ _ _ _ H4).
  unfold usbDeviceClose. rewrite Hh.
  eexists. split; [reflexivity|]. split; [|reflexivity].
  apply since_app. cbn. rewrite <- !app_assoc. reflexivity.
Qed.

(** C7.  After a good handshake, when [usbDeviceOpen] returns an
    error, the session logs it, sleeps one second and closes the
    connection; it ends without a panic, the accept loop goes on to its
    next [Accept], and nothing has been written to the client.  When
    [usbDeviceOpen] succeeds, nothing has been written before it
    returned, and the acknowledgment is the next thing that happens. *)
Theorem acquisition_failure_is_local serial w w1 :
  netReadHandshake w = (Ret None, w1) ->
  (forall dev e w2,
      usbDeviceOpen serial w1 = (Ret (dev, Some e), w2) ->
      exists w',
        session serial w = (Ret tt, w') /\
        since w2 w' = [EvLog (LogDeviceError e); EvSleep 1000; EvConnClose] /\
        closed (conn w') = true /\
        Forall not_a_write (since w w') /\
        (forall c w0 rest,
            w = Accept c w0 -> closed (conn w0) = true ->
            accept_loop serial (c :: rest) w0 = accept_loop serial rest w')) /\
  (forall dev w2,
      usbDeviceOpen serial w1 = (Ret (dev, None), w2) ->
      Forall not_a_write (since w w2) /\
      exists evs, since w2 (snd (session serial w)) = EvConnWrite FB01 :: evs).
Proof.
  intros H1.
  assert (Hread : appends not_a_write w w1).
  { pose proof (ev_netReadHandshake not_a_write
                  ltac:(intros cap data; discriminate) w) as H.
    now rewrite H1 in H. }
  assert (Hopen : forall r w2, usbDeviceOpen serial w1 = (r, w2) ->
                               appends not_a_write w1 w2).
  { intros r w2 H2. destruct (steps_usbDeviceOpen_locator serial w1) as [_ H].
    rewrite H2 in H. revert H. apply appends_weaken.
    intros ev Hev payload. destruct ev; try contradiction; discriminate. }
  split.
  - intros dev e w2 H2.
    assert (Hs : session serial w
                 = (Ret tt,
                    snd (conn_Close
                           (emit (EvSleep 1000)
                              (emit (EvLog (LogDeviceError e)) w2))))).
    { unfold session, log, Sleep.
      now rewrite (bind_Ret _ _ _ _ _ H1), (bind_Ret _ _ _ _ _ H2). }
    eexists. split; [exact Hs|]. split; [|split; [reflexivity|split]].
    + apply since_app. cbn. rewrite <- !app_assoc. reflexivity.
    + apply appends_since.
      eapply appends_trans; [exact Hread|].
      eapply appends_trans; [exact (Hopen _ _ H2)|].
      exists [EvLog (LogDeviceError e); EvSleep 1000; EvConnClose].
      split; [cbn; rewrite <- !app_assoc; reflexivity|].
      repeat constructor; intros data; discriminate.
    + intros c w0 rest -> Hfree. now apply accept_loop_next.
  - intros dev w2 H2. split.
    + apply appends_since. eapply appends_trans; [exact Hread | exact (Hopen _ _ H2)].
    + unfold session.
      rewrite (bind_Ret _ _ _ _ _ H1), (bind_Ret _ _ _ _ _ H2).
      cbv beta iota. unfold netWriteHandshake. rewrite !bind_assoc.
      match goal with
      | |- context [bind (conn_Write FB01) ?k w2] =>
          pose proof (ev_conn_Write any_event ltac:(intros; exact I) FB01 w2) as Hw;
          assert (Hk : forall a, steps (appends any_event) (k a))
      end.
      { intros [n err]. apply ev_bind.
        - destruct err; [|apply ev_ret].
          apply ev_bind; [apply ev_tell; exact I | intros; apply ev_ret].
        - intros _. apply ev_bind; [apply ev_get|]. intros w0.
          apply ev_bind; [apply ev_relay_loop; intros; exact I|]. intros _.
          apply ev_bind; [apply ev_conn_Close; exact I|]. intros _.
          apply ev_usbDeviceClose. intros; exact I. }
      unfold bind at 1.
      assert (Hfirst : exists evs, trace (snd (conn_Write FB01 w2))
                                   = trace w2 ++ EvConnWrite FB01 :: evs).
      { exists []. unfold conn_Write.
        destruct (closed (conn w2)); [reflexivity|].
        destruct (wscript (conn w2)) as [|[|k0 e0] tl0]; reflexivity. }
      destruct (conn_Write FB01 w2) as [[a | p |] w3] eqn:Ew; cbn [snd] in *;
        destruct Hfirst as [evs Hevs].
      * destruct (Hk a w3) as (evs' & Hevs' & _).
        exists (evs ++ evs'). apply since_app.
        rewrite Hevs', Hevs, <- app_assoc. reflexivity.
      * exists evs. now apply since_app.
      * exists evs. now apply since_app.
Qed.


(* ------------------------------------------------------------------ *)
(** *** The first event of a run                                       *)

Lemma starts_bind e {A B} (m : M A) (k : A -> M B) :
  starts_with e m -> (forall a, steps (appends any_event) (k a)) ->
  starts_with e (bind m k).
Proof.
  intros Hm Hk w. unfold bind. destruct (Hm w) as [evs Hevs].
  destruct (m w) as [[a | p |] w1]; cbn [snd] in *; eauto.
  destruct (Hk a w1) as (evs' & Hevs' & _).
  exists (evs ++ evs'). rewrite Hevs', Hevs, <- app_assoc. reflexivity.
Qed.

Lemma starts_conn_Read cap : starts_with (EvConnRead cap) (conn_Read cap).
Proof.
  intros w. exists []. unfold conn_Read.
  destruct (closed (conn w)); [reflexivity|].
  destruct (cap =? 0)%nat; [reflexivity|].
  destruct (take_pending cap (pending (conn w))) as [[bs rest]|]; reflexivity.
Qed.

Lemma starts_get e {A} (k : World -> M A) :
  (forall w0, starts_with e (k w0)) -> starts_with e (bind get k).
Proof. intros H w. exact (H w w). Qed.

Lemma starts_bufio_Read :
  starts_with (EvConnRead defaultBufSize) (bufio_Read 8 NewReader).
Proof.
  unfold bufio_Read. cbn [Nat.eqb NewReader buffered rerr].
  replace (defaultBufSize <=? 8)%nat with false by reflexivity.
  apply starts_bind; [apply starts_conn_Read|].
  intros [bs e]. destruct bs; apply ev_ret.
Qed.

Lemma starts_io_ReadFull :
  starts_with (EvConnRead defaultBufSize) (io_ReadFull NewReader 8).
Proof.
  unfold io_ReadFull. apply starts_get. intros w0.
  cbn [ReadAtLeast_loop List.length Nat.ltb Nat.leb Nat.sub].
  apply starts_bind.
  - apply starts_bind; [apply starts_bufio_Read|].
    intros [[bs e] r']. apply ev_ReadAtLeast_loop. intros; exact I.
  - intros [[acc err] r']. apply ev_ret.
Qed.

Lemma starts_netRead : starts_with (EvConnRead defaultBufSize) netRead.
Proof.
  unfold netRead. apply starts_bind; [apply starts_io_ReadFull|].
  intros [[acc err] reader].
  destruct (negb (len acc =? 8)); [apply ev_ret|].
  apply ev_bind.
  - unfold make_bytes. destruct (maxAlloc <? _); [apply ev_throw | apply ev_ret].
  - intros cap. apply ev_bind; [apply ev_io_ReadFull; intros; exact I|].
    intros [[acc1 err1] r3]. destruct err1; apply ev_ret.
Qed.

Lemma starts_relay_loop fuel dev response :
  starts_with (EvConnRead defaultBufSize) (relay_loop (S fuel) dev response).
Proof.
  cbn [relay_loop]. apply starts_bind; [apply starts_netRead|].
  intros [data err].
  destruct err; [apply ev_tell; exact I|].
  apply ev_bind; [apply ev_usbWrite; intros; exact I|]. intros err.
  destruct err; [apply ev_tell; exact I|].
  apply ev_bind; [apply ev_usbRead; intros; exact I|].
  intros [[n err] response'].
  destruct err; [apply ev_tell; exact I|].
  apply ev_bind; [apply ev_slice|]. intros reply.
  apply ev_bind; [apply ev_netWrite; intros; exact I|]. intros err.
  destruct err; [apply ev_tell; exact I|].
  apply ev_relay_loop; intros; exact I.
Qed.

(** C10.  When the write of the acknowledgment fails, the session
    goes on from there exactly as after a successful write: it runs the
    relay loop, whose first action is a read on the connection. *)
Theorem failed_ack_still_relays serial w w1 dev w2 e w3 :
  netReadHandshake w = (Ret None, w1) ->
  usbDeviceOpen serial w1 = (Ret (dev, None), w2) ->
  netWriteHandshake w2 = (Ret (Some e), w3) ->
  session serial w
    = (relay_loop (relay_fuel w3) dev (repeat x00 256) ;;;
       conn_Close ;;; usbDeviceClose dev) w3 /\
  exists evs,
    since w3 (snd (session serial w)) = EvConnRead defaultBufSize :: evs.
Proof.
  intros H1 H2 H3.
  assert (Heq : session serial w
                = (relay_loop (relay_fuel w3) dev (repeat x00 256) ;;;
                   conn_Close ;;; usbDeviceClose dev) w3).
  { unfold session.
    rewrite (bind_Ret _ _ _ _ _ H1), (bind_Ret _ _ _ _ _ H2).
    rewrite (bind_Ret _ _ _ _ _ H3). reflexivity. }
  split; [exact Heq|]. rewrite Heq. unfold relay_fuel.
  destruct (starts_bind (EvConnRead defaultBufSize)
              (relay_loop (S (List.length (concat (pending (conn w3)))))
                 dev (repeat x00 256))
              (fun _ => conn_Close ;;; usbDeviceClose dev)
              (starts_relay_loop _ _ _)
              (fun _ => ev_bind any_event _ _
                          (ev_conn_Close any_event I)
                          (fun _ => ev_usbDeviceClose any_event
                                      (fun _ _ => I) dev)) w3)
    as [evs Hevs].
  exists evs. now apply since_app.
Qed.


(* ------------------------------------------------------------------ *)
(** *** The locator, end to end                                        *)

(** C1, amended.  On a bus where every device reports at least one
    interface, [usbDeviceOpen] returns a device exactly when one device
    and no other passes the filter (one interface of class 0xFF, subclass
    0x42, protocol 0x03 with a bulk endpoint in each direction, and the
    serial when one is asked for) and that device can be opened and its
    interface 0 claimed; the device returned is that one.  No match is
    the error "no device found", more than one match the error "multiple
    devices", and a failed open or claim are errors of their own. *)
Theorem usbDeviceOpen_unique_match serial w :
  slice_ok (devices (usb w)) -> Forall has_interface (devices (usb w)) ->
  exists dev err w',
    usbDeviceOpen serial w = (Ret (dev, err), w') /\
    (err = None <->
     exists d, filter (spec_matches serial) (devices (usb w)) = [d] /\
               can_open d = true /\ can_claim d = true) /\
    (err = None ->
     exists d h, filter (spec_matches serial) (devices (usb w)) = [d] /\
                 session_on d dev /\ handle dev = Some h) /\
    (filter (spec_matches serial) (devices (usb w)) = [] ->
     err = Some ErrNoDevice) /\
    ((1 < List.length (filter (spec_matches serial) (devices (usb w))))%nat ->
     err = Some ErrMultipleDevices) /\
    (forall d, filter (spec_matches serial) (devices (usb w)) = [d] ->
               can_open d = false -> err = Some (ErrOpenFailed ErrUsb)) /\
    (forall d, filter (spec_matches serial) (devices (usb w)) = [d] ->
               can_open d = true -> can_claim d = false ->
               err = Some (ErrClaimFailed ErrUsb)).
Proof.
  intros Hok Hds.
  destruct (usbDeviceOpen_cases serial w Hok Hds) as (dev & err & w' & Hrun & Hm).
  exists dev, err, w'. split; [exact Hrun|].
  destruct (filter (spec_matches serial) (devices (usb w))) as [|d [|d2 more]].
  - subst err. repeat split; try discriminate; try (cbn; lia).
    intros (d & Hd & _). discriminate.
  - destruct Hm as (Hsess & Herr & Hh).
    split; [|split; [|split; [|split; [|split]]]].
    + split.
      * intros E. exists d. split; [reflexivity|]. subst err.
        destruct (can_open d); [|discriminate].
        destruct (can_claim d); [auto | discriminate].
      * intros (d' & [= <-] & Ho & Hc). now rewrite Herr, Ho, Hc.
    + intros E. destruct (Hh E) as [h Hh']. eauto.
    + discriminate.
    + cbn. lia.
    + intros d' [= <-] Ho. now rewrite Herr, Ho.
    + intros d' [= <-] Ho Hc. now rewrite Herr, Ho, Hc.
  - subst err. repeat split; try discriminate.
    intros (d' & Hd & _). discriminate.
Qed.

(** C1 as stated fails: exactly one attached device passes the filter,
    it cannot be opened, and the locator returns no device. *)
Lemma unique_match_not_enough :
  List.length (filter (spec_matches EmptyString) (devices (usb w_unopenable)))
    = 1%nat /\
  ~ exists dev w', usbDeviceOpen EmptyString w_unopenable = (Ret (dev, None), w').
Proof.
  split; [reflexivity|]. intros (dev & w' & H).
  vm_compute in H. discriminate H.
Qed.

(** With a maximum packet size of zero the chunk count cannot be
    computed: the division panics. *)
Lemma usbWrite_zero_packet_size dev data ep w :
  endpointOut dev = Some ep -> MaxPacketSize ep = 0 ->
  usbWrite dev data w = (Panic DivideByZero, w).
Proof.
  intros Hep Hz. unfold usbWrite, int_div. rewrite Hep, Hz. reflexivity.
Qed.

(** A device counting more than one interface is passed over. *)
Lemma scan_device_many_interfaces serial d c st w :
  active_config d = Some c -> 1 < NumInterfaces c ->
  scan_device serial d st w = (Ret st, w).
Proof.
  intros Hc Hn. unfold scan_device. destruct st as [dev n]. rewrite Hc.
  rewrite Z.gtb_ltb. destruct (Z.ltb_spec 1 (NumInterfaces c)); [reflexivity | lia].
Qed.

(** C6.  A device whose configuration counts no interface is not
    passed over: indexing its empty interface list stops the scan, and
    with it the program, with a run-time panic. *)
Example zero_interfaces_panics :
  fst (usbDeviceOpen EmptyString w_bare) = Panic IndexOutOfRange /\
  fst (session EmptyString
         (world (accepted [FB01] []) [bare_device; fastboot_device true] []))
    = Panic IndexOutOfRange.
Proof. split; vm_compute; reflexivity. Qed.

(** C4.  A session that ends in the handshake returns to the accept
    loop with the accepted connection still open: it is never closed,
    and the listener, limited to one connection, hands out no other. *)
Example bad_handshake_leaves_connection_open :
  fst (session EmptyString w_bad_handshake) = Ret tt /\
  closed (conn (snd (session EmptyString w_bad_handshake))) = false /\
  trace (snd (session EmptyString w_bad_handshake))
    = [EvConnRead defaultBufSize;
       EvLog (LogTcp (ErrReadHandshake None))] /\
  fst (accept_loop EmptyString
         [accepted [[x46; x42; x30; x32]] []; accepted [FB01] []] w_idle)
    = Stuck.
Proof. repeat split; vm_compute; reflexivity. Qed.

(** One request relayed end to end: the client gets the handshake and
    the device's five bytes in one frame, and the session ends with the
    connection closed, the interface released and the handle closed. *)
Example exchange_end_to_end :
  fst (session EmptyString w_exchange) = Ret tt /\
  sent (conn (snd (session EmptyString w_exchange)))
    = FB01 ++ frame [x4f; x4b; x41; x59; x21] /\
  closed (conn (snd (session EmptyString w_exchange))) = true /\
  skipn 12 (trace (snd (session EmptyString w_exchange)))
    = [EvConnRead defaultBufSize; EvLog (LogTcp (ErrReadHeader (Some EOF)));
       EvConnClose; EvRelease 0%nat 0; EvHandleClose 0%nat].
Proof. repeat split; vm_compute; reflexivity. Qed.


(* ------------------------------------------------------------------ *)
(** *** The fuel of the relay loop is enough                           *)

Lemma quiet_ret {A} (a : A) : quiet (ret a).
Proof. intros w. cbn. repeat split. discriminate. Qed.

Lemma quiet_throw {A} p : quiet (@throw A p).
Proof. intros w. cbn. repeat split. discriminate. Qed.

Lemma quiet_bind {A B} (m : M A) (k : A -> M B) :
  quiet m -> (forall a, quiet (k a)) -> quiet (bind m k).
Proof.
  intros Hm Hk w. unfold bind. destruct (Hm w) as (Hd & Hp & Hc).
  destruct (m w) as [[a | p |] w1]; cbn [fst snd] in *.
  - destruct (Hk a w1) as (Hd' & Hp' & Hc'). repeat split; congruence.
  - repeat split; [discriminate | assumption | assumption].
  - congruence.
Qed.

Lemma quiet_tell e : quiet (tell e).
Proof. intros w. cbn. repeat split. discriminate. Qed.

Lemma quiet_pop_xscript : quiet pop_xscript.
Proof.
  intros w. unfold pop_xscript. destruct (xscript (usb w)); cbn;
    repeat split; discriminate.
Qed.

Lemma quiet_conn_Write data : quiet (conn_Write data).
Proof.
  intros w. unfold conn_Write. destruct (closed (conn w)) eqn:Hc.
  - cbn. repeat split; [discriminate | assumption].
  - destruct (wscript (conn w)) as [|[|n e] tl]; cbn;
      repeat split; discriminate || assumption || auto.
Qed.

Ltac quiet_tac :=
  repeat first
    [ apply quiet_ret | apply quiet_throw | apply quiet_tell
    | apply quiet_pop_xscript | apply quiet_conn_Write
    | apply quiet_bind; [ | intros ]
    | match goal with
      | |- quiet (match ?x with _ => _ end) => destruct x
      | |- quiet (let '(_, _) := ?x in _) => destruct x
      end ].

Lemma quiet_slice {A} (s : list A) lo hi : quiet (slice s lo hi).
Proof. unfold slice. quiet_tac. Qed.

Lemma quiet_BulkTransfer h a data l t : quiet (BulkTransfer h a data l t).
Proof. unfold BulkTransfer. quiet_tac. Qed.

Lemma quiet_usbWrite_loop h ep data : forall todo offset,
  quiet (usbWrite_loop todo h ep data offset).
Proof.
  induction todo as [|todo IH]; intros offset; cbn [usbWrite_loop];
    [apply quiet_ret|].
  apply quiet_bind; [apply quiet_slice|]. intros chunk.
  apply quiet_bind; [apply quiet_BulkTransfer|]. intros [[n err] data'].
  destruct err; [apply quiet_ret | apply IH].
Qed.

Lemma quiet_usbWrite dev data : quiet (usbWrite dev data).
Proof.
  unfold usbWrite, int_div, log.
  destruct (endpointOut dev) as [ep|]; [|apply quiet_throw].
  apply quiet_bind; [quiet_tac|]. intros count.
  apply quiet_bind; [quiet_tac|]. intros _.
  destruct (handle dev); [apply quiet_usbWrite_loop | quiet_tac].
Qed.

Lemma quiet_usbRead dev data : quiet (usbRead dev data).
Proof.
  unfold usbRead. destruct (handle dev); [|apply quiet_throw].
  destruct (endpointIn dev); [|apply quiet_throw].
  apply quiet_bind; [apply quiet_BulkTransfer|]. intros [[n err] data'].
  quiet_tac.
Qed.

Lemma quiet_netWrite data : quiet (netWrite data).
Proof. unfold netWrite. quiet_tac. Qed.

Lemma quiet_netWriteHandshake : quiet netWriteHandshake.
Proof. unfold netWriteHandshake, log. quiet_tac. Qed.

(** A frame that [netRead] returns has cost the connection at least
    its header; and [netRead] has fuel enough. *)
Lemma netRead_progress w :
  closed (conn w) = false ->
  exists r w',
    netRead w = (r, w') /\
    r <> Diverge /\
    closed (conn w') = false /\
    (forall data, r = Ret (data, None) ->
       (List.length (concat (pending (conn w'))) + 8
        <= List.length (concat (pending (conn w))))%nat).
Proof.
  intros Hc. unfold netRead.
  destruct (io_ReadFull_spec NewReader 8 w Hc eq_refl)
    as (err & r1 & w1 & Hrun & Hfr & Hr1 & Hst & _ & _).
  assert (Hc1 : closed (conn w1) = false)
    by (destruct Hfr as (_ & _ & _ & _ & _ & -> & _); exact Hc).
  rewrite (bind_Ret _ _ _ _ _ Hrun). cbv beta iota.
  unfold stream in Hst. cbn [NewReader buffered app] in Hst.
  set (acc := firstn 8 (stream NewReader w)) in *.
  destruct (len acc =? 8) eqn:Hlen; cbn [negb].
  2: { do 2 eexists. split; [reflexivity|]. split; [discriminate|].
       split; [assumption|]. intros data0 Hret. discriminate Hret. }
  assert (Hlong : (8 <= List.length (concat (pending (conn w))))%nat).
  { apply Z.eqb_eq in Hlen. unfold len, acc, stream in Hlen.
    cbn [NewReader buffered app] in Hlen. rewrite length_firstn in Hlen. lia. }
  unfold make_bytes.
  destruct (maxAlloc <? Uint64 (filled 8 acc)).
  { do 2 eexists. split; [reflexivity|]. split; [discriminate|].
    split; [assumption|]. intros data0 Hret. discriminate Hret. }
  unfold bind at 1, ret at 1.
  destruct (io_ReadFull_spec r1 (Z.to_nat (Uint64 (filled 8 acc))) w1 Hc1 Hr1)
    as (err2 & r2 & w2 & Hrun2 & Hfr2 & _ & Hst2 & _ & _).
  assert (Hc2 : closed (conn w2) = false)
    by (destruct Hfr2 as (_ & _ & _ & _ & _ & -> & _); exact Hc1).
  rewrite (bind_Ret _ _ _ _ _ Hrun2). cbv beta iota.
  assert (Hshort : (List.length (concat (pending (conn w2))) + 8
                    <= List.length (concat (pending (conn w))))%nat).
  { assert (H2 : (List.length (stream r2 w2) <= List.length (stream r1 w1))%nat)
      by (rewrite Hst2, length_skipn; lia).
    assert (H1 : (List.length (stream r1 w1) + 8
                  = List.length (concat (pending (conn w))))%nat)
      by (unfold stream at 1; rewrite Hst, length_skipn; lia).
    unfold stream at 1 in H2. rewrite length_app in H2. lia. }
  destruct err2; do 2 eexists; (split; [reflexivity|]);
    (split; [discriminate|]); (split; [exact Hc2|]);
    intros data0 Hret; [discriminate Hret | exact Hshort].
Qed.

Lemma relay_loop_enough_fuel fuel : forall dev response w,
  closed (conn w) = false ->
  (List.length (concat (pending (conn w))) < fuel)%nat ->
  fst (relay_loop fuel dev response w) <> Diverge.
Proof.
  induction fuel as [|fuel IH]; intros dev response w Hc Hfuel; [lia|].
  cbn [relay_loop]. unfold bind at 1.
  destruct (netRead_progress w Hc) as (r & w1 & -> & Hd & Hc1 & Hcost).
  destruct r as [[data err] | p |]; try discriminate; try congruence.
  destruct err as [e|]; [discriminate|].
  specialize (Hcost data eq_refl).
  unfold bind at 1. destruct (quiet_usbWrite dev data w1) as (Hd2 & Hp2 & Hc2).
  destruct (usbWrite dev data w1) as [[err | p |] w2]; cbn [fst snd] in *;
    try discriminate; try congruence.
  destruct err; [discriminate|].
  unfold bind at 1. destruct (quiet_usbRead dev response w2) as (Hd3 & Hp3 & Hc3).
  destruct (usbRead dev response w2) as [[[[n err] response'] | p |] w3];
    cbn [fst snd] in *; try discriminate; try congruence.
  destruct err; [discriminate|].
  unfold bind at 1. destruct (quiet_slice response' 0 n w3) as (Hd4 & Hp4 & Hc4).
  destruct (slice response' 0 n w3) as [[reply | p |] w4]; cbn [fst snd] in *;
    try discriminate; try congruence.
  unfold bind at 1. destruct (quiet_netWrite reply w4) as (Hd5 & Hp5 & Hc5).
  destruct (netWrite reply w4) as [[err | p |] w5]; cbn [fst snd] in *;
    try discriminate; try congruence.
  destruct err; [discriminate|].
  apply IH; [congruence|].
  rewrite Hp5, Hp4, Hp3, Hp2. lia.
Qed.

Lemma quiet_index {A} (s : list A) i : quiet (index s i).
Proof. unfold index. quiet_tac. Qed.

Lemma quiet_Open d : quiet (Open d).
Proof.
  intros w. unfold Open. destruct (can_open d); cbn; repeat split; discriminate.
Qed.

Lemma quiet_defer_Close h : quiet (defer_Close h).
Proof. intros w. cbn. repeat split. discriminate. Qed.

Lemma quiet_scan_device serial d st : quiet (scan_device serial d st).
Proof.
  unfold scan_device, showDeviceInfo, log. destruct st as [dev c].
  repeat first [ apply quiet_index | apply quiet_Open | apply quiet_defer_Close
               | progress quiet_tac ].
Qed.

Lemma quiet_scan_devices serial ds : forall st, quiet (scan_devices serial ds st).
Proof.
  induction ds as [|d ds IH]; intros st; cbn [scan_devices].
  - apply quiet_ret.
  - apply quiet_bind; [apply quiet_scan_device | exact IH].
Qed.

Lemma close_all_conn hs : forall w, conn (close_all hs w) = conn w.
Proof.
  induction hs as [|h hs IH]; intros w; cbn [close_all]; [reflexivity|].
  now rewrite IH.
Qed.

Lemma quiet_with_defers {A} (body : M A) : quiet body -> quiet (with_defers body).
Proof.
  intros Hb w. unfold with_defers. destruct (Hb (set_deferred [] w)) as (Hd & Hp & Hc).
  destruct (body (set_deferred [] w)) as [r w1]. cbn [fst snd] in *.
  cbn [set_deferred conn]. rewrite close_all_conn. auto.
Qed.

Lemma quiet_usbDeviceOpen serial : quiet (usbDeviceOpen serial).
Proof.
  unfold usbDeviceOpen. apply quiet_with_defers.
  apply quiet_bind.
  { intros w. cbn. repeat split. discriminate. }
  intros ds. apply quiet_bind; [apply quiet_scan_devices|].
  intros [dev count]. unfold ClaimInterface, handle_Close.
  repeat first [ apply quiet_Open | progress quiet_tac ].
Qed.

(** A session on a freshly accepted connection never runs out of
    fuel: the outcomes of the model are those of the program. *)
Lemma session_enough_fuel serial w :
  closed (conn w) = false -> fst (session serial w) <> Diverge.
Proof.
  intros Hc. unfold session. unfold bind at 1.
  destruct (list_eq_dec Byte.byte_eq_dec
              (firstn 4 (concat (pending (conn w)))) FB01) as [Hok|Hbad].
  2: { destruct (netReadHandshake_bad w Hc Hbad) as (e & w1 & -> & _).
       discriminate. }
  destruct (netReadHandshake_ok w Hc Hok) as (w1 & -> & Hfr).
  assert (Hc1 : closed (conn w1) = false)
    by (destruct Hfr as (_ & _ & _ & _ & _ & -> & _); exact Hc).
  unfold bind at 1.
  destruct (quiet_usbDeviceOpen serial w1) as (Hd2 & Hp2 & Hc2).
  destruct (usbDeviceOpen serial w1) as [[[dev err] | p |] w2];
    cbn [fst snd] in *; try discriminate; try congruence.
  destruct err; [discriminate|].
  unfold bind at 1.
  destruct (quiet_netWriteHandshake w2) as (Hd3 & Hp3 & Hc3).
  destruct (netWriteHandshake w2) as [[a | p |] w3]; cbn [fst snd] in *;
    try discriminate; try congruence.
  unfold get at 1, bind at 1. unfold bind at 1.
  pose proof (relay_loop_enough_fuel (relay_fuel w3) dev (repeat x00 256) w3)
    as Hrelay.
  destruct (relay_loop (relay_fuel w3) dev (repeat x00 256) w3)
    as [[[] | p |] w4]; cbn [fst] in *; try discriminate.
  - unfold bind, conn_Close, usbDeviceClose, ReleaseInterface, handle_Close,
      tell, throw.
    destruct (handle dev); cbn; discriminate.
  - exfalso. apply Hrelay; [congruence | unfold relay_fuel; lia | reflexivity].
Qed.


(* ------------------------------------------------------------------ *)
(** *** The accept loop                                                *)

(** After a bad handshake the loop is back in [Accept], with the slot
    of the listener still taken: the next client waits for ever. *)
Lemma bad_handshake_blocks_listener serial c c' rest w :
  closed (conn w) = true -> closed c = false ->
  firstn 4 (concat (pending c)) <> FB01 ->
  fst (accept_loop serial (c :: c' :: rest) w) = Stuck.
Proof.
  intros Hfree Hopen Hbad.
  assert (Hbad' : firstn 4 (concat (pending (conn (Accept c w)))) <> FB01)
    by exact Hbad.
  destruct (bad_handshake_touches_no_usb_aux serial (Accept c w) Hbad')
    as (w' & Hrun & Hclosed).
  rewrite (accept_loop_next serial c (c' :: rest) w w' Hfree Hrun).
  rewrite accept_loop_stuck; [reflexivity|].
  rewrite Hclosed. exact Hopen.
Qed.


(* ------------------------------------------------------------------ *)
(** *** Messages that arrive in pieces of their own                    *)

Lemma take_pending_pieces cap segs rest :
  (0 < cap)%nat -> concat segs <> [] ->
  exists bs segs',
    take_pending cap (segs ++ rest) = Some (bs, segs' ++ rest) /\
    bs <> [] /\ (List.length bs <= cap)%nat /\
    bs ++ concat segs' = concat segs.
Proof.
  intros Hcap. induction segs as [|seg segs IH]; cbn [concat app]; [congruence|].
  destruct seg as [|b seg]; [cbn [app take_pending]; exact IH|].
  intros _. cbn [take_pending]. exists (firstn cap (b :: seg)).
  assert (Hne : firstn cap (b :: seg) <> [])
    by (destruct cap; [lia | cbn; discriminate]).
  destruct (skipn cap (b :: seg)) as [|b' more] eqn:E.
  - exists segs. split; [reflexivity|]. split; [assumption|].
    split; [apply firstn_le_length|].
    rewrite <- (firstn_skipn cap (b :: seg)) at 2. now rewrite E, app_nil_r.
  - exists ((b' :: more) :: segs). split; [reflexivity|]. split; [assumption|].
    split; [apply firstn_le_length|].
    cbn [concat]. rewrite <- E, app_assoc, firstn_skipn. reflexivity.
Qed.

Lemma conn_Read_pieces cap segs rest w :
  closed (conn w) = false -> (0 < cap)%nat ->
  pending (conn w) = segs ++ rest -> concat segs <> [] ->
  exists bs segs' w',
    conn_Read cap w = (Ret (bs, None), w') /\ only_reads w w' /\
    bs <> [] /\ (List.length bs <= cap)%nat /\
    bs ++ concat segs' = concat segs /\ pending (conn w') = segs' ++ rest.
Proof.
  intros Hc Hcap Hp Hne. unfold conn_Read. rewrite Hc, Hp.
  destruct (Nat.eqb_spec cap 0) as [->|_]; [lia|].
  destruct (take_pending_pieces cap segs rest Hcap Hne)
    as (bs & segs' & -> & Hbs & Hlen & Hcat).
  exists bs, segs'. eexists. split; [reflexivity|].
  split; [|cbn; auto].
  unfold only_reads. cbn. repeat split; trivial. now exists [cap].
Qed.

(** A read through the reader, while the message being read has bytes
    left: they come from the buffer or from the pieces of this message,
    never from what follows. *)
Lemma bufio_Read_pieces n r segs rest w :
  closed (conn w) = false -> rerr r = None -> (0 < n)%nat ->
  pending (conn w) = segs ++ rest -> buffered r ++ concat segs <> [] ->
  exists bs r' segs' w',
    bufio_Read n r w = (Ret (bs, None, r'), w') /\ only_reads w w' /\
    rerr r' = None /\ bs <> [] /\ (List.length bs <= n)%nat /\
    bs ++ buffered r' ++ concat segs' = buffered r ++ concat segs /\
    pending (conn w') = segs' ++ rest.
Proof.
  intros Hc Hr Hn Hp Hne. unfold bufio_Read.
  destruct (Nat.eqb_spec n 0) as [->|_]; [lia|].
  destruct (buffered r) as [|b buf] eqn:Eb.
  - rewrite Hr. cbn [app] in Hne |- *.
    destruct (defaultBufSize <=? n)%nat eqn:Ebig.
    + destruct (conn_Read_pieces n segs rest w Hc Hn Hp Hne)
        as (bs & segs' & w' & Hrun & Hfr & Hbs & Hlen & Hcat & Hp').
      rewrite (bind_Ret _ _ _ _ _ Hrun). cbv beta iota.
      exists bs. eexists. exists segs', w'. split; [reflexivity|].
      cbn [buffered rerr app]. auto 10.
    + assert (Hd : (0 < defaultBufSize)%nat) by (unfold defaultBufSize; lia).
      destruct (conn_Read_pieces defaultBufSize segs rest w Hc Hd Hp Hne)
        as (bs & segs' & w' & Hrun & Hfr & Hbs & Hlen & Hcat & Hp').
      rewrite (bind_Ret _ _ _ _ _ Hrun). cbv beta iota.
      destruct bs as [|b bs]; [congruence|].
      do 2 eexists. exists segs', w'. split; [reflexivity|].
      cbn [buffered rerr]. split; [assumption|]. split; [reflexivity|].
      split; [destruct n; [lia | cbn; discriminate]|].
      split; [apply firstn_le_length|]. split; [|assumption].
      rewrite app_assoc, firstn_skipn. exact Hcat.
  - exists (firstn n (b :: buf)). eexists. exists segs, w.
    split; [reflexivity|]. cbn [buffered rerr].
    split; [apply only_reads_refl|]. split; [assumption|].
    split; [destruct n; [lia | cbn; discriminate]|].
    split; [apply firstn_le_length|]. split; [|assumption].
    rewrite app_assoc, firstn_skipn. reflexivity.
Qed.

Lemma ReadAtLeast_loop_pieces rest fuel : forall r n acc segs w,
  closed (conn w) = false -> rerr r = None ->
  pending (conn w) = segs ++ rest ->
  (n - List.length acc <= List.length (buffered r ++ concat segs))%nat ->
  (List.length (buffered r ++ concat segs) < fuel)%nat ->
  exists r' segs' w',
    ReadAtLeast_loop fuel r n acc None w
      = (Ret (acc ++ firstn (n - List.length acc) (buffered r ++ concat segs),
              None, r'), w') /\
    only_reads w w' /\ rerr r' = None /\
    buffered r' ++ concat segs'
      = skipn (n - List.length acc) (buffered r ++ concat segs) /\
    pending (conn w') = segs' ++ rest.
Proof.
  induction fuel as [|fuel IH]; intros r n acc segs w Hc Hr Hp Hn Hfuel; [lia|].
  cbn [ReadAtLeast_loop].
  destruct (Nat.ltb_spec (List.length acc) n) as [Hlt|Hge].
  - assert (Hpos : (0 < n - List.length acc)%nat) by lia.
    assert (Hne : buffered r ++ concat segs <> [])
      by (destruct (buffered r ++ concat segs); [cbn in Hn; lia | discriminate]).
    destruct (bufio_Read_pieces _ r segs rest w Hc Hr Hpos Hp Hne)
      as (bs & r1 & segs1 & w1 & Hrun & Hfr & Hr1 & Hbs & Hlen & Hcat & Hp1).
    rewrite (bind_Ret _ _ _ _ _ Hrun). cbv beta iota.
    assert (Hc1 : closed (conn w1) = false)
      by (destruct Hfr as (_ & _ & _ & _ & _ & -> & _); exact Hc).
    assert (Hpos' : (0 < List.length bs)%nat)
      by (destruct bs; [congruence | cbn; lia]).
    assert (Hsplit : List.length (buffered r ++ concat segs)
                     = (List.length bs
                        + List.length (buffered r1 ++ concat segs1))%nat)
      by (rewrite <- Hcat; apply length_app).
    destruct (IH r1 n (acc ++ bs) segs1 w1 Hc1 Hr1 Hp1)
      as (r' & segs' & w' & Hloop & Hfr' & Hr' & Hst & Hp');
      [rewrite length_app; lia | lia |].
    exists r', segs', w'. rewrite Hloop, length_app.
    rewrite length_app in Hst.
    split; [|split; [|split; [|split]]].
    + do 2 f_equal. do 2 f_equal. rewrite <- Hcat, <- app_assoc. f_equal.
      rewrite (firstn_app (n - List.length acc) bs), (@firstn_all2 _ _ bs) by lia.
      do 2 f_equal. lia.
    + eapply only_reads_trans; eassumption.
    + assumption.
    + rewrite Hst, <- Hcat, (skipn_app (n - List.length acc) bs),
        (@skipn_all2 _ _ bs) by lia.
      cbn [app]. f_equal. lia.
    + assumption.
  - exists r, segs, w. replace (n - List.length acc)%nat with 0%nat by lia.
    cbn [firstn skipn]. rewrite app_nil_r.
    split; [reflexivity|]. split; [apply only_reads_refl|]. auto.
Qed.

(** [io.ReadFull] for [n] bytes of a message of which that many are
    left: it returns them, and takes nothing of what follows the message
    off the connection. *)
Lemma io_ReadFull_pieces n r segs rest w :
  closed (conn w) = false -> rerr r = None ->
  pending (conn w) = segs ++ rest ->
  (n <= List.length (buffered r ++ concat segs))%nat ->
  exists r' segs' w',
    io_ReadFull r n w
      = (Ret (firstn n (buffered r ++ concat segs), None, r'), w') /\
    only_reads w w' /\ rerr r' = None /\
    buffered r' ++ concat segs' = skipn n (buffered r ++ concat segs) /\
    pending (conn w') = segs' ++ rest.
Proof.
  intros Hc Hr Hp Hn. unfold io_ReadFull, get, bind at 1.
  assert (Hfuel : (List.length (buffered r ++ concat segs)
                   < S (available r w))%nat).
  { unfold available. rewrite Hp, concat_app, !length_app. lia. }
  destruct (ReadAtLeast_loop_pieces rest (S (available r w)) r n [] segs w
              Hc Hr Hp ltac:(cbn [List.length]; lia) Hfuel)
    as (r' & segs' & w' & Hloop & Hfr & Hr' & Hst & Hp').
  cbn [List.length app] in Hloop, Hst. rewrite Nat.sub_0_r in Hloop, Hst.
  rewrite (bind_Ret _ _ _ _ _ Hloop). cbv beta iota.
  exists r', segs', w'. unfold ret. rewrite length_firstn.
  destruct (Nat.leb_spec n (Nat.min n (List.length (buffered r ++ concat segs))));
    [|lia].
  auto.
Qed.


(* ------------------------------------------------------------------ *)
(** *** Encoding undoes decoding                                       *)

Lemma byte_bits_high b n : 8 <= n -> Z.testbit (Z_of_byte b) n = false.
Proof.
  intros Hn. pose proof (Z_of_byte_range b) as Hb.
  destruct (Z.eq_dec (Z_of_byte b) 0) as [->|Hnz]; [apply Z.bits_0|].
  apply Z.bits_above_log2; [lia|].
  assert (Z.log2 (Z_of_byte b) < 8) by (apply Z.log2_lt_pow2; lia). lia.
Qed.

Lemma shifted_byte_bit b s m :
  0 <= s -> 0 <= m ->
  Z.testbit (Z.shiftl (Z_of_byte b) s) m
  = if (s <=? m) && (m <? s + 8) then Z.testbit (Z_of_byte b) (m - s) else false.
Proof.
  intros Hs Hm. rewrite Z.shiftl_spec by lia.
  destruct (Z.leb_spec s m); cbn [andb].
  - destruct (Z.ltb_spec m (s + 8)); [reflexivity | apply byte_bits_high; lia].
  - apply Z.testbit_neg_r. lia.
Qed.

Lemma byte_of_Z_eq z b : z mod 256 = Z_of_byte b -> byte_of_Z z = b.
Proof.
  intros H. rewrite <- (byte_of_Z_of_byte b). unfold byte_of_Z.
  rewrite H, (Z.mod_small (Z_of_byte b)) by apply Z_of_byte_range.
  reflexivity.
Qed.

(** The byte that [PutUint64] takes from position [k] of a decoded
    word is the byte [Uint64] has put there. *)
Ltac lane_tac :=
  apply byte_of_Z_eq; apply Z.bits_inj'; intros n Hn;
  rewrite byte_lane0_bit by lia;
  destruct (Z.ltb_spec n 8) as [Hlow|Hhigh];
  [ rewrite ?Z.shiftr_spec by lia;
    rewrite !Z.lor_spec, !shifted_byte_bit by lia;
    decide_cmp; cbn [andb orb]; rewrite ?orb_false_r; f_equal; lia
  | symmetry; apply byte_bits_high; lia ].

Lemma PutUint64_Uint64 b : List.length b = 8%nat -> PutUint64 (Uint64 b) = b.
Proof.
  intros Hlen.
  do 8 (destruct b as [|? b]; [discriminate|]).
  destruct b; [|discriminate]. clear Hlen.
  unfold PutUint64, Uint64, at_. cbn [nth].
  match goal with
  | |- context [Z.lor (Z_of_byte ?x) _] =>
      rewrite <- (Z.shiftl_0_r (Z_of_byte x))
  end.
  repeat (f_equal; [lane_tac|]).
  f_equal. lane_tac.
Qed.

Lemma Uint64_nonneg b : 0 <= Uint64 b.
Proof.
  unfold Uint64, at_.
  repeat (apply Z.lor_nonneg; split);
    try apply Z.shiftl_nonneg; apply Z_of_byte_range.
Qed.

(* ------------------------------------------------------------------ *)
(** *** Streams that end too early                                     *)

(** [io.ReadFull] on a stream shorter than the buffer returns all of
    it, with the error the stream ended with, [unexpected EOF] for an
    end of file after some bytes. *)
Lemma io_ReadFull_short r n w :
  closed (conn w) = false -> rerr r = None ->
  (List.length (stream r w) < n)%nat ->
  exists r' w',
    io_ReadFull r n w
      = (Ret (stream r w,
              Some (short_read_error (stream r w) (fin (conn w))), r'), w') /\
    only_reads w w' /\ stream r' w' = [].
Proof.
  intros Hc Hr Hshort. unfold io_ReadFull, get, bind at 1.
  assert (Hfuel : (List.length (stream r w) < S (available r w))%nat)
    by (unfold available, stream; rewrite length_app; lia).
  destruct (ReadAtLeast_loop_spec (S (available r w)) r n [] w Hc Hr
              (Nat.le_0_l n) Hfuel)
    as (err & r' & w' & Hloop & Hfr & Hr' & Hst & _ & Hko).
  cbn [List.length] in *. rewrite Nat.sub_0_r in *. cbn [app] in Hloop.
  rewrite (bind_Ret _ _ _ _ _ Hloop). cbv beta iota.
  rewrite (Hko Hshort), firstn_all2 by lia.
  rewrite skipn_all2 in Hst by lia.
  exists r', w'. unfold ret.
  destruct (Nat.leb_spec n (List.length (stream r w))); [lia|].
  split; [|split; assumption].
  do 3 f_equal. unfold short_read_error.
  destruct (stream r w); [reflexivity|]. destruct (fin (conn w)); reflexivity.
Qed.

Lemma stream_nil r w : stream r w = [] -> concat (pending (conn w)) = [].
Proof. unfold stream. intros H. now apply app_eq_nil in H. Qed.

Lemma only_reads_fin w w' : only_reads w w' -> fin (conn w') = fin (conn w).
Proof. intros (_ & _ & H & _). exact H. Qed.

Lemma only_reads_closed w w' :
  only_reads w w' -> closed (conn w') = closed (conn w).
Proof. intros (_ & _ & _ & _ & _ & H & _). exact H. Qed.

(* ------------------------------------------------------------------ *)
(** *** What [netRead] makes of a byte stream                          *)

(** [netRead] on an open connection, by the bytes [s] the connection
    will deliver before it ends. *)
Lemma netRead_cases w :
  closed (conn w) = false ->
  exists w', only_reads w w' /\
    let s := concat (pending (conn w)) in
    let size := Uint64 (firstn 8 s) in
    if (List.length s <? 8)%nat then
      netRead w = (Ret ([], Some (ErrReadHeader
                                    (Some (short_read_error s (fin (conn w)))))), w')
      /\ concat (pending (conn w')) = []
    else if maxAlloc <? size then netRead w = (Panic MakesliceLen, w')
    else if (List.length (skipn 8 s) <? Z.to_nat size)%nat then
      netRead w = (Ret ([], Some (ErrReadPacket
                                    (short_read_error (skipn 8 s) (fin (conn w))))), w')
      /\ concat (pending (conn w')) = []
    else netRead w = (Ret (firstn (Z.to_nat size) (skipn 8 s), None), w').
Proof.
  intros Hc. cbv zeta. set (s := concat (pending (conn w))).
  assert (Hs : stream NewReader w = s) by reflexivity.
  unfold netRead.
  destruct (Nat.ltb_spec (List.length s) 8) as [Hshort|Hlong].
  - destruct (io_ReadFull_short NewReader 8 w Hc eq_refl)
      as (r1 & w1 & Hrun & Hfr & Hnil); [rewrite Hs; exact Hshort|].
    rewrite Hs in Hrun. exists w1. split; [assumption|].
    rewrite (bind_Ret _ _ _ _ _ Hrun). cbv beta iota.
    destruct (Z.eqb_spec (len s) 8) as [H8|_]; [unfold len in H8; lia|].
    cbn [negb]. split; [reflexivity|]. eapply stream_nil; eassumption.
  - destruct (io_ReadFull_spec NewReader 8 w Hc eq_refl)
      as (err & r1 & w1 & Hrun & Hfr & Hr1 & Hst & Herr & _).
    rewrite Hs in Hrun, Hst, Herr. rewrite (Herr Hlong) in Hrun.
    rewrite (bind_Ret _ _ _ _ _ Hrun). cbv beta iota.
    assert (H8 : List.length (firstn 8 s) = 8%nat)
      by (rewrite length_firstn; lia).
    destruct (Z.eqb_spec (len (firstn 8 s)) 8) as [_|Hne];
      [|unfold len in Hne; lia].
    cbn [negb]. rewrite filled_full by assumption.
    assert (Hc1 : closed (conn w1) = false)
      by (rewrite (only_reads_closed _ _ Hfr); exact Hc).
    unfold make_bytes.
    destruct (Z.ltb_spec maxAlloc (Uint64 (firstn 8 s))) as [Hbig|Hfits].
    + exists w1. split; [assumption | reflexivity].
    + destruct (Nat.ltb_spec (List.length (skipn 8 s))
                  (Z.to_nat (Uint64 (firstn 8 s)))) as [Hcut|Hall].
      * destruct (io_ReadFull_short r1 (Z.to_nat (Uint64 (firstn 8 s))) w1
                    Hc1 Hr1) as (r2 & w2 & Hrun2 & Hfr2 & Hnil);
          [rewrite Hst; exact Hcut|].
        rewrite Hst, (only_reads_fin _ _ Hfr) in Hrun2.
        exists w2. split; [eapply only_reads_trans; eassumption|].
        cbv iota. unfold bind at 1, ret at 1. cbv beta iota.
        rewrite (bind_Ret _ _ _ _ _ Hrun2). cbv beta iota.
        split; [reflexivity|]. eapply stream_nil; eassumption.
      * destruct (io_ReadFull_spec r1 (Z.to_nat (Uint64 (firstn 8 s))) w1
                    Hc1 Hr1) as (err2 & r2 & w2 & Hrun2 & Hfr2 & _ & _ & Herr2 & _).
        rewrite Hst in Hrun2, Herr2. rewrite (Herr2 Hall) in Hrun2.
        exists w2. split; [eapply only_reads_trans; eassumption|].
        cbv iota. unfold bind at 1, ret at 1. cbv beta iota.
        rewrite (bind_Ret _ _ _ _ _ Hrun2). cbv beta iota.
        rewrite filled_full by (rewrite length_firstn; lia).
        reflexivity.
Qed.

(** X1.  On an open connection [netRead] returns a payload without an
    error exactly when the bytes the connection delivers start with the
    frame of that payload, its 8-byte big-endian length and then its
    bytes, and the payload is one a Go slice can hold. *)
Theorem netRead_returns_exactly_frames (data : list byte) (w : World) :
  closed (conn w) = false ->
  (exists w', netRead w = (Ret (data, None), w')) <->
  slice_ok data /\
  exists rest, concat (pending (conn w)) = frame data ++ rest.
Proof.
  intros Hc. split.
  - intros (w' & Hrun).
    destruct (netRead_cases w Hc) as (w1 & _ & Hcases). cbv zeta in Hcases.
    set (s := concat (pending (conn w))) in *.
    destruct (Nat.ltb_spec (List.length s) 8) as [Hshort|Hlong];
      [destruct Hcases; congruence|].
    destruct (Z.ltb_spec maxAlloc (Uint64 (firstn 8 s))) as [Hbig|Hfits];
      [congruence|].
    destruct (Nat.ltb_spec (List.length (skipn 8 s))
                (Z.to_nat (Uint64 (firstn 8 s)))) as [Hcut|Hall];
      [destruct Hcases; congruence|].
    assert (Hdata : data = firstn (Z.to_nat (Uint64 (firstn 8 s))) (skipn 8 s))
      by congruence.
    clear Hcases.
    pose proof (Uint64_nonneg (firstn 8 s)) as Hnn.
    assert (Hlen : len data = Uint64 (firstn 8 s)).
    { unfold len. rewrite Hdata, length_firstn. lia. }
    split; [unfold slice_ok; lia|].
    exists (skipn (Z.to_nat (Uint64 (firstn 8 s))) (skipn 8 s)).
    unfold frame. rewrite Hlen, PutUint64_Uint64
      by (rewrite length_firstn; lia).
    rewrite Hdata, <- app_assoc, !firstn_skipn. reflexivity.
  - intros (Hok & rest & Hp).
    destruct (netRead_frame data rest w Hok Hc) as (w' & Hrun & _).
    + rewrite wrap_uint64_len by assumption. rewrite Hp. unfold frame.
      now rewrite <- app_assoc.
    + eauto.
Qed.

(** X2.  When the connection ends before a frame is complete, [netRead]
    returns no payload at all: with fewer than 8 bytes it fails with
    "read header failed", with a header and fewer payload bytes than the
    header announces with "read packet failed"; the cause is the error
    the connection ended with, or "unexpected EOF" when it ended in an
    end of file after part of the header or payload.  Whatever had
    arrived is consumed. *)
Theorem netRead_cut_short (w : World) :
  closed (conn w) = false ->
  let s := concat (pending (conn w)) in
  let size := Uint64 (firstn 8 s) in
  ((List.length s < 8)%nat ->
   exists w',
     netRead w
       = (Ret ([], Some (ErrReadHeader
                           (Some (short_read_error s (fin (conn w)))))), w') /\
     only_reads w w' /\ concat (pending (conn w')) = []) /\
  ((8 <= List.length s)%nat -> size <= maxAlloc -> len s < 8 + size ->
   exists w',
     netRead w
       = (Ret ([], Some (ErrReadPacket
                           (short_read_error (skipn 8 s) (fin (conn w))))), w') /\
     only_reads w w' /\ concat (pending (conn w')) = []).
Proof.
  intros Hc s size.
  destruct (netRead_cases w Hc) as (w1 & Hfr & Hcases). cbv zeta in Hcases.
  fold s in Hcases. fold size in Hcases. split.
  - intros Hshort.
    destruct (Nat.ltb_spec (List.length s) 8) as [_|Hlong]; [|lia].
    exists w1. tauto.
  - intros Hlong Hfits Hcut.
    destruct (Nat.ltb_spec (List.length s) 8) as [Hshort|_]; [lia|].
    destruct (Z.ltb_spec maxAlloc size) as [Hbig|_]; [lia|].
    destruct (Nat.ltb_spec (List.length (skipn 8 s)) (Z.to_nat size))
      as [_|Hall].
    + exists w1. tauto.
    + rewrite length_skipn in Hall. unfold len in Hcut. lia.
Qed.

(** X3.  A header that announces more bytes than the Go run time can
    allocate (above 2^48) is not an error of [netRead]: [make] panics,
    and the relay loop, which has no [recover], ends with that panic. *)
Theorem oversized_length_panics (w : World) :
  closed (conn w) = false ->
  (8 <= List.length (concat (pending (conn w))))%nat ->
  maxAlloc < Uint64 (firstn 8 (concat (pending (conn w)))) ->
  (exists w', netRead w = (Panic MakesliceLen, w') /\ only_reads w w') /\
  forall fuel dev response,
    fst (relay_loop (S fuel) dev response w) = Panic MakesliceLen.
Proof.
  intros Hc Hlong Hbig.
  destruct (netRead_cases w Hc) as (w1 & Hfr & Hcases). cbv zeta in Hcases.
  destruct (Nat.ltb_spec (List.length (concat (pending (conn w)))) 8);
    [lia|].
  destruct (Z.ltb_spec maxAlloc (Uint64 (firstn 8 (concat (pending (conn w))))));
    [|lia].
  split; [exists w1; auto|].
  intros fuel dev response. cbn [relay_loop]. unfold bind at 1.
  rewrite Hcases. reflexivity.
Qed.

(* ------------------------------------------------------------------ *)
(** *** What [netWrite] puts on the wire, also when it fails           *)

(** X4.  [netWrite] always returns.  It writes the 8-byte header
    first, and the payload only when the header write reported no
    error; it returns nil only when both writes were complete, and then
    the connection has carried exactly the header and the payload.
    After a failed header write nothing of the payload is sent; after a
    failed payload write the error carries the number of payload bytes
    that went out.  It reads nothing and does not close the connection. *)
Theorem netWrite_outcomes (data : list byte) (w : World) :
  let header := PutUint64 (wrap_uint64 (len data)) in
  exists r w',
    netWrite data w = (Ret r, w') /\
    pending (conn w') = pending (conn w) /\
    closed (conn w') = closed (conn w) /\ usb w' = usb w /\
    match r with
    | None =>
        since w w' = [EvConnWrite header; EvConnWrite data] /\
        sent (conn w') = sent (conn w) ++ header ++ data
    | Some (ErrWriteHeader _) =>
        since w w' = [EvConnWrite header] /\
        exists k, sent (conn w') = sent (conn w) ++ firstn k header
    | Some (ErrWritePacket n _) =>
        since w w' = [EvConnWrite header; EvConnWrite data] /\
        0 <= n <= len data /\
        sent (conn w') = sent (conn w) ++ header ++ firstn (Z.to_nat n) data
    | Some _ => False
    end.
Proof.
  cbv zeta. unfold netWrite, bind, conn_Write.
  assert (Hfirst : forall k, 0 <= len (firstn k data) <= len data /\
            firstn (Z.to_nat (len (firstn k data))) data = firstn k data).
  { intros k. unfold len. rewrite Nat2Z.id, length_firstn. split; [lia|].
    destruct (Nat.le_ge_cases k (List.length data)).
    - now rewrite Nat.min_l.
    - rewrite Nat.min_r, !firstn_all2 by lia. reflexivity. }
  destruct (closed (conn w)) eqn:Hc.
  - do 2 eexists. split; [reflexivity|]. cbn. rewrite Hc.
    repeat split; trivial.
    + apply since_app. reflexivity.
    + exists 0%nat. now rewrite app_nil_r.
  - destruct (wscript (conn w)) as [|[|k e] rest] eqn:Hs;
      cbn [emit set_conn conn closed wscript List.tl trace usb pending sent].
    + rewrite Z.eqb_refl. cbn [negb].
      do 2 eexists. split; [reflexivity|]. cbn. repeat split; trivial.
      * apply since_app. cbn. now rewrite <- app_assoc.
      * now rewrite <- app_assoc.
    + destruct rest as [|[|k e] rest'];
        cbn [emit set_conn conn closed wscript List.tl trace usb pending sent];
        rewrite ?Z.eqb_refl; cbn [negb];
        (do 2 eexists; split; [reflexivity|]; cbn; repeat split; trivial;
         [apply since_app; cbn; now rewrite <- app_assoc | ..]);
        try apply Hfirst; try (now rewrite <- app_assoc).
      rewrite (proj2 (Hfirst k)). now rewrite <- app_assoc.
    + do 2 eexists. split; [reflexivity|]. cbn. repeat split; trivial.
      * apply since_app. reflexivity.
      * exists k. reflexivity.
Qed.


(* ------------------------------------------------------------------ *)
(** *** The handshake and the frames, each in pieces of its own        *)

Lemma netReadHandshake_pieces segs rest w :
  closed (conn w) = false -> pending (conn w) = segs ++ rest ->
  concat segs = FB01 ->
  exists segs' w',
    netReadHandshake w = (Ret None, w') /\ only_reads w w' /\
    concat segs' = [] /\ pending (conn w') = segs' ++ rest.
Proof.
  intros Hc Hp Hcat. unfold netReadHandshake.
  destruct (io_ReadFull_pieces 4 NewReader segs rest w Hc eq_refl Hp)
    as (r' & segs' & w' & Hrun & Hfr & _ & Hleft & Hp').
  { cbn [NewReader buffered app]. rewrite Hcat. cbn. lia. }
  cbn [NewReader buffered app] in Hrun, Hleft. rewrite Hcat in Hrun, Hleft.
  rewrite (bind_Ret _ _ _ _ _ Hrun). cbn in Hleft.
  apply app_eq_nil in Hleft. exists segs', w'.
  split; [reflexivity|]. tauto.
Qed.

Lemma netRead_pieces data segs rest w :
  slice_ok data -> closed (conn w) = false ->
  pending (conn w) = segs ++ rest -> concat segs = frame data ->
  exists segs' w',
    netRead w = (Ret (data, None), w') /\ only_reads w w' /\
    concat segs' = [] /\ pending (conn w') = segs' ++ rest.
Proof.
  intros Hok Hc Hp Hcat. unfold netRead.
  destruct (io_ReadFull_pieces 8 NewReader segs rest w Hc eq_refl Hp)
    as (r1 & segs1 & w1 & Hrun & Hfr & Hr1 & Hleft & Hp1).
  { cbn [NewReader buffered app]. rewrite Hcat, length_frame. lia. }
  cbn [NewReader buffered app] in Hrun, Hleft. rewrite Hcat in Hrun, Hleft.
  unfold frame in Hrun, Hleft.
  rewrite firstn_app_exact in Hrun by apply length_PutUint64.
  rewrite skipn_app_exact in Hleft by apply length_PutUint64.
  rewrite (bind_Ret _ _ _ _ _ Hrun). cbv beta iota.
  replace (len (PutUint64 (len data)) =? 8) with true by reflexivity.
  cbn [negb]. rewrite filled_full by apply length_PutUint64.
  rewrite Uint64_len by assumption.
  unfold make_bytes.
  destruct (Z.ltb_spec maxAlloc (len data)); [unfold slice_ok in Hok; lia|].
  unfold bind at 1, ret at 1. cbv beta iota. rewrite to_nat_len.
  assert (Hc1 : closed (conn w1) = false)
    by (rewrite (only_reads_closed _ _ Hfr); exact Hc).
  destruct (io_ReadFull_pieces (List.length data) r1 segs1 rest w1 Hc1 Hr1 Hp1)
    as (r2 & segs2 & w2 & Hrun2 & Hfr2 & _ & Hleft2 & Hp2).
  { rewrite Hleft. lia. }
  rewrite Hleft in Hrun2, Hleft2.
  rewrite firstn_all in Hrun2. rewrite skipn_all in Hleft2.
  rewrite (bind_Ret _ _ _ _ _ Hrun2). cbv beta iota.
  rewrite filled_full by reflexivity.
  apply app_eq_nil in Hleft2. exists segs2, w2.
  split; [reflexivity|]. split; [eapply only_reads_trans; eassumption|].
  tauto.
Qed.

Lemma in_pieces_nil p : in_pieces [] p -> p = [].
Proof.
  intros (cuts & -> & H). inversion H. reflexivity.
Qed.

Lemma in_pieces_cons m msgs p :
  in_pieces (m :: msgs) p ->
  exists segs p', p = segs ++ p' /\ concat segs = m /\ in_pieces msgs p'.
Proof.
  intros (cuts & -> & H). inversion H as [|segs m' cuts' msgs' Hm Hrest]; subst.
  exists segs, (concat cuts'). cbn [concat].
  split; [reflexivity|]. split; [reflexivity|]. now exists cuts'.
Qed.

(* ------------------------------------------------------------------ *)
(** *** What reaches the device                                        *)

Lemma bytes_out_app a b : bytes_out (a ++ b) = bytes_out a ++ bytes_out b.
Proof.
  induction a as [|e a IH]; [reflexivity|]. cbn [app bytes_out].
  destruct e; try exact IH.
  destruct (Z.testbit endpoint 7); [exact IH|].
  now rewrite IH, app_assoc.
Qed.

Lemma bytes_out_reads caps : bytes_out (map EvConnRead caps) = [].
Proof. induction caps; [reflexivity | exact IHcaps]. Qed.

Lemma bytes_out_chunks h ep chunks :
  Z.testbit (EndpointAddress ep) 7 = false ->
  bytes_out (map (bulk_out h ep) chunks) = concat chunks.
Proof.
  intros Hbit. induction chunks as [|c chunks IH]; [reflexivity|].
  cbn [map bytes_out bulk_out concat]. now rewrite Hbit, IH.
Qed.

Lemma bulk_in_events_app a b :
  filter is_bulk_in_event (a ++ b)
  = filter is_bulk_in_event a ++ filter is_bulk_in_event b.
Proof. apply filter_app. Qed.

Lemma bulk_in_events_reads caps :
  filter is_bulk_in_event (map EvConnRead caps) = [].
Proof. induction caps; [reflexivity | exact IHcaps]. Qed.

Lemma bulk_in_events_chunks h ep chunks :
  Z.testbit (EndpointAddress ep) 7 = false ->
  filter is_bulk_in_event (map (bulk_out h ep) chunks) = [].
Proof.
  intros Hbit. induction chunks as [|c chunks IH]; [reflexivity|].
  cbn [map filter bulk_out is_bulk_in_event]. rewrite Hbit. exact IH.
Qed.

(* ------------------------------------------------------------------ *)
(** *** One transfer, one answer of the device                         *)

Lemma skipn_S_tl {A} k (l : list A) : skipn (S k) l = skipn k (List.tl l).
Proof. destruct l; [now rewrite !skipn_nil | reflexivity]. Qed.

(** The loop of [usbWrite] takes one answer of the device for every
    transfer it issues, and leaves the rest of the world alone. *)
Lemma usbWrite_loop_script h ep data : forall todo offset w r w',
  usbWrite_loop todo h ep data offset w = (r, w') ->
  conn w' = conn w /\
  exists evs, trace w' = trace w ++ evs /\
    xscript (usb w') = skipn (List.length evs) (xscript (usb w)).
Proof.
  induction todo as [|todo IH]; intros offset w r w'; cbn [usbWrite_loop].
  - intros [= <- <-]. split; [reflexivity|]. exists [].
    now rewrite app_nil_r.
  - unfold slice.
    destruct ((0 <=? offset) && _ && _).
    + unfold bind at 1, ret at 1.
      match goal with
      | |- context [BulkTransfer ?a ?b ?c ?d ?e] =>
          destruct (BulkTransfer_total a b c d e w)
            as (n & err & data' & w1 & Hbulk & Htr & Hconn & Hscript)
      end.
      rewrite (bind_Ret _ _ _ _ _ Hbulk). cbv beta iota.
      destruct err as [e|].
      * intros [= <- <-]. split; [assumption|]. eexists. split; [exact Htr|].
        cbn [List.length]. now rewrite skipn_S_tl.
      * intros Hloop. apply IH in Hloop.
        destruct Hloop as (Hconn' & evs & Htr' & Hscript').
        split; [congruence|]. eexists. split.
        -- rewrite Htr', Htr, <- app_assoc. reflexivity.
        -- cbn [app List.length]. rewrite skipn_S_tl, <- Hscript. exact Hscript'.
    + intros [= <- <-]. split; [reflexivity|]. exists [].
      now rewrite app_nil_r.
Qed.

(** [usbWrite] on a device that takes every chunk. *)
Lemma usbWrite_accepted dev data h ep rest w :
  handle dev = Some h -> endpointOut dev = Some ep ->
  Z.testbit (EndpointAddress ep) 7 = false ->
  0 < MaxPacketSize ep <= 65535 -> slice_ok data ->
  xscript (usb w)
    = repeat (XferOk []) (Z.to_nat (ceil_div (len data) (MaxPacketSize ep)))
      ++ rest ->
  exists w' evs,
    usbWrite dev data w = (Ret None, w') /\ conn w' = conn w /\
    trace w' = trace w ++ evs /\ bytes_out evs = data /\
    filter is_bulk_in_event evs = [] /\ xscript (usb w') = rest.
Proof.
  intros Hh Hep Hbit Hmps Hdata Hx.
  pose proof maxAlloc_int as Hmax. pose proof Hdata as Hlen.
  unfold slice_ok in Hlen.
  assert (Hnn : 0 <= len data) by (unfold len; lia).
  set (count := ceil_div (len data) (MaxPacketSize ep)) in *.
  assert (Hcount : 0 <= count).
  { unfold count. rewrite ceil_div_alt by lia. apply Z.div_pos; lia. }
  destruct (usbWrite_loop_spec h ep data Hmps Hdata (Z.to_nat count) 0)
    as (chunks & Hcat & Hclen & _ & Hrun).
  { lia. }
  { rewrite Z.sub_0_r. fold count. lia. }
  cbn [Z.to_nat skipn] in Hcat.
  unfold usbWrite. rewrite Hep, Hh.
  rewrite (wrap_int_small (len data + MaxPacketSize ep))
    by (unfold int_min; lia).
  rewrite (wrap_int_small (len data + MaxPacketSize ep - 1))
    by (unfold int_min; lia).
  assert (Hdiv : 0 <= len data + MaxPacketSize ep - 1 <= int_max) by lia.
  rewrite (bind_Ret _ _ _ _ _
             (int_div_nonneg _ (MaxPacketSize ep) w Hdiv (proj1 Hmps))).
  rewrite <- ceil_div_alt by lia. fold count.
  unfold log, tell, bind at 1.
  set (line := EvLog (LogUsbSend (len data) count (MaxPacketSize ep))).
  destruct (Hrun (emit line w))
    as (err & j & w' & Hloop & Htr & Hconn & Hj & Hacc).
  assert (err = None) as ->.
  { apply Hacc; [exact Hbit|]. exists (repeat [] (Z.to_nat count)).
    split; [apply repeat_length|]. cbn [emit usb]. rewrite Hx.
    rewrite firstn_app_exact by apply repeat_length.
    now rewrite map_repeat. }
  rewrite (Hj eq_refl), firstn_all2 in Htr by lia.
  destruct (usbWrite_loop_script _ _ _ _ _ _ _ _ Hloop)
    as (_ & evs & Htr2 & Hscript).
  rewrite Htr in Htr2. apply app_inv_head in Htr2. subst evs.
  exists w', (line :: map (bulk_out h ep) chunks).
  split; [exact Hloop|]. split; [exact Hconn|]. split; [|split; [|split]].
  - rewrite Htr. cbn [emit trace]. now rewrite <- app_assoc.
  - cbn [bytes_out line]. now rewrite bytes_out_chunks.
  - cbn [filter is_bulk_in_event line]. now apply bulk_in_events_chunks.
  - rewrite Hscript, length_map, Hclen. cbn [emit usb]. rewrite Hx.
    apply skipn_app_exact, repeat_length.
Qed.

(** [usbRead] when the device answers with [resp], which fits. *)
Lemma usbRead_answer dev response resp h ep rest w :
  handle dev = Some h -> endpointIn dev = Some ep ->
  Z.testbit (EndpointAddress ep) 7 = true ->
  xscript (usb w) = XferOk resp :: rest -> len resp <= len response ->
  exists w',
    usbRead dev response w
      = (Ret (len resp, None, resp ++ skipn (List.length resp) response), w') /\
    conn w' = conn w /\
    trace w' = trace w
               ++ [EvBulk h (EndpointAddress ep) response (len response) usbTimeout] /\
    xscript (usb w') = rest.
Proof.
  intros Hh Hep Hbit Hx Hfits. unfold usbRead. rewrite Hh, Hep.
  unfold BulkTransfer, bind, tell, pop_xscript. cbn [emit usb].
  rewrite Hx, Hbit.
  destruct (Z.leb_spec (len resp) (len response)); [|lia].
  eexists. split; [reflexivity|]. cbn. auto.
Qed.

(** [netWrite] to a client that takes every write. *)
Lemma netWrite_accepted data w :
  closed (conn w) = false -> Forall (eq WOk) (wscript (conn w)) ->
  exists w',
    netWrite data w = (Ret None, w') /\
    sent (conn w') = sent (conn w) ++ PutUint64 (wrap_uint64 (len data)) ++ data /\
    pending (conn w') = pending (conn w) /\ closed (conn w') = false /\
    fin (conn w') = fin (conn w) /\
    Forall (eq WOk) (wscript (conn w')) /\ usb w' = usb w /\
    trace w' = trace w ++ [EvConnWrite (PutUint64 (wrap_uint64 (len data)));
                           EvConnWrite data].
Proof.
  intros Hc Hs. unfold netWrite, bind, conn_Write. rewrite Hc.
  destruct (wscript (conn w)) as [|x rest] eqn:E;
    cbn [emit set_conn conn closed wscript List.tl trace usb pending sent fin].
  - rewrite Z.eqb_refl. cbn [negb]. eexists. split; [reflexivity|].
    cbn. rewrite <- !app_assoc. auto 10.
  - inversion Hs as [|? ? <- Hrest]; subst.
    destruct rest as [|y rest'];
      cbn [emit set_conn conn closed wscript List.tl trace usb pending sent fin].
    + rewrite Z.eqb_refl. cbn [negb]. eexists. split; [reflexivity|].
      cbn. rewrite <- !app_assoc. auto 10.
    + inversion Hrest as [|? ? <- Hrest']; subst.
      rewrite Z.eqb_refl. cbn [negb]. eexists. split; [reflexivity|].
      cbn. rewrite <- !app_assoc. auto 10.
Qed.

(* ------------------------------------------------------------------ *)
(** *** The relay loop, exchange by exchange                           *)

Lemma length_frames_ge (msgs : list (list byte)) :
  (List.length msgs <= List.length (concat (map frame msgs)))%nat.
Proof.
  induction msgs as [|m msgs IH]; [apply Nat.le_refl|].
  cbn [map concat List.length]. rewrite length_app, length_frame. lia.
Qed.

Lemma in_pieces_concat msgs p : in_pieces msgs p -> concat p = concat msgs.
Proof.
  intros (cuts & -> & H). induction H as [|segs m cuts msgs Hm _ IH];
    [reflexivity|].
  cbn [concat]. now rewrite concat_app, IH, Hm.
Qed.

Section Relay.
Variables (dev : usbDevice) (h : DeviceHandle) (ei eo : EndpointDescriptor).
Hypothesis Hh : handle dev = Some h.
Hypothesis Hei : endpointIn dev = Some ei.
Hypothesis Heo : endpointOut dev = Some eo.
Hypothesis Hin : Z.testbit (EndpointAddress ei) 7 = true.
Hypothesis Hout : Z.testbit (EndpointAddress eo) 7 = false.
Hypothesis Hmps : 0 < MaxPacketSize eo <= 65535.

Lemma relay_loop_exchanges : forall xs fuel response w pre p later,
  (List.length xs < fuel)%nat -> len response = 256 ->
  Forall (fun x => slice_ok (fst x) /\ len (snd x) <= 256) xs ->
  closed (conn w) = false ->
  pending (conn w) = pre ++ p -> concat pre = [] ->
  in_pieces (map (fun x => frame (fst x)) xs) p ->
  Forall (eq WOk) (wscript (conn w)) ->
  xscript (usb w)
    = concat (map (exchange_script (MaxPacketSize eo)) xs) ++ later ->
  exists w' evs,
    relay_loop fuel dev response w = (Ret tt, w') /\
    trace w'
      = trace w ++ evs
        ++ [EvLog (LogTcp (ErrReadHeader (Some (fin (conn w)))))] /\
    bytes_out evs = concat (map fst xs) /\
    List.length (filter is_bulk_in_event evs) = List.length xs /\
    sent (conn w')
      = sent (conn w) ++ concat (map (fun x => frame (snd x)) xs) /\
    xscript (usb w') = later /\ closed (conn w') = false.
Proof.
  induction xs as [|[req resp] xs IH];
    intros fuel response w pre p later Hfuel Hresp Hxs Hc Hp Hpre Hpieces Hws Hx;
    (destruct fuel as [|fuel]; [cbn in Hfuel; lia|]); cbn [relay_loop].
  - apply in_pieces_nil in Hpieces. subst p. rewrite app_nil_r in Hp.
    destruct (netRead_cases w Hc) as (w1 & Hfr & Hcases). cbv zeta in Hcases.
    rewrite Hp, Hpre in Hcases. cbn [List.length Nat.ltb Nat.leb] in Hcases.
    destruct Hcases as [Hrun _]. cbn [short_read_error] in Hrun.
    rewrite (bind_Ret _ _ _ _ _ Hrun). cbv beta iota. unfold log, tell.
    destruct Hfr as (Hu & _ & _ & _ & Hsent & Hcl & caps & Htr).
    exists (emit (EvLog (LogTcp (ErrReadHeader (Some (fin (conn w)))))) w1),
      (map EvConnRead caps).
    split; [reflexivity|]. cbn [emit trace conn usb map concat List.length].
    rewrite Htr, <- app_assoc, bytes_out_reads, bulk_in_events_reads, Hsent,
      app_nil_r, Hu, Hx, Hcl.
    auto 10.
  - inversion Hxs as [|? ? [Hreq Hrsp] Hxs']; subst. cbn [fst snd] in *.
    cbn [map] in Hpieces. apply in_pieces_cons in Hpieces.
    destruct Hpieces as (segs & p' & -> & Hsegs & Hpieces').
    rewrite app_assoc in Hp.
    destruct (netRead_pieces req (pre ++ segs) p' w Hreq Hc Hp)
      as (pre1 & w1 & Hrun1 & Hfr1 & Hpre1 & Hp1).
    { now rewrite concat_app, Hpre. }
    rewrite (bind_Ret _ _ _ _ _ Hrun1). cbv beta iota.
    destruct Hfr1 as (Hu1 & _ & Hfin1 & Hws1 & Hsent1 & Hcl1 & caps & Htr1).
    cbn [map concat] in Hx. unfold exchange_script at 1 in Hx.
    cbn [fst snd] in Hx. rewrite <- !app_assoc in Hx. rewrite <- Hu1 in Hx.
    destruct (usbWrite_accepted dev req h eo _ w1 Hh Heo Hout Hmps Hreq Hx)
      as (w2 & evs2 & Hrun2 & Hconn2 & Htr2 & Hbytes2 & Hins2 & Hx2).
    rewrite (bind_Ret _ _ _ _ _ Hrun2). cbv beta iota.
    cbn [app] in Hx2.
    destruct (usbRead_answer dev response resp h ei _ w2 Hh Hei Hin Hx2)
      as (w3 & Hrun3 & Hconn3 & Htr3 & Hx3); [lia|].
    rewrite (bind_Ret _ _ _ _ _ Hrun3). cbv beta iota.
    set (response' := resp ++ skipn (List.length resp) response).
    assert (Hlen' : len response' = 256).
    { unfold response', len in *. rewrite length_app, length_skipn. lia. }
    rewrite (bind_Ret _ _ _ _ _
               (slice_in_range response' 0 (len resp) w3
                  ltac:(lia) ltac:(unfold len; lia) ltac:(lia))).
    rewrite Z.sub_0_r, to_nat_len. cbn [Z.to_nat skipn].
    unfold response' at 1. rewrite firstn_app_exact by reflexivity.
    assert (Hc3 : closed (conn w3) = false) by congruence.
    assert (Hws3 : Forall (eq WOk) (wscript (conn w3))) by congruence.
    destruct (netWrite_accepted resp w3 Hc3 Hws3)
      as (w4 & Hrun4 & Hsent4 & Hp4 & Hc4 & Hfin4 & Hws4 & Hu4 & Htr4).
    rewrite (bind_Ret _ _ _ _ _ Hrun4). cbv beta iota.
    assert (Hok : slice_ok resp)
      by (unfold slice_ok, maxAlloc; apply Z.le_trans with 256; [lia | discriminate]).
    rewrite wrap_uint64_len in Hsent4, Htr4 by assumption.
    destruct (IH fuel response' w4 pre1 p' later)
      as (w' & evs & Hloop & Htr & Hbytes & Hins & Hsent & Hxl & Hcl);
      try assumption.
    { cbn [List.length] in Hfuel. lia. }
    { congruence. }
    { congruence. }
    exists w'.
    exists (map EvConnRead caps ++ evs2
            ++ [EvBulk h (EndpointAddress ei) response (len response) usbTimeout]
            ++ [EvConnWrite (PutUint64 (len resp)); EvConnWrite resp] ++ evs).
    split; [exact Hloop|]. split; [|split; [|split; [|split; [|split]]]].
    + rewrite Htr, Htr4, Htr3, Htr2, Htr1, Hfin4, Hconn3, Hconn2, Hfin1.
      now rewrite <- !app_assoc.
    + rewrite !bytes_out_app, bytes_out_reads, Hbytes2, Hbytes.
      cbn [bytes_out map concat fst]. rewrite Hin. reflexivity.
    + rewrite !bulk_in_events_app, bulk_in_events_reads, Hins2, !length_app, Hins.
      cbn [filter is_bulk_in_event]. rewrite Hin. reflexivity.
    + rewrite Hsent, Hsent4, Hconn3, Hconn2, Hsent1.
      cbn [map concat snd]. unfold frame at 2. now rewrite <- !app_assoc.
    + exact Hxl.
    + exact Hcl.
Qed.
End Relay.

(** X5.  The relay loop on an open session, for any sequence of
    exchanges: when the client's request frames arrive in pieces none
    of which spans two frames, the client takes every write, and the
    device takes every chunk and answers each request with a response
    of at most 256 bytes, then the loop returns when the client's stream
    ends, and by then the device has received exactly the bytes of the
    requests, in order, one read was issued per request, and the client
    has been sent exactly the frames of the responses, in order; nothing
    of an earlier, longer response is sent again. *)
Theorem relay_loop_relays dev h ei eo
    (xs : list (list byte * list byte)) (later : list xres)
    (response : list byte) (w : World) :
  handle dev = Some h -> endpointIn dev = Some ei -> endpointOut dev = Some eo ->
  is_bulk_in ei = true -> is_bulk_out eo = true ->
  0 < MaxPacketSize eo <= 65535 ->
  len response = 256 ->
  Forall (fun x => slice_ok (fst x) /\ len (snd x) <= 256) xs ->
  closed (conn w) = false ->
  in_pieces (map (fun x => frame (fst x)) xs) (pending (conn w)) ->
  Forall (eq WOk) (wscript (conn w)) ->
  xscript (usb w)
    = concat (map (exchange_script (MaxPacketSize eo)) xs) ++ later ->
  exists w',
    relay_loop (relay_fuel w) dev response w = (Ret tt, w') /\
    bytes_out (since w w') = concat (map fst xs) /\
    List.length (filter is_bulk_in_event (since w w')) = List.length xs /\
    sent (conn w')
      = sent (conn w) ++ concat (map (fun x => frame (snd x)) xs) /\
    xscript (usb w') = later /\
    last (since w w') EvAccept
      = EvLog (LogTcp (ErrReadHeader (Some (fin (conn w))))).
Proof.
  intros Hh Hei Heo Hin Hout Hmps Hresp Hxs Hc Hpieces Hws Hx.
  apply bulk_in_bit in Hin. apply bulk_out_bit in Hout.
  destruct (relay_loop_exchanges dev h ei eo Hh Hei Heo Hin Hout Hmps
              xs (relay_fuel w) response w [] (pending (conn w)) later)
    as (w' & evs & Hrun & Htr & Hbytes & Hins & Hsent & Hxl & _);
    try assumption; try reflexivity.
  { unfold relay_fuel. rewrite (in_pieces_concat _ _ Hpieces).
    pose proof (length_frames_ge (map fst xs)) as Hge.
    rewrite map_map, length_map in Hge. lia. }
  exists w'. rewrite (since_app _ _ _ Htr).
  split; [exact Hrun|]. split; [|split; [|split; [|split]]].
  - rewrite bytes_out_app. cbn [bytes_out]. now rewrite app_nil_r.
  - rewrite bulk_in_events_app. cbn [filter is_bulk_in_event].
    now rewrite app_nil_r.
  - exact Hsent.
  - exact Hxl.
  - apply last_last.
Qed.


(* ------------------------------------------------------------------ *)
(** *** The endpoint scan keeps the last bulk endpoint                 *)

Lemma last_where_cons {A} (p : A -> bool) a l :
  last_where p (a :: l)
  = match last_where p l with
    | Some b => Some b
    | None => if p a then Some a else None
    end.
Proof.
  unfold last_where. cbn [filter].
  destruct (p a); cbn [rev]; destruct (rev (filter p l)); reflexivity.
Qed.

Lemma last_where_exists {A} (p : A -> bool) l :
  existsb p l = true -> exists a, last_where p l = Some a.
Proof.
  induction l as [|a l IH]; [discriminate|]. cbn [existsb].
  rewrite last_where_cons. intros H.
  destruct (last_where p l) as [b|]; [eauto|].
  destruct (p a); [eauto|]. cbn in H. destruct (IH H). discriminate.
Qed.

Lemma last_where_none {A} (p : A -> bool) l :
  existsb p l = false -> last_where p l = None.
Proof.
  induction l as [|a l IH]; [reflexivity|]. cbn [existsb].
  rewrite last_where_cons. intros H. apply orb_false_iff in H.
  destruct H as [Ha Hl]. now rewrite (IH Hl), Ha.
Qed.

Lemma located_skip p e eps i x0 x :
  p e = false -> located p eps (i + 1) x0 x -> located p (e :: eps) i x0 x.
Proof.
  unfold located. rewrite last_where_cons. intros ->.
  destruct (last_where p eps); [|trivial].
  intros (Hle & Hnth). split; [lia|].
  replace (Z.to_nat (x - i)) with (S (Z.to_nat (x - (i + 1)))) by lia.
  exact Hnth.
Qed.

Lemma located_here p e eps i x0 x :
  p e = true -> located p eps (i + 1) i x -> located p (e :: eps) i x0 x.
Proof.
  unfold located. rewrite last_where_cons. intros ->.
  destruct (last_where p eps).
  - intros (Hle & Hnth). split; [lia|].
    replace (Z.to_nat (x - i)) with (S (Z.to_nat (x - (i + 1)))) by lia.
    exact Hnth.
  - intros ->. split; [lia|]. now rewrite Z.sub_diag.
Qed.

Lemma find_endpoints_located eps : forall i in0 out0,
  located is_bulk_in eps i in0 (fst (find_endpoints i eps in0 out0)) /\
  located is_bulk_out eps i out0 (snd (find_endpoints i eps in0 out0)).
Proof.
  induction eps as [|e eps IH]; intros i in0 out0; cbn [find_endpoints].
  - split; reflexivity.
  - unfold is_bulk_in at 1, is_bulk_out at 1.
    destruct (TransferType e =? BulkTransfer_type) eqn:Hb; cbn [negb].
    + destruct (Z.eqb_spec (Direction e) 1) as [Hd|Hd].
      * destruct (IH (i + 1) i out0) as [Hin Hout]. split.
        -- apply located_here; [|assumption].
           unfold is_bulk_in. now rewrite Hb, Hd.
        -- apply located_skip; [|assumption].
           unfold is_bulk_out. now rewrite Hb, Hd.
      * assert (Hd0 : Direction e = 0) by (destruct (Direction_01 e); tauto).
        destruct (IH (i + 1) in0 i) as [Hin Hout]. split.
        -- apply located_skip; [|assumption].
           unfold is_bulk_in. now rewrite Hb, Hd0.
        -- apply located_here; [|assumption].
           unfold is_bulk_out. now rewrite Hb, Hd0.
    + destruct (IH (i + 1) in0 out0) as [Hin Hout]. split.
      * apply located_skip; [|assumption]. unfold is_bulk_in. now rewrite Hb.
      * apply located_skip; [|assumption]. unfold is_bulk_out. now rewrite Hb.
Qed.

Lemma endpoints_located eps in_ out :
  find_endpoints 0 eps (-1) (-1) = (in_, out) ->
  (existsb is_bulk_in eps = true ->
   0 <= in_ /\ nth_error eps (Z.to_nat in_) = last_where is_bulk_in eps) /\
  (existsb is_bulk_out eps = true ->
   0 <= out /\ nth_error eps (Z.to_nat out) = last_where is_bulk_out eps).
Proof.
  intros E. destruct (find_endpoints_located eps 0 (-1) (-1)) as [Hin Hout].
  rewrite E in Hin, Hout. cbn [fst snd] in Hin, Hout.
  unfold located in Hin, Hout. rewrite Z.sub_0_r in Hin, Hout.
  split; intros Hex; apply last_where_exists in Hex; destruct Hex as [e He].
  - rewrite He in *. destruct Hin. split; assumption.
  - rewrite He in *. destruct Hout. split; assumption.
Qed.

(* ------------------------------------------------------------------ *)
(** *** The scan, event by event                                       *)

Lemma scan_device_trace serial d dev c w :
  has_interface d -> 0 <= c <= maxAlloc ->
  exists w',
    scan_device serial d (dev, c) w
      = (Ret (if spec_matches serial d
              then (selected d (handle dev), c + 1) else (dev, c)), w') /\
    trace w' = trace w ++ scan_events serial d (next_handle (usb w)) /\
    conn w' = conn w /\
    devices (usb w') = devices (usb w) /\
    xscript (usb w') = xscript (usb w) /\
    next_handle (usb w')
      = (if probed serial d && can_open d
         then S (next_handle (usb w)) else next_handle (usb w)) /\
    deferred w'
      = (if probed serial d && can_open d
         then [next_handle (usb w)] else []) ++ deferred w.
Proof.
  intros Hd Hc.
  assert (Hwrap : wrap_int (c + 1) = c + 1).
  { apply wrap_int_small. pose proof maxAlloc_int. unfold int_min. lia. }
  assert (Hskip : forall w0 : World,
            trace w0 = trace w0 ++ [] ++ [] /\ conn w0 = conn w0 /\
            devices (usb w0) = devices (usb w0) /\
            xscript (usb w0) = xscript (usb w0) /\
            next_handle (usb w0) = next_handle (usb w0) /\
            deferred w0 = [] ++ deferred w0)
    by (intros w0; cbn [app]; rewrite app_nil_r; auto 10).
  unfold scan_device, scan_events, probed, spec_matches, signature_matches,
    has_interface, selected, endpoints_of in *.
  destruct (active_config d) as [cfg|] eqn:Hcfg;
    [| exists w; cbn [andb]; split; [reflexivity | apply Hskip]].
  destruct Hd as [[Hnum Halt] Hnz].
  rewrite Z.gtb_ltb.
  destruct (Z.ltb_spec 1 (NumInterfaces cfg)) as [Hmany|Hfew].
  { exists w. destruct (Z.eqb_spec (NumInterfaces cfg) 1); [lia|].
    cbn [andb]. split; [reflexivity | apply Hskip]. }
  destruct (SupportedInterfaces cfg) as [|si [|si2 more]] eqn:Hsi;
    unfold len in Hnum; cbn [List.length] in Hnum; try lia.
  apply Forall_inv in Halt.
  destruct (InterfaceDescriptors si) as [|i alts] eqn:Hi; [congruence|].
  pose proof (first_interface_one cfg si i alts Hsi Hi) as Hfirst.
  rewrite Hfirst.
  rewrite (bind_Ret _ _ _ _ _ (index_Some [si] 0 si w (Z.le_refl 0) eq_refl)).
  rewrite Hi.
  rewrite (bind_Ret _ _ _ _ _ (index_Some (i :: alts) 0 i w (Z.le_refl 0) eq_refl)).
  rewrite signature_check.
  destruct (Z.eqb_spec (NumInterfaces cfg) 1) as [_|]; [|lia]. cbn [andb].
  destruct (fastboot_signature i); cbn [negb andb];
    [| exists w; split; [reflexivity | apply Hskip]].
  destruct (find_endpoints 0 (EndpointDescriptors i) (-1) (-1)) as [in_ out] eqn:Hfind.
  destruct (endpoints_check _ _ _ Hfind) as (Hchk & _ & _). rewrite Hchk.
  destruct (endpoints_located _ _ _ Hfind) as (Hin & Hout).
  destruct (existsb is_bulk_in (EndpointDescriptors i)) eqn:Exin; cbn [andb negb];
    [| exists w; split; [reflexivity | apply Hskip]].
  destruct (existsb is_bulk_out (EndpointDescriptors i)) eqn:Exout; cbn [andb negb];
    [| exists w; split; [reflexivity | apply Hskip]].
  destruct (Hin eq_refl) as (Hin0 & Hei). destruct (Hout eq_refl) as (Hout0 & Heo).
  destruct (last_where_exists _ _ Exin) as [ei Hlin].
  destruct (last_where_exists _ _ Exout) as [eo Hlout].
  rewrite Hlin in *. rewrite Hlout in *.
  assert (Hmatched : forall w0,
    (epIn <- index (EndpointDescriptors i) in_ ;;
     epOut <- index (EndpointDescriptors i) out ;;
     showDeviceInfo {| endpointIn := Some epIn; endpointOut := Some epOut;
                       device := Some d; handle := handle dev |} ;;;
     ret ({| endpointIn := Some epIn; endpointOut := Some epOut;
             device := Some d; handle := handle dev |}, wrap_int (c + 1))) w0
      = (Ret ({| endpointIn := Some ei; endpointOut := Some eo;
                 device := Some d; handle := handle dev |}, c + 1),
         emit (found_line d) w0)).
  { intros w0.
    rewrite (bind_Ret _ _ _ _ _ (index_Some _ _ _ w0 Hin0 Hei)).
    rewrite (bind_Ret _ _ _ _ _ (index_Some _ _ _ w0 Hout0 Heo)).
    rewrite Hwrap. reflexivity. }
  unfold serial_matches.
  destruct (String.eqb_spec serial EmptyString) as [Hs|Hs]; cbn [negb andb].
  { exists (emit (found_line d) w). split; [apply Hmatched|].
    cbn. auto 10. }
  unfold bind at 1, Open.
  destruct (can_open d); cbn [andb];
    [| eexists; split; [reflexivity | cbn; auto 10]].
  unfold bind at 1, defer_Close. unfold StringDescriptorASCII.
  destruct (serial_number d) as [s|].
  - destruct (String.eqb s serial); cbn [negb].
    + eexists. split; [apply Hmatched|]. cbn. rewrite <- app_assoc. auto 10.
    + eexists. split; [reflexivity|]. cbn. auto 10.
  - assert (String.eqb EmptyString serial = false) as ->.
    { apply String.eqb_neq. congruence. }
    cbn [negb]. eexists. split; [reflexivity|]. cbn. auto 10.
Qed.

Lemma scan_devices_trace serial ds : forall dev c w,
  Forall has_interface ds -> 0 <= c -> c + len ds <= maxAlloc ->
  exists w',
    scan_devices serial ds (dev, c) w
      = (Ret (match rev (filter (spec_matches serial) ds) with
              | [] => dev
              | d :: _ => selected d (handle dev)
              end, c + len (filter (spec_matches serial) ds)), w') /\
    trace w' = trace w ++ scan_all_events serial ds (next_handle (usb w)) /\
    conn w' = conn w /\
    devices (usb w') = devices (usb w) /\
    xscript (usb w') = xscript (usb w) /\
    next_handle (usb w')
      = (next_handle (usb w)
         + List.length (probe_handles serial ds (next_handle (usb w))))%nat /\
    deferred w'
      = rev (probe_handles serial ds (next_handle (usb w))) ++ deferred w.
Proof.
  induction ds as [|d ds IH]; intros dev c w Hds Hc Hlen.
  - exists w. cbn. rewrite Z.add_0_r, app_nil_r, Nat.add_0_r. auto 10.
  - unfold len in Hlen. cbn [List.length] in Hlen. rewrite Nat2Z.inj_succ in Hlen.
    fold (len ds) in Hlen. pose proof (Nat2Z.is_nonneg (List.length ds)) as Hnn.
    fold (len ds) in Hnn.
    inversion Hds as [|? ? Hd Hds']; subst.
    destruct (scan_device_trace serial d dev c w Hd)
      as (w1 & Hrun & Htr & Hconn & Hdevs & Hxs & Hnext & Hdef); [lia|].
    cbn [scan_devices filter scan_all_events probe_handles].
    rewrite (bind_Ret _ _ _ _ _ Hrun).
    destruct (spec_matches serial d) eqn:Hm.
    + destruct (IH (selected d (handle dev)) (c + 1) w1 Hds')
        as (w' & Hrun' & Htr' & Hconn' & Hdevs' & Hxs' & Hnext' & Hdef');
        [lia | lia |].
      exists w'. rewrite Hrun'.
      rewrite Htr', Htr, Hconn', Hconn, Hdevs', Hdevs, Hxs', Hxs, Hnext', Hdef',
        Hnext, Hdef.
      split; [|destruct (probed serial d && can_open d); cbn [rev List.length app];
               rewrite <- ?app_assoc, ?Nat.add_succ_r; cbn [app]; auto 10].
      cbn [rev selected handle]. unfold len. cbn [List.length].
      rewrite Nat2Z.inj_succ.
      destruct (rev (filter (spec_matches serial) ds)); cbn [app];
        do 3 f_equal; lia.
    + destruct (IH dev c w1 Hds')
        as (w' & Hrun' & Htr' & Hconn' & Hdevs' & Hxs' & Hnext' & Hdef');
        [lia | lia |].
      exists w'. rewrite Hrun'.
      rewrite Htr', Htr, Hconn', Hconn, Hdevs', Hdevs, Hxs', Hxs, Hnext', Hdef',
        Hnext, Hdef.
      split; [reflexivity|].
      destruct (probed serial d && can_open d); cbn [rev List.length app];
        rewrite <- ?app_assoc, ?Nat.add_succ_r; cbn [app]; auto 10.
Qed.

Lemma close_all_trace hs : forall w,
  trace (close_all hs w) = trace w ++ map EvHandleClose hs /\
  conn (close_all hs w) = conn w /\ usb (close_all hs w) = usb w.
Proof.
  induction hs as [|h hs IH]; intros w; cbn [close_all map].
  - now rewrite app_nil_r.
  - destruct (IH (emit (EvHandleClose h) w)) as (-> & -> & ->).
    cbn [emit trace conn usb]. now rewrite <- app_assoc.
Qed.

(** The locator, event by event: the device list, the scan, the open
    and the claim of the single match, and last the deferred closes of
    the handles opened for probing, latest first. *)
Lemma usbDeviceOpen_trace serial w :
  slice_ok (devices (usb w)) -> Forall has_interface (devices (usb w)) ->
  exists dev err w' final,
    usbDeviceOpen serial w = (Ret (dev, err), w') /\
    trace w'
      = trace w
        ++ EvDeviceList
           :: scan_all_events serial (devices (usb w)) (next_handle (usb w))
           ++ final
           ++ map EvHandleClose
                (rev (probe_handles serial (devices (usb w))
                        (next_handle (usb w)))) /\
    conn w' = conn w /\ deferred w' = deferred w /\
    devices (usb w') = devices (usb w) /\ xscript (usb w') = xscript (usb w) /\
    let hf := (next_handle (usb w)
               + List.length (probe_handles serial (devices (usb w))
                                (next_handle (usb w))))%nat in
    match filter (spec_matches serial) (devices (usb w)) with
    | [] => final = [] /\ err = Some ErrNoDevice /\ dev = zero_usbDevice
    | [d] =>
        if can_open d then
          if can_claim d then
            final = [EvOpen d (Some hf); EvClaim hf 0 true] /\
            err = None /\ dev = selected d (Some hf)
          else
            final = [EvOpen d (Some hf); EvClaim hf 0 false; EvHandleClose hf] /\
            err = Some (ErrClaimFailed ErrUsb) /\ dev = selected d (Some hf)
        else
          final = [EvOpen d None] /\
          err = Some (ErrOpenFailed ErrUsb) /\ dev = selected d None
    | _ :: _ :: _ => final = [] /\ err = Some ErrMultipleDevices
    end.
Proof.
  intros Hok Hds. cbv zeta. unfold usbDeviceOpen, with_defers.
  unfold bind at 1, DeviceList. cbn [usb set_deferred].
  set (w0 := emit EvDeviceList (set_deferred [] w)).
  destruct (scan_devices_trace serial (devices (usb w)) zero_usbDevice 0 w0 Hds)
    as (w1 & Hrun & Htr & Hconn & Hdevs & Hxs & Hnext & Hdef); [lia | exact Hok |].
  cbn [w0 emit set_deferred usb trace conn deferred] in Htr, Hconn, Hdevs, Hxs,
    Hnext, Hdef, Hrun.
  rewrite app_nil_r in Hdef.
  rewrite (bind_Ret _ _ _ _ _ Hrun). cbv beta iota. cbn [Z.add].
  pose proof (filter_length_le (spec_matches serial) (devices (usb w))) as Hle.
  set (probes := probe_handles serial (devices (usb w)) (next_handle (usb w))) in *.
  set (scan := scan_all_events serial (devices (usb w)) (next_handle (usb w))) in *.
  destruct (filter (spec_matches serial) (devices (usb w))) as [|d [|d2 more]];
    unfold len; cbn [List.length rev app] in *.
  - cbn [Z.of_nat Z.eqb]. unfold ret.
    do 3 eexists. exists []. split; [reflexivity|].
    destruct (close_all_trace (deferred w1) w1) as (Ht & Hc & Hu).
    cbn [set_deferred trace conn usb deferred]. rewrite Hc, Hu, Hconn, Hdevs, Hxs.
    split; [|auto 10].
    cbn [set_deferred trace]. rewrite Ht, Htr, Hdef. cbn [app].
    now rewrite <- !app_assoc.
  - cbn [Z.of_nat Pos.of_succ_nat Z.eqb Z.gtb Z.compare Pos.compare Pos.compare_cont].
    cbn [selected device]. unfold bind at 1, Open.
    destruct (can_open d).
    + unfold ClaimInterface, tell, bind, ret, handle_Close.
      destruct (can_claim d); cbv beta iota; do 3 eexists;
        [ exists [EvOpen d (Some (next_handle (usb w1)));
                  EvClaim (next_handle (usb w1)) 0 true]
        | exists [EvOpen d (Some (next_handle (usb w1)));
                  EvClaim (next_handle (usb w1)) 0 false;
                  EvHandleClose (next_handle (usb w1))] ];
        (split; [reflexivity|]);
        match goal with
        | |- context [close_all ?hs ?w2] =>
            destruct (close_all_trace hs w2) as (Ht & Hc & Hu)
        end;
        cbn [set_deferred trace conn usb deferred emit set_usb devices xscript]
          in Ht, Hc, Hu |- *;
        rewrite ?Hc, ?Hu; cbn [devices xscript];
        (split; [cbn [set_deferred trace];
                 rewrite Ht, Htr, Hdef; cbn [app];
                 rewrite <- !app_assoc; cbn [app]; reflexivity |]);
        rewrite Hnext; auto 10.
    + do 3 eexists. exists [EvOpen d None]. split; [reflexivity|].
      match goal with
      | |- context [close_all ?hs ?w2] =>
          destruct (close_all_trace hs w2) as (Ht & Hc & Hu)
      end.
      cbn [set_deferred trace conn usb deferred emit] in Ht, Hc, Hu |- *.
      rewrite Hc, Hu.
      split; [cbn [set_deferred trace];
              rewrite Ht, Htr, Hdef; cbn [app];
              rewrite <- !app_assoc; cbn [app]; reflexivity |].
      auto 10.
  - assert (Hcount : (Z.of_nat (S (S (List.length more))) =? 0) = false)
      by (apply Z.eqb_neq; lia).
    assert (Hcount' : (Z.of_nat (S (S (List.length more))) >? 1) = true)
      by (apply Z.gtb_lt; lia).
    rewrite Hcount, Hcount'. unfold ret.
    do 3 eexists. exists []. split; [reflexivity|].
    destruct (close_all_trace (deferred w1) w1) as (Ht & Hc & Hu).
    cbn [set_deferred trace conn usb deferred]. rewrite Hc, Hu, Hconn, Hdevs, Hxs.
    split; [|auto 10].
    cbn [set_deferred trace]. rewrite Ht, Htr, Hdef. cbn [app].
    now rewrite <- !app_assoc.
Qed.


(* ------------------------------------------------------------------ *)
(** *** Reading the trace of the locator                               *)

Lemma found_scan serial ds : forall h,
  filter is_found_event (scan_all_events serial ds h)
  = map found_line (filter (spec_matches serial) ds).
Proof.
  induction ds as [|d ds IH]; intros h; [reflexivity|].
  cbn [scan_all_events filter]. unfold scan_events.
  rewrite !filter_app, IH.
  destruct (probed serial d), (spec_matches serial d); reflexivity.
Qed.

Lemma found_closes hs : filter is_found_event (map EvHandleClose hs) = [].
Proof. induction hs; [reflexivity | exact IHhs]. Qed.

Lemma opens_app a b : opens (a ++ b) = opens a ++ opens b.
Proof.
  induction a as [|e a IH]; [reflexivity|]. cbn [app opens].
  destruct e; try exact IH. cbn [app]. now rewrite IH.
Qed.

Lemma opens_scan serial ds : forall h,
  opens (scan_all_events serial ds h)
  = map (fun d => (d, can_open d)) (filter (probed serial) ds).
Proof.
  induction ds as [|d ds IH]; intros h; [reflexivity|].
  cbn [scan_all_events filter]. unfold scan_events.
  rewrite !opens_app, IH. unfold found_line.
  destruct (probed serial d); cbn [andb map];
    destruct (spec_matches serial d), (can_open d); reflexivity.
Qed.

Lemma opens_closes hs : opens (map EvHandleClose hs) = [].
Proof. induction hs; [reflexivity | exact IHhs]. Qed.

Lemma open_handles_app a b : forall hs,
  open_handles (a ++ b) hs = open_handles b (open_handles a hs).
Proof.
  induction a as [|e a IH]; intros hs; [reflexivity|]. cbn [app open_handles].
  destruct e; try apply IH. destruct h; apply IH.
Qed.

Lemma open_handles_scan serial ds : forall h hs,
  open_handles (scan_all_events serial ds h) hs
  = rev (probe_handles serial ds h) ++ hs.
Proof.
  induction ds as [|d ds IH]; intros h hs; [reflexivity|].
  cbn [scan_all_events probe_handles]. unfold scan_events, found_line.
  rewrite !open_handles_app, IH.
  destruct (probed serial d); cbn [andb];
    destruct (spec_matches serial d), (can_open d); cbn [open_handles rev app];
    rewrite <- ?app_assoc; reflexivity.
Qed.

Lemma remove_as_filter a (hs : list DeviceHandle) :
  remove Nat.eq_dec a hs = filter (fun x => negb (Nat.eqb x a)) hs.
Proof.
  induction hs as [|x hs IH]; [reflexivity|]. cbn [remove filter].
  destruct (Nat.eq_dec a x) as [->|Hne].
  - now rewrite Nat.eqb_refl.
  - destruct (Nat.eqb_spec x a); [congruence|]. cbn [negb]. now rewrite IH.
Qed.

Lemma open_handles_closes l : forall hs,
  open_handles (map EvHandleClose l) hs
  = filter (fun x => negb (existsb (Nat.eqb x) l)) hs.
Proof.
  induction l as [|a l IH]; intros hs; cbn [map open_handles existsb].
  - induction hs as [|x hs IHhs]; [reflexivity|]. cbn [filter negb].
    f_equal. exact IHhs.
  - rewrite IH, remove_as_filter.
    induction hs as [|x hs IHhs]; [reflexivity|]. cbn [filter].
    destruct (Nat.eqb x a); cbn [negb orb filter]; [exact IHhs|].
    destruct (existsb (Nat.eqb x) l); cbn [negb]; now rewrite IHhs.
Qed.

(** Closing every handle of [l] leaves of [keep ++ l] what is in [keep],
    when none of those is in [l]. *)
Lemma open_handles_closes_keep l keep :
  (forall x, In x keep -> ~ In x l) ->
  open_handles (map EvHandleClose l) (keep ++ l) = keep.
Proof.
  intros Hdisj. rewrite open_handles_closes, filter_app.
  assert (Hl : @filter DeviceHandle
                 (fun x => negb (existsb (Nat.eqb x) l)) l = []).
  { assert (H : forall l0, (forall x, In x l0 -> In x l) ->
              @filter DeviceHandle
                (fun x => negb (existsb (Nat.eqb x) l)) l0 = []).
    { induction l0 as [|x l0 IH]; intros Hsub; [reflexivity|]. cbn [filter].
      assert (Hx : existsb (Nat.eqb x) l = true).
      { apply existsb_exists. exists x. split; [apply Hsub; now left|].
        apply Nat.eqb_refl. }
      rewrite Hx. cbn [negb]. apply IH. intros y Hy. apply Hsub. now right. }
    apply H. auto. }
  unfold DeviceHandle in *. rewrite Hl, app_nil_r.
  induction keep as [|x keep IH]; [reflexivity|]. cbn [filter].
  assert (Hx : existsb (Nat.eqb x) l = false).
  { destruct (existsb (Nat.eqb x) l) eqn:E; [|reflexivity].
    apply existsb_exists in E. destruct E as (y & Hy & Hxy).
    apply Nat.eqb_eq in Hxy. subst y. exfalso. apply (Hdisj x); [now left | assumption]. }
  rewrite Hx. cbn [negb]. f_equal. apply IH.
  intros y Hy. apply Hdisj. now right.
Qed.

Lemma probe_handles_range serial ds : forall h x,
  In x (probe_handles serial ds h) ->
  (h <= x < h + List.length (probe_handles serial ds h))%nat.
Proof.
  induction ds as [|d ds IH]; intros h x; cbn [probe_handles]; [intros []|].
  destruct (probed serial d && can_open d).
  - cbn [In List.length]. intros [<- | Hx]; [lia|].
    apply IH in Hx. lia.
  - apply IH.
Qed.

Lemma probe_handles_length serial ds : forall h,
  List.length (probe_handles serial ds h)
  = List.length (filter (fun d => probed serial d && can_open d) ds).
Proof.
  induction ds as [|d ds IH]; intros h; cbn [probe_handles filter]; [reflexivity|].
  destruct (probed serial d && can_open d); cbn [List.length]; now rewrite IH.
Qed.

(* ------------------------------------------------------------------ *)
(** *** What the locator does to the devices on the bus                *)

(** X6.  On a bus where every device reports at least one interface,
    [usbDeviceOpen] logs one "found device" line, with the bus number,
    address, vendor and product of the device, for every device that
    passes the filter, in the order of the device list, and no such line
    for any other device. *)
Theorem usbDeviceOpen_logs_each_match (serial : string) (w : World) :
  slice_ok (devices (usb w)) -> Forall has_interface (devices (usb w)) ->
  exists r w',
    usbDeviceOpen serial w = (Ret r, w') /\
    filter is_found_event (since w w')
    = map found_line (filter (spec_matches serial) (devices (usb w))).
Proof.
  intros Hok Hds.
  destruct (usbDeviceOpen_trace serial w Hok Hds)
    as (dev & err & w' & final & Hrun & Htrace & _ & _ & _ & _ & Hcases).
  pose proof (since_app _ _ _ Htrace) as Hsince.
  exists (dev, err), w'. split; [exact Hrun|]. rewrite Hsince.
  cbn [filter is_found_event]. rewrite !filter_app, found_scan, found_closes.
  assert (Hfinal : filter is_found_event final = []).
  { cbv zeta in Hcases.
    destruct (filter (spec_matches serial) (devices (usb w))) as [|d [|d2 more]].
    - destruct Hcases as (-> & _). reflexivity.
    - destruct (can_open d); [destruct (can_claim d)|];
        destruct Hcases as (-> & _); reflexivity.
    - destruct Hcases as (-> & _). reflexivity. }
  now rewrite Hfinal, !app_nil_r.
Qed.

Lemma no_probe_without_serial ds : filter (probed EmptyString) ds = [].
Proof.
  induction ds as [|d ds IH]; [reflexivity|]. cbn [filter].
  unfold probed at 1. cbn [String.eqb negb]. now rewrite andb_false_r.
Qed.

(** X7.  Which devices [usbDeviceOpen] opens.  With a serial it opens,
    in the order of the device list, every device that passes the
    signature filter, whatever its serial; without a serial it opens
    none during the scan.  After the scan it opens one device more, the
    match, exactly when one device and no other has matched; with no
    match or several nothing more is opened. *)
Theorem usbDeviceOpen_opens (serial : string) (w : World) :
  slice_ok (devices (usb w)) -> Forall has_interface (devices (usb w)) ->
  exists r w',
    usbDeviceOpen serial w = (Ret r, w') /\
    opens (since w w')
    = map (fun d => (d, can_open d)) (filter (probed serial) (devices (usb w)))
      ++ match filter (spec_matches serial) (devices (usb w)) with
         | [d] => [(d, can_open d)]
         | _ => []
         end /\
    (serial = EmptyString -> filter (probed serial) (devices (usb w)) = []).
Proof.
  intros Hok Hds.
  destruct (usbDeviceOpen_trace serial w Hok Hds)
    as (dev & err & w' & final & Hrun & Htrace & _ & _ & _ & _ & Hcases).
  pose proof (since_app _ _ _ Htrace) as Hsince.
  exists (dev, err), w'. split; [exact Hrun|]. split.
  - rewrite Hsince. cbn [opens]. rewrite !opens_app, opens_scan, opens_closes.
    rewrite app_nil_r. f_equal. cbv zeta in Hcases.
    destruct (filter (spec_matches serial) (devices (usb w))) as [|d [|d2 more]].
    + destruct Hcases as (-> & _). reflexivity.
    + destruct (can_open d); [destruct (can_claim d)|];
        destruct Hcases as (-> & _); reflexivity.
    + destruct Hcases as (-> & _). reflexivity.
  - intros ->. apply no_probe_without_serial.
Qed.

(** The handles of the locator: those opened for probing are open
    until the deferred closes, which come last. *)
Lemma usbDeviceOpen_handles serial w :
  slice_ok (devices (usb w)) -> Forall has_interface (devices (usb w)) ->
  exists dev err w' body hs,
    usbDeviceOpen serial w = (Ret (dev, err), w') /\
    trace w' = trace w ++ body ++ map EvHandleClose hs /\
    conn w' = conn w /\
    opens body = opens (body ++ map EvHandleClose hs) /\
    List.length hs
    = List.length (filter (fun d => probed serial d && can_open d)
                     (devices (usb w))) /\
    open_handles body []
    = open_handles (body ++ map EvHandleClose hs) [] ++ hs /\
    open_handles (body ++ map EvHandleClose hs) []
    = match err, handle dev with
      | None, Some h => [h]
      | _, _ => []
      end /\
    (err = None -> handle dev <> None).
Proof.
  intros Hok Hds.
  destruct (usbDeviceOpen_trace serial w Hok Hds)
    as (dev & err & w' & final & Hrun & Htrace & Hconn & _ & _ & _ & Hcases).
  cbv zeta in Hcases.
  set (n := next_handle (usb w)) in *.
  set (probes := probe_handles serial (devices (usb w)) n) in *.
  set (scan := scan_all_events serial (devices (usb w)) n) in *.
  assert (Hfresh : forall x, In x [(n + List.length probes)%nat] ->
                             ~ In x (rev probes)).
  { intros x [<- | []] Hin. apply in_rev in Hin.
    apply probe_handles_range in Hin. fold probes in Hin. lia. }
  assert (Hnone : forall x, In x (@nil DeviceHandle) -> ~ In x (rev probes))
    by (intros x []).
  assert (Hbody : open_handles (EvDeviceList :: scan) [] = rev probes).
  { cbn [open_handles]. unfold scan. rewrite open_handles_scan.
    apply app_nil_r. }
  exists dev, err, w', (EvDeviceList :: scan ++ final), (rev probes).
  split; [exact Hrun|].
  split; [rewrite Htrace; cbn [app]; now rewrite <- app_assoc|].
  split; [exact Hconn|].
  split; [now rewrite opens_app, opens_closes, app_nil_r|].
  split; [rewrite length_rev; apply probe_handles_length|].
  assert (Hsplit : forall keep,
            open_handles final (rev probes) = keep ++ rev probes ->
            (forall x, In x keep -> ~ In x (rev probes)) ->
            open_handles (EvDeviceList :: scan ++ final) [] = keep ++ rev probes /\
            open_handles ((EvDeviceList :: scan ++ final)
                          ++ map EvHandleClose (rev probes)) [] = keep).
  { intros keep Hfin Hdisj.
    change (EvDeviceList :: scan ++ final)
      with ((EvDeviceList :: scan) ++ final).
    rewrite !open_handles_app, Hbody, Hfin.
    split; [reflexivity|]. now apply open_handles_closes_keep. }
  destruct (filter (spec_matches serial) (devices (usb w))) as [|d [|d2 more]].
  - destruct Hcases as (-> & -> & ->).
    destruct (Hsplit [] eq_refl Hnone) as [H1 H2]. rewrite H1, H2.
    split; [reflexivity|]. split; [reflexivity | discriminate].
  - destruct (can_open d); [destruct (can_claim d)|];
      destruct Hcases as (-> & -> & ->); cbn [selected handle].
    + destruct (Hsplit [(n + List.length probes)%nat] eq_refl Hfresh) as [H1 H2].
      rewrite H1, H2. split; [reflexivity|]. split; [reflexivity | discriminate].
    + destruct (Hsplit []) as [H1 H2];
        [|exact Hnone|rewrite H1, H2; split; [reflexivity|];
                      split; [reflexivity | discriminate]].
      cbn [open_handles remove].
      destruct (Nat.eq_dec (n + List.length probes) (n + List.length probes));
        [|congruence].
      apply notin_remove. apply Hfresh. now left.
    + destruct (Hsplit [] eq_refl Hnone) as [H1 H2]. rewrite H1, H2.
      split; [reflexivity|]. split; [reflexivity | discriminate].
  - destruct Hcases as (-> & ->).
    destruct (Hsplit [] eq_refl Hnone) as [H1 H2]. rewrite H1, H2.
    split; [reflexivity|]. split; [|discriminate].
    destruct (handle dev); reflexivity.
Qed.

(** X8.  [usbDeviceOpen] closes what it opens.  The handles it opened
    for probing stay open through the whole scan and the open and claim
    of the match, one per device probed; they are closed by the deferred
    calls, which are the last thing the function does.  When it returns,
    the only handle left open is the one of the returned session, and
    none at all when it returns an error. *)
Theorem usbDeviceOpen_closes_what_it_opens (serial : string) (w : World) :
  slice_ok (devices (usb w)) -> Forall has_interface (devices (usb w)) ->
  exists dev err w' body hs,
    usbDeviceOpen serial w = (Ret (dev, err), w') /\
    since w w' = body ++ map EvHandleClose hs /\
    opens body = opens (since w w') /\
    List.length hs
    = List.length (filter (fun d => probed serial d && can_open d)
                     (devices (usb w))) /\
    open_handles body [] = open_handles (since w w') [] ++ hs /\
    open_handles (since w w') []
    = match err, handle dev with
      | None, Some h => [h]
      | _, _ => []
      end.
Proof.
  intros Hok Hds.
  destruct (usbDeviceOpen_handles serial w Hok Hds)
    as (dev & err & w' & body & hs & Hrun & Htrace & _ & Hopens & Hlen
        & Hbody & Hleft & _).
  exists dev, err, w', body, hs.
  rewrite (since_app _ _ _ Htrace). auto 10.
Qed.

Lemma signature_endpoints d :
  signature_matches d = true ->
  existsb is_bulk_in (endpoints_of d) = true /\
  existsb is_bulk_out (endpoints_of d) = true.
Proof.
  unfold signature_matches, endpoints_of.
  destruct (active_config d) as [c|]; [|discriminate].
  destruct (first_interface c) as [i|]; [|now rewrite andb_false_r].
  intros H. apply andb_true_iff in H. destruct H as [_ H].
  apply andb_true_iff in H. destruct H as [H Hout].
  apply andb_true_iff in H. destruct H as [_ Hin]. auto.
Qed.

(** X9.  The session [usbDeviceOpen] returns is on the single device
    that passes the filter, and of the endpoints of that device's
    interface it holds the last bulk IN and the last bulk OUT endpoint:
    when the interface has several bulk endpoints of one direction, the
    later one in the descriptor wins. *)
Theorem usbDeviceOpen_takes_last_endpoints
    (serial : string) (w : World) (dev : usbDevice) (w' : World) :
  slice_ok (devices (usb w)) -> Forall has_interface (devices (usb w)) ->
  usbDeviceOpen serial w = (Ret (dev, None), w') ->
  exists d ei eo,
    filter (spec_matches serial) (devices (usb w)) = [d] /\
    device dev = Some d /\
    last_where is_bulk_in (endpoints_of d) = Some ei /\
    last_where is_bulk_out (endpoints_of d) = Some eo /\
    endpointIn dev = Some ei /\ endpointOut dev = Some eo.
Proof.
  intros Hok Hds Hrun.
  destruct (usbDeviceOpen_trace serial w Hok Hds)
    as (dev1 & err & w1 & final & Hrun1 & _ & _ & _ & _ & _ & Hcases).
  cbv zeta in Hcases. rewrite Hrun in Hrun1.
  assert (dev1 = dev /\ err = None) as [-> ->] by (split; congruence).
  destruct (filter (spec_matches serial) (devices (usb w)))
    as [|d [|d2 more]] eqn:Hf.
  - destruct Hcases as (_ & ? & _). discriminate.
  - assert (Hm : In d (filter (spec_matches serial) (devices (usb w))))
      by (rewrite Hf; now left).
    apply filter_In in Hm. destruct Hm as [_ Hm].
    apply andb_true_iff in Hm. destruct Hm as [Hsig _].
    destruct (signature_endpoints d Hsig) as [Hexin Hexout].
    destruct (last_where_exists _ _ Hexin) as [ei Hei].
    destruct (last_where_exists _ _ Hexout) as [eo Heo].
    exists d, ei, eo.
    destruct (can_open d); [destruct (can_claim d)|];
      destruct Hcases as (_ & Herr & ->); try discriminate.
    cbn [selected device endpointIn endpointOut]. auto 10.
  - destruct Hcases as (_ & ?). discriminate.
Qed.


(* ------------------------------------------------------------------ *)
(** *** A session gives back what it took                              *)

Lemma open_handles_quiet evs : forall hs,
  Forall no_handle_event evs -> open_handles evs hs = hs.
Proof.
  induction evs as [|e evs IH]; intros hs H; [reflexivity|].
  inversion H as [|? ? He Hevs]; subst. cbn [open_handles].
  destruct e; try contradiction; now apply IH.
Qed.

Lemma netReadHandshake_only_reads w :
  exists r w1, netReadHandshake w = (Ret r, w1) /\ only_reads w w1.
Proof.
  destruct (closed (conn w)) eqn:Hc.
  - destruct (netReadHandshake_closed w Hc) as (e & w1 & H). eauto.
  - destruct (list_eq_dec Byte.byte_eq_dec
                (firstn 4 (concat (pending (conn w)))) FB01) as [Heq|Hne].
    + destruct (netReadHandshake_ok w Hc Heq) as (w1 & H). eauto.
    + destruct (netReadHandshake_bad w Hc Hne) as (e & w1 & H). eauto.
Qed.

Lemma only_reads_no_handle w w' :
  only_reads w w' ->
  exists evs, trace w' = trace w ++ evs /\ Forall no_handle_event evs.
Proof.
  intros H. apply only_reads_appends in H. destruct H as (evs & Htr & Hall).
  exists evs. split; [assumption|]. revert Hall. apply Forall_impl.
  intros e [cap ->]. exact I.
Qed.

Lemma relay_no_handle fuel dev response w :
  exists evs, trace (snd (relay_loop fuel dev response w)) = trace w ++ evs /\
              Forall no_handle_event evs.
Proof.
  apply (ev_relay_loop no_handle_event); intros; exact I.
Qed.

Lemma netWriteHandshake_no_handle w :
  exists evs, trace (snd (netWriteHandshake w)) = trace w ++ evs /\
              Forall no_handle_event evs.
Proof.
  apply (ev_netWriteHandshake no_handle_event); intros; exact I.
Qed.

(** X10.  A session that returns has given back what it took, on a bus
    where every device reports an interface: no USB handle that it
    opened is still open.  If it had passed the handshake, it has closed
    the connection; and if it had acquired a device, the last three
    things it did were to close the connection, release interface 0 and
    close the handle of that device. *)
Theorem session_cleans_up (serial : string) (w w' : World) :
  slice_ok (devices (usb w)) -> Forall has_interface (devices (usb w)) ->
  session serial w = (Ret tt, w') ->
  open_handles (since w w') [] = [] /\
  forall w1, netReadHandshake w = (Ret None, w1) ->
    closed (conn w') = true /\
    forall dev w2, usbDeviceOpen serial w1 = (Ret (dev, None), w2) ->
      exists h evs,
        handle dev = Some h /\
        since w w' = evs ++ [EvConnClose; EvRelease h 0; EvHandleClose h].
Proof.
  intros Hok Hds Hrun.
  destruct (netReadHandshake_only_reads w) as (r & w1 & Hhs & Hfr).
  pose proof Hfr as (Hu & _).
  destruct (only_reads_no_handle _ _ Hfr) as (e1 & Ht1 & Hq1).
  unfold session in Hrun. rewrite (bind_Ret _ _ _ _ _ Hhs) in Hrun.
  destruct r as [e|].
  { (* the handshake failed *)
    injection Hrun as <-. split; [|intros w0 H0; congruence].
    erewrite since_app by (cbn [emit trace]; rewrite Ht1, <- app_assoc; reflexivity).
    apply open_handles_quiet, Forall_app. split; [assumption|].
    repeat constructor. }
  rewrite <- Hu in Hok, Hds.
  destruct (usbDeviceOpen_handles serial w1 Hok Hds)
    as (dev & err & w2 & body & hs & Hopen & Ht2 & Hconn2 & _ & _ & _
        & Hleft & Hsome).
  rewrite (bind_Ret _ _ _ _ _ Hopen) in Hrun.
  assert (Hafter : open_handles (e1 ++ body ++ map EvHandleClose hs) []
                   = match err, handle dev with
                     | None, Some h => [h]
                     | _, _ => []
                     end).
  { rewrite open_handles_app, (open_handles_quiet e1) by assumption.
    exact Hleft. }
  destruct err as [e|].
  { (* no device *)
    injection Hrun as <-. split.
    - rewrite (since_app _ _
                 ((e1 ++ body ++ map EvHandleClose hs)
                  ++ [EvLog (LogDeviceError e); EvSleep 1000; EvConnClose]))
        by (cbn [emit trace set_conn]; rewrite Ht2, Ht1, <- !app_assoc;
            reflexivity).
      rewrite open_handles_app, Hafter. reflexivity.
    - intros w0 H0. split; [reflexivity|]. intros dev0 w3 H3.
      assert (w0 = w1) as -> by congruence. congruence. }
  (* a device was acquired *)
  destruct (handle dev) as [h|] eqn:Hh; [|now destruct Hsome].
  unfold bind at 1 in Hrun.
  destruct (netWriteHandshake_no_handle w2) as (e3 & Ht3 & Hq3).
  destruct (netWriteHandshake w2) as [[r3|p3|] w3]; try discriminate.
  cbn [snd] in Ht3. unfold get at 1, bind at 1 in Hrun.
  unfold bind at 1 in Hrun.
  destruct (relay_no_handle (relay_fuel w3) dev (repeat x00 256) w3)
    as (e4 & Ht4 & Hq4).
  destruct (relay_loop (relay_fuel w3) dev (repeat x00 256) w3)
    as [[[]|p4|] w4]; try discriminate.
  cbn [snd] in Ht4. unfold usbDeviceClose in Hrun. rewrite Hh in Hrun.
  injection Hrun as <-.
  assert (Hsince : since w (emit (EvHandleClose h)
                              (emit (EvRelease h 0)
                                 (set_conn
                                    {| pending := pending (conn w4);
                                       fin := fin (conn w4);
                                       wscript := wscript (conn w4);
                                       sent := sent (conn w4);
                                       closed := true |}
                                    (emit EvConnClose w4))))
                   = ((e1 ++ body ++ map EvHandleClose hs) ++ e3 ++ e4)
                     ++ [EvConnClose; EvRelease h 0; EvHandleClose h]).
  { apply since_app. cbn [emit trace set_conn].
    rewrite Ht4, Ht3, Ht2, Ht1, <- !app_assoc. reflexivity. }
  split.
  - rewrite Hsince.
    rewrite (open_handles_app ((e1 ++ body ++ map EvHandleClose hs) ++ e3 ++ e4)).
    rewrite (open_handles_app (e1 ++ body ++ map EvHandleClose hs)), Hafter.
    rewrite (open_handles_app e3).
    rewrite (open_handles_quiet e3), (open_handles_quiet e4) by assumption.
    cbn [open_handles remove].
    destruct (Nat.eq_dec h h); [reflexivity | congruence].
  - intros w0 H0. split; [reflexivity|]. intros dev0 w5 H5.
    assert (w0 = w1) as -> by congruence.
    assert (dev0 = dev) as -> by congruence.
    exists h. eexists. split; [exact Hh | exact Hsince].
Qed.


(* ------------------------------------------------------------------ *)
(** *** Which panics a session can end in                              *)

Section Panics.
Variable P : panic -> Prop.

Lemma panics_ret {A} (a : A) : panics_only P (ret a).
Proof. intros w p w' H. discriminate H. Qed.

Lemma panics_out_of_fuel {A} : panics_only P (@out_of_fuel A).
Proof. intros w p w' H. discriminate H. Qed.

Lemma panics_get : panics_only P get.
Proof. intros w p w' H. discriminate H. Qed.

Lemma panics_tell e : panics_only P (tell e).
Proof. intros w p w' H. discriminate H. Qed.


Lemma panics_bind {A B} (Q : A -> Prop) (m : M A) (k : A -> M B) :
  panics_only P m -> returns Q m ->
  (forall a, Q a -> panics_only P (k a)) -> panics_only P (bind m k).
Proof.
  intros Hm HQ Hk w p w'. unfold bind.
  destruct (m w) as [[a|q|] w1] eqn:E.
  - apply (Hk a). exact (HQ w a w1 E).
  - intros [= <- _]. exact (Hm w q w1 E).
  - discriminate.
Qed.

Lemma panics_seq {A B} (m : M A) (k : A -> M B) :
  panics_only P m -> (forall a, panics_only P (k a)) ->
  panics_only P (bind m k).
Proof.
  intros Hm Hk. apply (panics_bind (fun _ => True)); auto using returns_any.
Qed.

Lemma panics_conn_Read cap : panics_only P (conn_Read cap).
Proof.
  intros w p w'. unfold conn_Read.
  destruct (closed (conn w)); [discriminate|].
  destruct (cap =? 0)%nat; [discriminate|].
  destruct (take_pending cap (pending (conn w))) as [[bs rest]|]; discriminate.
Qed.

Lemma panics_conn_Write data : panics_only P (conn_Write data).
Proof.
  intros w p w'. unfold conn_Write.
  destruct (closed (conn w)); [discriminate|].
  destruct (wscript (conn w)) as [|[|n e] tl]; discriminate.
Qed.

Lemma panics_conn_Close : panics_only P conn_Close.
Proof. intros w p w' H. discriminate H. Qed.

Lemma panics_pop_xscript : panics_only P pop_xscript.
Proof.
  intros w p w'. unfold pop_xscript.
  destruct (xscript (usb w)); discriminate.
Qed.

Ltac panics_tac :=
  repeat first
    [ apply panics_ret | apply panics_out_of_fuel | apply panics_get
    | apply panics_tell | apply panics_conn_Read | apply panics_conn_Write
    | apply panics_conn_Close | apply panics_pop_xscript
    | apply panics_seq; [ | intros ]
    | match goal with
      | |- panics_only _ (match ?x with _ => _ end) => destruct x
      | |- panics_only _ (let '(_, _) := ?x in _) => destruct x
      end ].

Lemma panics_bufio_Read n r : panics_only P (bufio_Read n r).
Proof. unfold bufio_Read. panics_tac. Qed.

Lemma panics_ReadAtLeast_loop fuel : forall r n acc err,
  panics_only P (ReadAtLeast_loop fuel r n acc err).
Proof.
  induction fuel as [|fuel IH]; intros r n acc err; cbn [ReadAtLeast_loop];
    destruct err; try apply panics_ret;
    destruct (List.length acc <? n)%nat; try apply panics_ret.
  - apply panics_out_of_fuel.
  - apply panics_seq; [apply panics_bufio_Read|]. intros [[bs e] r'].
    apply IH.
Qed.

Lemma panics_io_ReadFull r n : panics_only P (io_ReadFull r n).
Proof.
  unfold io_ReadFull. apply panics_seq; [apply panics_get|]. intros w.
  apply panics_seq; [apply panics_ReadAtLeast_loop|]. intros [[acc err] r'].
  apply panics_ret.
Qed.

Lemma panics_netReadHandshake : panics_only P netReadHandshake.
Proof.
  unfold netReadHandshake.
  apply panics_seq; [apply panics_io_ReadFull|]. intros [[acc err] r'].
  destruct (_ || _); apply panics_ret.
Qed.



Lemma panics_BulkTransfer h a data l t :
  panics_only P (BulkTransfer h a data l t).
Proof. unfold BulkTransfer. panics_tac. Qed.

Hypothesis P_makeslice : P MakesliceLen.

End Panics.














(* ------------------------------------------------------------------ *)
(** *** When the listener gets stuck                                   *)

(** Past the handshake, a session that returns has closed its
    connection. *)
Lemma session_past_handshake_closes serial w w1 w' :
  netReadHandshake w = (Ret None, w1) ->
  session serial w = (Ret tt, w') -> closed (conn w') = true.
Proof.
  intros H1 Hrun. unfold session in Hrun.
  rewrite (bind_Ret _ _ _ _ _ H1) in Hrun. unfold bind at 1 in Hrun.
  destruct (usbDeviceOpen serial w1) as [[[dev err]|p|] w2]; try discriminate.
  destruct err as [e|].
  - injection Hrun as <-. reflexivity.
  - unfold bind at 1 in Hrun.
    destruct (netWriteHandshake w2) as [[r3|p3|] w3]; try discriminate.
    unfold get at 1, bind at 1 in Hrun. unfold bind at 1 in Hrun.
    destruct (relay_loop (relay_fuel w3) dev (repeat x00 256) w3)
      as [[[]|p4|] w4]; try discriminate.
    unfold usbDeviceClose in Hrun.
    destruct (handle dev); [|discriminate].
    injection Hrun as <-. reflexivity.
Qed.

(** X12.  The accept loop ends blocked on a taken slot only after a
    connection that failed the handshake: some client connected, sent
    something other than "FB01" (or too little), and at least one more
    client is waiting behind it.  Sessions that pass the handshake never
    leave the listener stuck, however they end. *)
Theorem stuck_only_after_bad_handshake
    (serial : string) (incoming : list Conn) (w w' : World) :
  closed (conn w) = true ->
  accept_loop serial incoming w = (Stuck, w') ->
  exists before c after,
    incoming = before ++ c :: after /\ after <> [] /\
    closed c = false /\ firstn 4 (concat (pending c)) <> FB01.
Proof.
  revert w. induction incoming as [|c rest IH]; intros w Hc Hrun;
    [discriminate|].
  cbn [accept_loop] in Hrun. unfold slot_taken in Hrun. rewrite Hc in Hrun.
  cbn [negb] in Hrun.
  destruct (session serial (Accept c w)) as [[[]|p|] w1] eqn:Hs;
    try discriminate.
  destruct (closed (conn w1)) eqn:Hc1.
  - destruct (IH w1 Hc1 Hrun) as (before & c0 & after & -> & Hne & Hbad).
    exists (c :: before), c0, after. auto.
  - exists [], c, rest. split; [reflexivity|].
    split; [destruct rest; [discriminate Hrun | discriminate]|].
    assert (Hconn : conn (Accept c w) = c) by reflexivity.
    destruct (closed c) eqn:Hcc.
    + exfalso.
      destruct (netReadHandshake_closed (Accept c w)) as (e & w2 & Hh & Hfr);
        [now rewrite Hconn|].
      unfold session in Hs. rewrite (bind_Ret _ _ _ _ _ Hh) in Hs.
      injection Hs as <-. cbn [log tell emit conn] in Hc1.
      rewrite (only_reads_closed _ _ Hfr), Hconn in Hc1. congruence.
    + split; [reflexivity|]. intros Hgood.
      destruct (netReadHandshake_ok (Accept c w)) as (w2 & Hh & _);
        [now rewrite Hconn | now rewrite Hconn |].
      pose proof (session_past_handshake_closes _ _ _ _ Hh Hs). congruence.
Qed.

(* ------------------------------------------------------------------ *)
(** *** Start-up with the device check                                 *)

Lemma no_Listen_in_run port evs : ~ In (Listen port) (map Run evs).
Proof.
  intros H. apply in_map_iff in H. destruct H as (e & He & _). discriminate.
Qed.

(** X13.  Start-up with [-c], on a bus where every device reports an
    interface.  When the locator cannot acquire a device (no match,
    several, or the match cannot be opened or claimed), the process
    logs "error: ..." and exits with status 1 without ever listening.
    When it can, the process releases interface 0 and closes the handle
    again before it logs "launching server" and listens: the check
    holds no USB handle once the server is up. *)
Theorem check_gates_the_listener
    (opts : Options) (host : Host) (incoming : list Conn) (u : Usb) :
  argHelp opts = false -> new_context host = None ->
  argCheckDevice opts = true ->
  slice_ok (devices u) -> Forall has_interface (devices u) ->
  exists e steps w,
    main opts host incoming u = (e, steps, w) /\
    if acquirable (argSerial opts) (devices u) then
      exists h pre post,
        steps
        = NewContext
          :: map Run (pre ++ [EvRelease h 0; EvHandleClose h])
          ++ [Launching (argPort opts); Listen (argPort opts)] ++ post /\
        In (EvClaim h 0 true) pre /\
        open_handles (pre ++ [EvRelease h 0; EvHandleClose h]) [] = []
    else
      e = Exit 1 /\ (forall port, ~ In (Listen port) steps) /\
      exists err pre,
        steps = NewContext :: map Run pre ++ [Fatal (FatalCheck err)] /\
        open_handles pre [] = [].
Proof.
  intros Hhelp Hctx Hcheck Hok Hds.
  assert (Hok0 : slice_ok (devices (usb (boot u)))) by exact Hok.
  assert (Hds0 : Forall has_interface (devices (usb (boot u)))) by exact Hds.
  destruct (usbDeviceOpen_trace (argSerial opts) (boot u) Hok0 Hds0)
    as (dev & err & w1 & final & Hrun & Htrace & _ & _ & _ & _ & Hcases).
  destruct (usbDeviceOpen_handles (argSerial opts) (boot u) Hok0 Hds0)
    as (dev' & err' & w1' & body & hs & Hrun' & Htrace' & _ & _ & _ & _
        & Hleft & _).
  rewrite Hrun in Hrun'.
  assert (dev' = dev /\ err' = err /\ w1' = w1) as (-> & -> & ->)
    by (repeat split; congruence).
  clear Hrun'. cbn [boot trace app usb devices] in Htrace, Htrace', Hcases.
  rewrite <- Htrace' in Hleft. cbv zeta in Hcases.
  unfold main, check_device. rewrite Hhelp, Hctx, Hcheck.
  rewrite (bind_Ret _ _ _ _ _ Hrun). unfold acquirable.
  destruct (filter (spec_matches (argSerial opts)) (devices u))
    as [|d [|d2 more]].
  - destruct Hcases as (_ & -> & _). unfold ret.
    do 3 eexists. split; [reflexivity|]. split; [reflexivity|].
    split; [|eauto].
    intros port [H|H]; [discriminate|]. apply in_app_or in H.
    destruct H as [H | [H | []]]; [|discriminate].
    now apply no_Listen_in_run in H.
  - destruct (can_open d); [destruct (can_claim d)|]; cbn [andb];
      destruct Hcases as (Hfinal & -> & Hdev).
    + subst dev. cbn [selected handle] in Hleft.
      unfold usbDeviceClose, ReleaseInterface, handle_Close, tell, bind, ret.
      cbn [selected handle emit trace].
      set (h := (next_handle u
                 + List.length (probe_handles (argSerial opts) (devices u)
                                  (next_handle u)))%nat) in *.
      assert (Hclaim : In (EvClaim h 0 true) (trace w1)).
      { rewrite Htrace, Hfinal. right. apply in_or_app. right.
        apply in_or_app. left. right. now left. }
      assert (Hbal : open_handles (trace w1 ++ [EvRelease h 0; EvHandleClose h]) []
                     = []).
      { rewrite open_handles_app, Hleft. cbn [open_handles remove].
        destruct (Nat.eq_dec h h); [reflexivity | congruence]. }
      destruct (listen host) as [e|].
      * do 3 eexists. split; [reflexivity|].
        exists h, (trace w1), [Fatal (FatalListen e)].
        split; [|split; assumption].
        cbn [app]. rewrite <- !app_assoc. reflexivity.
      * destruct (accept_loop (argSerial opts) incoming _) as [o w2].
        do 3 eexists. split; [reflexivity|].
        exists h, (trace w1). eexists.
        split; [|split; assumption].
        cbn [app]. rewrite <- !app_assoc. cbn [app]. reflexivity.
    + unfold ret. do 3 eexists. split; [reflexivity|]. split; [reflexivity|].
      split; [|eauto].
      intros port [H|H]; [discriminate|]. apply in_app_or in H.
      destruct H as [H | [H | []]]; [|discriminate].
      now apply no_Listen_in_run in H.
    + unfold ret. do 3 eexists. split; [reflexivity|]. split; [reflexivity|].
      split; [|eauto].
      intros port [H|H]; [discriminate|]. apply in_app_or in H.
      destruct H as [H | [H | []]]; [|discriminate].
      now apply no_Listen_in_run in H.
  - destruct Hcases as (_ & ->). unfold ret.
    do 3 eexists. split; [reflexivity|]. split; [reflexivity|].
    split; [|eauto].
    intros port [H|H]; [discriminate|]. apply in_app_or in H.
    destruct H as [H | [H | []]]; [|discriminate].
    now apply no_Listen_in_run in H.
Qed.


(* ------------------------------------------------------------------ *)
(** *** The verdict of the handshake reader                            *)

(** X14.  [netReadHandshake] on an open connection, by the bytes the
    connection delivers, however they are cut into pieces: it returns
    nil exactly when the first four are "FB01".  With four other bytes
    the error it returns carries no cause (its text ends in "<nil>"),
    because the read itself succeeded; with fewer than four bytes the
    cause is the error the stream ended with, "unexpected EOF" for an
    end of file after one to three bytes.  It only reads. *)
Theorem netReadHandshake_verdict (w : World) :
  closed (conn w) = false ->
  let s := concat (pending (conn w)) in
  exists r w',
    netReadHandshake w = (Ret r, w') /\ only_reads w w' /\
    r = if bytes_eqb (firstn 4 s) FB01 then None
        else Some (ErrReadHandshake
                     (if (List.length s <? 4)%nat
                      then Some (short_read_error s (fin (conn w)))
                      else None)).
Proof.
  intros Hc s. assert (Hs : stream NewReader w = s) by reflexivity.
  unfold netReadHandshake.
  destruct (Nat.ltb_spec (List.length s) 4) as [Hshort|Hlong].
  - destruct (io_ReadFull_short NewReader 4 w Hc eq_refl)
      as (r1 & w1 & Hrun & Hfr & _); [rewrite Hs; exact Hshort|].
    rewrite Hs in Hrun. rewrite (bind_Ret _ _ _ _ _ Hrun). cbv beta iota.
    destruct (Z.eqb_spec (len s) 4) as [H4|_]; [unfold len in H4; lia|].
    cbn [negb orb]. do 2 eexists. split; [reflexivity|]. split; [assumption|].
    rewrite firstn_all2 by lia.
    destruct (bytes_eqb s FB01) eqn:E; [|reflexivity].
    apply bytes_eqb_true in E. rewrite E in Hshort. cbn in Hshort. lia.
  - destruct (io_ReadFull_spec NewReader 4 w Hc eq_refl)
      as (err & r1 & w1 & Hrun & Hfr & _ & _ & Herr & _).
    rewrite Hs in Hrun, Herr. rewrite (Herr Hlong) in Hrun.
    rewrite (bind_Ret _ _ _ _ _ Hrun). cbv beta iota.
    assert (H4 : List.length (firstn 4 s) = 4%nat)
      by (rewrite length_firstn; lia).
    destruct (Z.eqb_spec (len (firstn 4 s)) 4) as [_|Hne];
      [|unfold len in Hne; lia].
    cbn [negb orb]. rewrite filled_full by assumption.
    destruct (bytes_eqb (firstn 4 s) FB01); cbn [negb];
      do 2 eexists; (split; [reflexivity|]); split; auto.
Qed.

(* ------------------------------------------------------------------ *)
(** *** A transfer that fails                                          *)

(** When the device takes [k] chunks and fails the next transfer, the
    loop of [usbWrite], if it gets that far, returns that failure. *)
Lemma usbWrite_loop_failure h ep data e later :
  Z.testbit (EndpointAddress ep) 7 = false ->
  forall todo k offset w err w',
    (k < todo)%nat ->
    xscript (usb w) = repeat (XferOk []) k ++ XferFail e :: later ->
    usbWrite_loop todo h ep data offset w = (Ret err, w') ->
    err = Some (ErrUsbWrite e) /\ xscript (usb w') = later.
Proof.
  intros Hbit.
  induction todo as [|todo IH]; intros k offset w err w' Hk Hx; [lia|].
  cbn [usbWrite_loop]. unfold slice.
  destruct ((0 <=? offset) && _ && _); [|discriminate].
  unfold bind at 1, ret at 1.
  unfold BulkTransfer, bind, tell, pop_xscript. cbn [emit usb].
  rewrite Hx. destruct k as [|k]; cbn [repeat app].
  - intros [= <- <-]. cbn. auto.
  - rewrite Hbit. cbn [ret]. apply IH with (k := k); [lia|]. reflexivity.
Qed.

(** The same for [usbWrite], which then has issued [k + 1] transfers,
    all of them on the OUT endpoint. *)
Lemma usbWrite_failure dev data h ep k e later w :
  handle dev = Some h -> endpointOut dev = Some ep ->
  Z.testbit (EndpointAddress ep) 7 = false ->
  0 < MaxPacketSize ep <= 65535 -> slice_ok data ->
  Z.of_nat k < ceil_div (len data) (MaxPacketSize ep) ->
  xscript (usb w) = repeat (XferOk []) k ++ XferFail e :: later ->
  exists w' evs,
    usbWrite dev data w = (Ret (Some (ErrUsbWrite e)), w') /\
    conn w' = conn w /\ trace w' = trace w ++ evs /\
    filter is_bulk_in_event evs = [] /\
    Forall not_a_write evs /\ xscript (usb w') = later.
Proof.
  intros Hh Hep Hbit Hmps Hdata Hk Hx.
  pose proof maxAlloc_int as Hmax. pose proof Hdata as Hlen.
  unfold slice_ok in Hlen.
  assert (Hnn : 0 <= len data) by (unfold len; lia).
  set (count := ceil_div (len data) (MaxPacketSize ep)) in *.
  destruct (usbWrite_loop_spec h ep data Hmps Hdata (Z.to_nat count) 0)
    as (chunks & _ & _ & _ & Hrun).
  { lia. }
  { rewrite Z.sub_0_r. fold count. lia. }
  unfold usbWrite. rewrite Hep, Hh.
  rewrite (wrap_int_small (len data + MaxPacketSize ep))
    by (unfold int_min; lia).
  rewrite (wrap_int_small (len data + MaxPacketSize ep - 1))
    by (unfold int_min; lia).
  assert (Hdiv : 0 <= len data + MaxPacketSize ep - 1 <= int_max) by lia.
  rewrite (bind_Ret _ _ _ _ _
             (int_div_nonneg _ (MaxPacketSize ep) w Hdiv (proj1 Hmps))).
  rewrite <- ceil_div_alt by lia. fold count.
  unfold log, tell, bind at 1.
  set (line := EvLog (LogUsbSend (len data) count (MaxPacketSize ep))).
  destruct (Hrun (emit line w)) as (err & j & w' & Hloop & Htr & Hconn & _).
  assert (Hk' : (k < Z.to_nat count)%nat) by lia.
  destruct (usbWrite_loop_failure h ep data e later Hbit (Z.to_nat count) k
              0 (emit line w) err w' Hk' Hx Hloop) as [-> Hx'].
  exists w', (line :: map (bulk_out h ep) (firstn j chunks)).
  split; [exact Hloop|]. split; [exact Hconn|].
  split; [rewrite Htr; cbn [emit trace]; now rewrite <- app_assoc|].
  split; [cbn [filter is_bulk_in_event line]; now apply bulk_in_events_chunks|].
  split; [|exact Hx'].
  constructor; [intros data0; discriminate|].
  apply Forall_forall. intros ev Hev. apply in_map_iff in Hev.
  destruct Hev as (c & <- & _). intros data0. discriminate.
Qed.

Lemma usbRead_failure dev response h ep e later w :
  handle dev = Some h -> endpointIn dev = Some ep ->
  xscript (usb w) = XferFail e :: later ->
  exists w',
    usbRead dev response w = (Ret (0, Some (ErrUsbRead e), response), w') /\
    conn w' = conn w /\
    trace w' = trace w
               ++ [EvBulk h (EndpointAddress ep) response (len response) usbTimeout] /\
    xscript (usb w') = later.
Proof.
  intros Hh Hep Hx. unfold usbRead. rewrite Hh, Hep.
  unfold BulkTransfer, bind, tell, pop_xscript. cbn [emit usb]. rewrite Hx.
  eexists. split; [reflexivity|]. cbn. auto.
Qed.

(** X15.  A transfer that fails ends the relay loop at once.  When a
    request has arrived and the device, after taking [k] of its chunks,
    fails the next transfer (a chunk, or the read of the response when
    all chunks were taken), the loop logs that failure, as a write or as
    a read failure, and returns: no further transfer is tried, and
    nothing is sent to the client, who gets no frame for this request. *)
Theorem relay_loop_ends_on_usb_failure dev h ei eo
    (req : list byte) (segs rest : list (list byte)) (k : nat) (e : ioerr)
    (later : list xres) (response : list byte) (fuel : nat) (w : World) :
  handle dev = Some h -> endpointIn dev = Some ei -> endpointOut dev = Some eo ->
  is_bulk_in ei = true -> is_bulk_out eo = true ->
  0 < MaxPacketSize eo <= 65535 ->
  slice_ok req -> closed (conn w) = false ->
  pending (conn w) = segs ++ rest -> concat segs = frame req ->
  Z.of_nat k <= ceil_div (len req) (MaxPacketSize eo) ->
  xscript (usb w) = repeat (XferOk []) k ++ XferFail e :: later ->
  exists w',
    relay_loop (S fuel) dev response w = (Ret tt, w') /\
    sent (conn w') = sent (conn w) /\
    xscript (usb w') = later /\
    last (since w w') EvAccept
    = EvLog (LogUsb (if Z.of_nat k <? ceil_div (len req) (MaxPacketSize eo)
                     then ErrUsbWrite e else ErrUsbRead e)) /\
    List.length (filter is_bulk_in_event (since w w'))
    = if Z.of_nat k <? ceil_div (len req) (MaxPacketSize eo)
      then 0%nat else 1%nat.
Proof.
  intros Hh Hei Heo Hin Hout Hmps Hreq Hc Hp Hsegs Hk Hx.
  apply bulk_in_bit in Hin. apply bulk_out_bit in Hout.
  cbn [relay_loop].
  destruct (netRead_pieces req segs rest w Hreq Hc Hp Hsegs)
    as (pre1 & w1 & Hrun1 & Hfr1 & _ & _).
  rewrite (bind_Ret _ _ _ _ _ Hrun1). cbv beta iota.
  destruct Hfr1 as (Hu1 & _ & _ & _ & Hsent1 & _ & caps & Htr1).
  rewrite <- Hu1 in Hx.
  destruct (Z.ltb_spec (Z.of_nat k) (ceil_div (len req) (MaxPacketSize eo)))
    as [Hlt|Hge].
  - destruct (usbWrite_failure dev req h eo k e later w1 Hh Heo Hout Hmps Hreq
                Hlt Hx)
      as (w2 & evs2 & Hrun2 & Hconn2 & Htr2 & Hins2 & _ & Hx2).
    rewrite (bind_Ret _ _ _ _ _ Hrun2). cbv beta iota. unfold log, tell.
    eexists. split; [reflexivity|]. cbn [emit conn usb trace].
    split; [congruence|]. split; [exact Hx2|].
    rewrite (since_app _ _ ((map EvConnRead caps ++ evs2)
                            ++ [EvLog (LogUsb (ErrUsbWrite e))]))
      by (cbn [emit trace]; rewrite Htr2, Htr1, <- !app_assoc; reflexivity).
    split; [apply last_last|].
    rewrite !bulk_in_events_app, bulk_in_events_reads, Hins2. reflexivity.
  - assert (Hkc : k = Z.to_nat (ceil_div (len req) (MaxPacketSize eo))) by lia.
    rewrite Hkc in Hx.
    destruct (usbWrite_accepted dev req h eo _ w1 Hh Heo Hout Hmps Hreq Hx)
      as (w2 & evs2 & Hrun2 & Hconn2 & Htr2 & _ & Hins2 & Hx2).
    rewrite (bind_Ret _ _ _ _ _ Hrun2). cbv beta iota.
    destruct (usbRead_failure dev response h ei e later w2 Hh Hei Hx2)
      as (w3 & Hrun3 & Hconn3 & Htr3 & Hx3).
    rewrite (bind_Ret _ _ _ _ _ Hrun3). cbv beta iota. unfold log, tell.
    eexists. split; [reflexivity|]. cbn [emit conn usb trace].
    split; [congruence|]. split; [exact Hx3|].
    rewrite (since_app _ _
               ((map EvConnRead caps ++ evs2
                 ++ [EvBulk h (EndpointAddress ei) response (len response)
                       usbTimeout])
                ++ [EvLog (LogUsb (ErrUsbRead e))]))
      by (cbn [emit trace]; rewrite Htr3, Htr2, Htr1, <- !app_assoc;
          reflexivity).
    split; [apply last_last|].
    rewrite !bulk_in_events_app, bulk_in_events_reads, Hins2.
    cbn [filter is_bulk_in_event app]. rewrite Hin. reflexivity.
Qed.


(* ------------------------------------------------------------------ *)
(** *** A whole session                                                *)

Lemma last_where_sat {A} (p : A -> bool) l a :
  last_where p l = Some a -> p a = true /\ In a l.
Proof.
  unfold last_where. destruct (rev (filter p l)) as [|b bs] eqn:E;
    [discriminate|].
  intros [= ->].
  assert (H : In a (filter p l)) by (apply in_rev; rewrite E; now left).
  apply filter_In in H. tauto.
Qed.

Lemma bytes_out_locator evs : Forall usb_or_log evs -> bytes_out evs = [].
Proof.
  induction 1 as [|e evs He _ IH]; [reflexivity|].
  destruct e; try contradiction; exact IH.
Qed.

Lemma netWriteHandshake_accepted w :
  closed (conn w) = false -> Forall (eq WOk) (wscript (conn w)) ->
  exists w',
    netWriteHandshake w = (Ret None, w') /\
    sent (conn w') = sent (conn w) ++ FB01 /\
    pending (conn w') = pending (conn w) /\ closed (conn w') = false /\
    fin (conn w') = fin (conn w) /\
    Forall (eq WOk) (wscript (conn w')) /\ usb w' = usb w /\
    trace w' = trace w ++ [EvConnWrite FB01].
Proof.
  intros Hc Hs. unfold netWriteHandshake, bind, conn_Write. rewrite Hc.
  destruct (wscript (conn w)) as [|x rest] eqn:E.
  - eexists. split; [reflexivity|]. cbn. auto 10.
  - inversion Hs as [|? ? <- Hrest]; subst.
    eexists. split; [reflexivity|]. cbn. auto 10.
Qed.

(** X16.  A whole session, end to end.  On a bus where the locator can
    acquire a device, whose OUT endpoint has a packet size: when the
    client's handshake and request frames arrive in pieces none of which
    spans two of them, the client takes every write, and the device
    takes every chunk and answers each request with at most 256 bytes,
    then the session returns with the connection closed, the client has
    been sent the acknowledgment "FB01" followed by the frames of the
    responses, in order, and the device has received exactly the bytes
    of the requests, in order. *)
Theorem session_relays (serial : string) (d : Device) (eo : EndpointDescriptor)
    (xs : list (list byte * list byte)) (later : list xres) (w : World) :
  slice_ok (devices (usb w)) -> Forall has_interface (devices (usb w)) ->
  filter (spec_matches serial) (devices (usb w)) = [d] ->
  can_open d = true -> can_claim d = true ->
  last_where is_bulk_out (endpoints_of d) = Some eo ->
  0 < MaxPacketSize eo <= 65535 ->
  Forall (fun x => slice_ok (fst x) /\ len (snd x) <= 256) xs ->
  closed (conn w) = false ->
  in_pieces (FB01 :: map (fun x => frame (fst x)) xs) (pending (conn w)) ->
  Forall (eq WOk) (wscript (conn w)) ->
  xscript (usb w)
    = concat (map (exchange_script (MaxPacketSize eo)) xs) ++ later ->
  exists w',
    session serial w = (Ret tt, w') /\
    sent (conn w')
      = sent (conn w) ++ FB01 ++ concat (map (fun x => frame (snd x)) xs) /\
    bytes_out (since w w') = concat (map fst xs) /\
    closed (conn w') = true /\
    xscript (usb w') = later.
Proof.
  intros Hok Hds Hf Hopen Hclaim Heo Hmps Hxs Hc Hpieces Hws Hx.
  apply in_pieces_cons in Hpieces.
  destruct Hpieces as (segs & p' & Hp & Hsegs & Hpieces).
  destruct (netReadHandshake_pieces segs p' w Hc Hp Hsegs)
    as (pre1 & w1 & Hrun1 & Hfr1 & Hpre1 & Hp1).
  destruct Hfr1 as (Hu1 & _ & Hfin1 & Hws1 & Hsent1 & Hcl1 & caps & Htr1).
  unfold session. rewrite (bind_Ret _ _ _ _ _ Hrun1).
  rewrite <- Hu1 in Hok, Hds, Hf, Hx.
  destruct (usbDeviceOpen_trace serial w1 Hok Hds)
    as (dev & err & w2 & final & Hrun2 & Htr2 & Hconn2 & _ & _ & Hx2 & Hcases).
  destruct (steps_usbDeviceOpen_locator serial w1) as [_ (evs2 & Htr2' & Hloc)].
  rewrite Hrun2 in Htr2'. cbn [snd] in Htr2'.
  cbv zeta in Hcases. rewrite Hf, Hopen, Hclaim in Hcases.
  destruct Hcases as (_ & -> & ->).
  rewrite (bind_Ret _ _ _ _ _ Hrun2). cbv beta iota.
  set (h := (next_handle (usb w1)
             + List.length (probe_handles serial (devices (usb w1))
                              (next_handle (usb w1))))%nat) in *.
  set (dev := selected d (Some h)).
  assert (Hm : spec_matches serial d = true).
  { assert (H : In d (filter (spec_matches serial) (devices (usb w1))))
      by (rewrite Hf; now left).
    now apply filter_In in H. }
  apply andb_true_iff in Hm. destruct Hm as [Hsig _].
  destruct (signature_endpoints d Hsig) as [Hexin _].
  destruct (last_where_exists _ _ Hexin) as [ei Hei].
  assert (Hin : Z.testbit (EndpointAddress ei) 7 = true)
    by (apply bulk_in_bit; now apply last_where_sat in Hei).
  assert (Hout : Z.testbit (EndpointAddress eo) 7 = false)
    by (apply bulk_out_bit; now apply last_where_sat in Heo).
  assert (Hc2 : closed (conn w2) = false) by congruence.
  assert (Hws2 : Forall (eq WOk) (wscript (conn w2))) by congruence.
  destruct (netWriteHandshake_accepted w2 Hc2 Hws2)
    as (w3 & Hrun3 & Hsent3 & Hp3 & Hc3 & Hfin3 & Hws3 & Hu3 & Htr3).
  rewrite (bind_Ret _ _ _ _ _ Hrun3). unfold get at 1, bind at 1.
  destruct (relay_loop_exchanges dev h ei eo eq_refl Hei Heo Hin Hout Hmps
              xs (relay_fuel w3) (repeat x00 256) w3 pre1 p' later)
    as (w4 & evs4 & Hrun4 & Htr4 & Hbytes4 & _ & Hsent4 & Hx4 & _);
    try assumption.
  { unfold relay_fuel. rewrite Hp3, Hconn2, Hp1, concat_app, Hpre1.
    cbn [app]. rewrite (in_pieces_concat _ _ Hpieces).
    pose proof (length_frames_ge (map fst xs)) as Hge.
    rewrite map_map, length_map in Hge. lia. }
  { unfold len. now rewrite repeat_length. }
  { congruence. }
  { congruence. }
  rewrite (bind_Ret _ _ _ _ _ Hrun4).
  unfold usbDeviceClose, ReleaseInterface, handle_Close, conn_Close.
  cbn [dev selected handle]. unfold bind, tell.
  eexists. split; [reflexivity|]. cbn [emit set_conn conn sent closed usb].
  split; [rewrite Hsent4, Hsent3, Hconn2, Hsent1; now rewrite <- app_assoc|].
  split; [|split; [reflexivity | exact Hx4]].
  rewrite (since_app _ _
             (map EvConnRead caps ++ evs2 ++ [EvConnWrite FB01]
              ++ (evs4 ++ [EvLog (LogTcp (ErrReadHeader (Some (fin (conn w3)))))])
              ++ [EvConnClose; EvRelease h 0; EvHandleClose h]))
    by (cbn [emit set_conn trace]; rewrite Htr4, Htr3, Htr2', Htr1,
          <- !app_assoc; reflexivity).
  rewrite !bytes_out_app, bytes_out_reads, (bytes_out_locator evs2 Hloc), Hbytes4.
  cbn [bytes_out app]. now rewrite !app_nil_r.
Qed.


(* ------------------------------------------------------------------ *)
(** *** The theorems at work on the sample worlds                      *)

Lemma usbDeviceOpen_unique_match_witness :
  slice_ok (devices (usb w_one_gadget)) /\
  Forall has_interface (devices (usb w_one_gadget)) /\
  exists dev w',
    usbDeviceOpen EmptyString w_one_gadget = (Ret (dev, None), w').
Proof.
  assert (H1 : slice_ok (devices (usb w_one_gadget)))
    by (intros H; discriminate H).
  assert (H2 : Forall has_interface (devices (usb w_one_gadget))).
  { repeat constructor. discriminate. discriminate. }
  split; [exact H1|]. split; [exact H2|].
  destruct (usbDeviceOpen_unique_match EmptyString w_one_gadget H1 H2)
    as (dev & err & w' & Hrun & Hiff & _).
  exists dev, w'. rewrite Hrun.
  assert (err = None) as ->; [|reflexivity].
  apply Hiff. exists (fastboot_device true). repeat split.
Defined.

Lemma usbWrite_chunks_witness :
  handle gadget_session = Some 0%nat /\
  endpointOut gadget_session = Some ep_out /\
  0 < MaxPacketSize ep_out <= 65535 /\
  slice_ok request3 /\
  exists chunks, concat chunks = request3 /\ len chunks = ceil_div 3 512.
Proof.
  assert (H3 : 0 < MaxPacketSize ep_out <= 65535)
    by (split; [reflexivity | intros H; discriminate H]).
  assert (H4 : slice_ok request3) by (intros H; discriminate H).
  split; [reflexivity|]. split; [reflexivity|]. split; [exact H3|].
  split; [exact H4|].
  destruct (usbWrite_chunks gadget_session request3 0%nat ep_out
              eq_refl eq_refl H3 H4) as (chunks & Hcat & Hlen & _).
  exists chunks. split; [exact Hcat | exact Hlen].
Defined.

Lemma netWrite_netRead_roundtrip_witness :
  slice_ok request3 /\
  netWrite request3 w_sender = (Ret None, snd (netWrite request3 w_sender)) /\
  closed (conn w_receiver) = false /\
  concat (pending (conn w_receiver))
    = skipn (List.length (sent (conn w_sender)))
        (sent (conn (snd (netWrite request3 w_sender)))) /\
  exists wr', netRead w_receiver = (Ret (request3, None), wr').
Proof.
  assert (H1 : slice_ok request3) by (intros H; discriminate H).
  assert (H2 : netWrite request3 w_sender
               = (Ret None, snd (netWrite request3 w_sender)))
    by (vm_compute; reflexivity).
  assert (H4 : concat (pending (conn w_receiver))
               = skipn (List.length (sent (conn w_sender)))
                   (sent (conn (snd (netWrite request3 w_sender)))))
    by (vm_compute; reflexivity).
  split; [exact H1|]. split; [exact H2|]. split; [reflexivity|].
  split; [exact H4|].
  exact (proj2 (netWrite_netRead_roundtrip request3 w_sender _ w_receiver
                  H1 H2 eq_refl H4)).
Defined.

Lemma bad_handshake_touches_no_usb_witness :
  firstn 4 (concat (pending (conn w_bad_handshake))) <> FB01 /\
  exists w',
    session EmptyString w_bad_handshake = (Ret tt, w') /\
    usb w' = usb w_bad_handshake /\
    Forall not_usb (since w_bad_handshake w').
Proof.
  assert (H : firstn 4 (concat (pending (conn w_bad_handshake))) <> FB01)
    by (intros E; discriminate E).
  split; [exact H|].
  destruct (bad_handshake_touches_no_usb EmptyString w_bad_handshake H)
    as (w' & Hrun & Husb & Hev & _).
  exists w'. split; [exact Hrun|]. split; [exact Husb | exact Hev].
Defined.

Lemma acquisition_failure_is_local_witness :
  netReadHandshake w_no_device
    = (Ret None, snd (netReadHandshake w_no_device)) /\
  usbDeviceOpen EmptyString (snd (netReadHandshake w_no_device))
    = (Ret (zero_usbDevice, Some ErrNoDevice),
       snd (usbDeviceOpen EmptyString (snd (netReadHandshake w_no_device)))) /\
  exists w',
    session EmptyString w_no_device = (Ret tt, w') /\
    closed (conn w') = true /\
    Forall not_a_write (since w_no_device w').
Proof.
  assert (H1 : netReadHandshake w_no_device
               = (Ret None, snd (netReadHandshake w_no_device)))
    by (vm_compute; reflexivity).
  assert (H2 : usbDeviceOpen EmptyString (snd (netReadHandshake w_no_device))
               = (Ret (zero_usbDevice, Some ErrNoDevice),
                  snd (usbDeviceOpen EmptyString
                         (snd (netReadHandshake w_no_device)))))
    by (vm_compute; reflexivity).
  split; [exact H1|]. split; [exact H2|].
  destruct (proj1 (acquisition_failure_is_local EmptyString w_no_device _ H1)
              _ _ _ H2) as (w' & Hrun & _ & Hclosed & Hnw & _).
  exists w'. split; [exact Hrun|]. split; [exact Hclosed | exact Hnw].
Defined.

Lemma usbRead_single_transfer_witness :
  handle gadget_session = Some 0%nat /\
  endpointIn gadget_session = Some ep_in /\
  exists n err data' w',
    usbRead gadget_session (repeat x00 256) w_okay = (Ret (n, err, data'), w') /\
    since w_okay w'
      = [EvBulk 0%nat 129 (repeat x00 256) 256 usbTimeout].
Proof.
  split; [reflexivity|]. split; [reflexivity|].
  destruct (proj1 (usbRead_single_transfer gadget_session (repeat x00 256)
                     0%nat ep_in w_okay EmptyString w_okay eq_refl eq_refl))
    as (n & err & data' & w' & Hrun & Hsince & _).
  exists n, err, data', w'. split; [exact Hrun | exact Hsince].
Defined.

Lemma fresh_reader_drops_bytes_witness :
  closed (conn w_eager_client) = false /\
  (16 + List.length request3 + List.length (@nil byte) <= defaultBufSize)%nat /\
  pending (conn w_eager_client) = [FB01 ++ frame request3] /\
  exists w1 e w2,
    netReadHandshake w_eager_client = (Ret None, w1) /\
    pending (conn w1) = [] /\
    netRead w1 = (Ret ([], Some e), w2).
Proof.
  assert (H2 : (16 + List.length request3 + List.length (@nil byte)
                <= defaultBufSize)%nat)
    by (apply Nat.leb_le; reflexivity).
  split; [reflexivity|]. split; [exact H2|]. split; [reflexivity|].
  exact (proj1 (fresh_reader_drops_bytes request3 [] w_eager_client eq_refl H2)
           eq_refl).
Defined.

Lemma failed_ack_still_relays_witness :
  netReadHandshake w_ack_fails
    = (Ret None, snd (netReadHandshake w_ack_fails)) /\
  usbDeviceOpen EmptyString (snd (netReadHandshake w_ack_fails))
    = (Ret (gadget_session, None),
       snd (usbDeviceOpen EmptyString (snd (netReadHandshake w_ack_fails)))) /\
  netWriteHandshake
    (snd (usbDeviceOpen EmptyString (snd (netReadHandshake w_ack_fails))))
    = (Ret (Some ErrNet),
       snd (netWriteHandshake
              (snd (usbDeviceOpen EmptyString
                      (snd (netReadHandshake w_ack_fails)))))) /\
  exists evs,
    since (snd (netWriteHandshake
                  (snd (usbDeviceOpen EmptyString
                          (snd (netReadHandshake w_ack_fails))))))
          (snd (session EmptyString w_ack_fails))
      = EvConnRead defaultBufSize :: evs.
Proof.
  assert (H1 : netReadHandshake w_ack_fails
               = (Ret None, snd (netReadHandshake w_ack_fails)))
    by (vm_compute; reflexivity).
  assert (H2 : usbDeviceOpen EmptyString (snd (netReadHandshake w_ack_fails))
               = (Ret (gadget_session, None),
                  snd (usbDeviceOpen EmptyString
                         (snd (netReadHandshake w_ack_fails)))))
    by (vm_compute; reflexivity).
  assert (H3 : netWriteHandshake
                 (snd (usbDeviceOpen EmptyString
                         (snd (netReadHandshake w_ack_fails))))
               = (Ret (Some ErrNet),
                  snd (netWriteHandshake
                         (snd (usbDeviceOpen EmptyString
                                 (snd (netReadHandshake w_ack_fails)))))))
    by (vm_compute; reflexivity).
  split; [exact H1|]. split; [exact H2|]. split; [exact H3|].
  exact (proj2 (failed_ack_still_relays EmptyString w_ack_fails _ _ _ _ _
                  H1 H2 H3)).
Defined.


(* ------------------------------------------------------------------ *)
(** *** The further theorems at work on the sample worlds              *)

Lemma netRead_returns_exactly_frames_witness :
  closed (conn w_receiver) = false /\
  exists w', netRead w_receiver = (Ret (request3, None), w').
Proof.
  split; [reflexivity|].
  apply (proj2 (netRead_returns_exactly_frames request3 w_receiver eq_refl)).
  split; [intros H; discriminate H|].
  exists []. reflexivity.
Defined.

Lemma netRead_cut_short_witness :
  closed (conn w_cut_short) = false /\
  exists w',
    netRead w_cut_short
    = (Ret ([], Some (ErrReadHeader (Some ErrUnexpectedEOF))), w').
Proof.
  split; [reflexivity|].
  destruct (proj1 (netRead_cut_short w_cut_short eq_refl)) as (w' & Hrun & _).
  - cbn. lia.
  - exists w'. exact Hrun.
Defined.

Lemma oversized_length_panics_witness :
  closed (conn w_oversized) = false /\
  (8 <= List.length (concat (pending (conn w_oversized))))%nat /\
  maxAlloc < Uint64 (firstn 8 (concat (pending (conn w_oversized)))) /\
  fst (relay_loop 1 gadget_session (repeat x00 256) w_oversized)
  = Panic MakesliceLen.
Proof.
  assert (H2 : (8 <= List.length (concat (pending (conn w_oversized))))%nat)
    by (cbn; lia).
  assert (H3 : maxAlloc < Uint64 (firstn 8 (concat (pending (conn w_oversized)))))
    by (vm_compute; reflexivity).
  split; [reflexivity|]. split; [exact H2|]. split; [exact H3|].
  exact (proj2 (oversized_length_panics w_oversized eq_refl H2 H3)
           0%nat gadget_session (repeat x00 256)).
Defined.

Lemma relay_loop_relays_witness :
  is_bulk_in ep_in = true /\ is_bulk_out ep_out = true /\
  0 < MaxPacketSize ep_out <= 65535 /\
  in_pieces [frame request3] (pending (conn w_one_exchange)) /\
  exists w',
    relay_loop (relay_fuel w_one_exchange) gadget_session (repeat x00 256)
      w_one_exchange = (Ret tt, w') /\
    sent (conn w') = frame reply5.
Proof.
  assert (H1 : is_bulk_in ep_in = true) by reflexivity.
  assert (H2 : is_bulk_out ep_out = true) by reflexivity.
  assert (H3 : 0 < MaxPacketSize ep_out <= 65535)
    by (split; [reflexivity | intros H; discriminate H]).
  assert (H4 : in_pieces [frame request3] (pending (conn w_one_exchange))).
  { exists [[frame request3]]. split; [reflexivity|].
    constructor; [reflexivity | constructor]. }
  split; [exact H1|]. split; [exact H2|]. split; [exact H3|].
  split; [exact H4|].
  destruct (relay_loop_relays gadget_session 0%nat ep_in ep_out
              [(request3, reply5)] [] (repeat x00 256) w_one_exchange
              eq_refl eq_refl eq_refl H1 H2 H3 eq_refl)
    as (w' & Hrun & _ & _ & Hsent & _).
  - constructor; [|constructor]. split; intros H; discriminate H.
  - reflexivity.
  - exact H4.
  - constructor.
  - reflexivity.
  - exists w'. split; [exact Hrun|]. rewrite Hsent. reflexivity.
Defined.

Lemma one_gadget_bus :
  slice_ok (devices (usb w_one_gadget)) /\
  Forall has_interface (devices (usb w_one_gadget)).
Proof.
  split; [intros H; discriminate H|].
  repeat constructor; discriminate.
Defined.

Lemma usbDeviceOpen_logs_each_match_witness :
  slice_ok (devices (usb w_one_gadget)) /\
  Forall has_interface (devices (usb w_one_gadget)) /\
  exists r w',
    usbDeviceOpen EmptyString w_one_gadget = (Ret r, w') /\
    filter is_found_event (since w_one_gadget w')
    = [found_line (fastboot_device true)].
Proof.
  destruct one_gadget_bus as [H1 H2]. split; [exact H1|]. split; [exact H2|].
  exact (usbDeviceOpen_logs_each_match EmptyString w_one_gadget H1 H2).
Defined.

Lemma usbDeviceOpen_opens_witness :
  slice_ok (devices (usb w_one_gadget)) /\
  Forall has_interface (devices (usb w_one_gadget)) /\
  exists r w',
    usbDeviceOpen EmptyString w_one_gadget = (Ret r, w') /\
    opens (since w_one_gadget w') = [(fastboot_device true, true)].
Proof.
  destruct one_gadget_bus as [H1 H2]. split; [exact H1|]. split; [exact H2|].
  destruct (usbDeviceOpen_opens EmptyString w_one_gadget H1 H2)
    as (r & w' & Hrun & Hopens & _).
  exists r, w'. split; [exact Hrun | exact Hopens].
Defined.

Lemma usbDeviceOpen_closes_what_it_opens_witness :
  slice_ok (devices (usb w_one_gadget)) /\
  Forall has_interface (devices (usb w_one_gadget)) /\
  exists dev err w',
    usbDeviceOpen EmptyString w_one_gadget = (Ret (dev, err), w') /\
    open_handles (since w_one_gadget w') []
    = match err, handle dev with
      | None, Some h => [h]
      | _, _ => []
      end.
Proof.
  destruct one_gadget_bus as [H1 H2]. split; [exact H1|]. split; [exact H2|].
  destruct (usbDeviceOpen_closes_what_it_opens EmptyString w_one_gadget H1 H2)
    as (dev & err & w' & body & hs & Hrun & _ & _ & _ & _ & Hleft).
  exists dev, err, w'. split; [exact Hrun | exact Hleft].
Defined.

Lemma usbDeviceOpen_takes_last_endpoints_witness :
  slice_ok (devices (usb w_one_gadget)) /\
  Forall has_interface (devices (usb w_one_gadget)) /\
  usbDeviceOpen EmptyString w_one_gadget
  = (Ret (gadget_session, None),
     snd (usbDeviceOpen EmptyString w_one_gadget)) /\
  exists d,
    device gadget_session = Some d /\
    last_where is_bulk_out (endpoints_of d) = Some ep_out.
Proof.
  destruct one_gadget_bus as [H1 H2].
  assert (H3 : usbDeviceOpen EmptyString w_one_gadget
               = (Ret (gadget_session, None),
                  snd (usbDeviceOpen EmptyString w_one_gadget)))
    by (vm_compute; reflexivity).
  split; [exact H1|]. split; [exact H2|]. split; [exact H3|].
  destruct (usbDeviceOpen_takes_last_endpoints EmptyString w_one_gadget
              gadget_session _ H1 H2 H3)
    as (d & ei & eo & _ & Hd & _ & Hout & _ & Heo).
  exists d. split; [exact Hd|]. rewrite Hout. symmetry. exact Heo.
Defined.

Lemma exchange_bus :
  slice_ok (devices (usb w_exchange)) /\
  Forall has_interface (devices (usb w_exchange)).
Proof.
  split; [intros H; discriminate H|].
  repeat constructor; discriminate.
Defined.

Lemma session_cleans_up_witness :
  slice_ok (devices (usb w_exchange)) /\
  Forall has_interface (devices (usb w_exchange)) /\
  session EmptyString w_exchange
  = (Ret tt, snd (session EmptyString w_exchange)) /\
  open_handles (since w_exchange (snd (session EmptyString w_exchange))) [] = [].
Proof.
  destruct exchange_bus as [H1 H2].
  assert (H3 : session EmptyString w_exchange
               = (Ret tt, snd (session EmptyString w_exchange)))
    by (vm_compute; reflexivity).
  split; [exact H1|]. split; [exact H2|]. split; [exact H3|].
  exact (proj1 (session_cleans_up EmptyString w_exchange _ H1 H2 H3)).
Defined.



Lemma stuck_only_after_bad_handshake_witness :
  closed (conn w_idle) = true /\
  accept_loop EmptyString
    [accepted [[x46; x42; x30; x32]] []; accepted [FB01] []] w_idle
  = (Stuck,
     snd (accept_loop EmptyString
            [accepted [[x46; x42; x30; x32]] []; accepted [FB01] []] w_idle)) /\
  exists c, closed c = false /\ firstn 4 (concat (pending c)) <> FB01.
Proof.
  assert (H2 : accept_loop EmptyString
                 [accepted [[x46; x42; x30; x32]] []; accepted [FB01] []] w_idle
               = (Stuck,
                  snd (accept_loop EmptyString
                         [accepted [[x46; x42; x30; x32]] []; accepted [FB01] []]
                         w_idle)))
    by (vm_compute; reflexivity).
  split; [reflexivity|]. split; [exact H2|].
  destruct (stuck_only_after_bad_handshake EmptyString _ w_idle _ eq_refl H2)
    as (before & c & after & _ & _ & Hc & Hbad).
  exists c. split; [exact Hc | exact Hbad].
Defined.

Lemma check_gates_the_listener_witness :
  argHelp check_options = false /\ new_context good_host = None /\
  argCheckDevice check_options = true /\
  slice_ok (devices (usb w_one_gadget)) /\
  Forall has_interface (devices (usb w_one_gadget)) /\
  exists e steps w,
    main check_options good_host [] (usb w_one_gadget) = (e, steps, w) /\
    exists h pre post,
      steps
      = NewContext
        :: map Run (pre ++ [EvRelease h 0; EvHandleClose h])
        ++ [Launching (argPort check_options); Listen (argPort check_options)]
        ++ post.
Proof.
  destruct one_gadget_bus as [H1 H2].
  split; [reflexivity|]. split; [reflexivity|]. split; [reflexivity|].
  split; [exact H1|]. split; [exact H2|].
  destruct (check_gates_the_listener check_options good_host []
              (usb w_one_gadget) eq_refl eq_refl eq_refl H1 H2)
    as (e & steps & w & Hrun & Hcase).
  exists e, steps, w. split; [exact Hrun|].
  destruct Hcase as (h & pre & post & Hsteps & _).
  exists h, pre, post. exact Hsteps.
Defined.

Lemma netReadHandshake_verdict_witness :
  closed (conn w_bad_handshake) = false /\
  exists w',
    netReadHandshake w_bad_handshake
    = (Ret (Some (ErrReadHandshake None)), w').
Proof.
  split; [reflexivity|].
  destruct (netReadHandshake_verdict w_bad_handshake eq_refl)
    as (r & w' & Hrun & _ & Hr).
  exists w'. rewrite Hrun, Hr. reflexivity.
Defined.

Lemma relay_loop_ends_on_usb_failure_witness :
  is_bulk_in ep_in = true /\ is_bulk_out ep_out = true /\
  0 < MaxPacketSize ep_out <= 65535 /\ slice_ok request3 /\
  Z.of_nat 0 <= ceil_div (len request3) (MaxPacketSize ep_out) /\
  exists w',
    relay_loop 1 gadget_session (repeat x00 256) w_usb_fails = (Ret tt, w') /\
    sent (conn w') = [].
Proof.
  assert (H1 : is_bulk_in ep_in = true) by reflexivity.
  assert (H2 : is_bulk_out ep_out = true) by reflexivity.
  assert (H3 : 0 < MaxPacketSize ep_out <= 65535)
    by (split; [reflexivity | intros H; discriminate H]).
  assert (H4 : slice_ok request3) by (intros H; discriminate H).
  assert (H5 : Z.of_nat 0 <= ceil_div (len request3) (MaxPacketSize ep_out))
    by (intros H; discriminate H).
  split; [exact H1|]. split; [exact H2|]. split; [exact H3|].
  split; [exact H4|]. split; [exact H5|].
  destruct (relay_loop_ends_on_usb_failure gadget_session 0%nat ep_in ep_out
              request3 [frame request3] [] 0%nat ErrUsb [] (repeat x00 256)
              0%nat w_usb_fails eq_refl eq_refl eq_refl H1 H2 H3 H4 eq_refl
              eq_refl (app_nil_r _) H5 eq_refl)
    as (w' & Hrun & Hsent & _).
  exists w'. split; [exact Hrun | exact Hsent].
Defined.

Lemma session_relays_witness :
  slice_ok (devices (usb w_exchange)) /\
  Forall has_interface (devices (usb w_exchange)) /\
  filter (spec_matches EmptyString) (devices (usb w_exchange))
  = [fastboot_device true] /\
  last_where is_bulk_out (endpoints_of (fastboot_device true)) = Some ep_out /\
  0 < MaxPacketSize ep_out <= 65535 /\
  in_pieces (FB01 :: [frame request3]) (pending (conn w_exchange)) /\
  exists w',
    session EmptyString w_exchange = (Ret tt, w') /\
    sent (conn w') = FB01 ++ frame reply5 /\ closed (conn w') = true.
Proof.
  destruct exchange_bus as [H1 H2].
  assert (H3 : filter (spec_matches EmptyString) (devices (usb w_exchange))
               = [fastboot_device true]) by reflexivity.
  assert (H4 : last_where is_bulk_out (endpoints_of (fastboot_device true))
               = Some ep_out) by reflexivity.
  assert (H5 : 0 < MaxPacketSize ep_out <= 65535)
    by (split; [reflexivity | intros H; discriminate H]).
  assert (H6 : in_pieces (FB01 :: [frame request3]) (pending (conn w_exchange))).
  { exists [[FB01]; [frame request3]]. split; [reflexivity|].
    repeat constructor. }
  split; [exact H1|]. split; [exact H2|]. split; [exact H3|].
  split; [exact H4|]. split; [exact H5|]. split; [exact H6|].
  destruct (session_relays EmptyString (fastboot_device true) ep_out
              [(request3, reply5)] [] w_exchange H1 H2 H3 eq_refl eq_refl
              H4 H5)
    as (w' & Hrun & Hsent & _ & Hclosed & _).
  - constructor; [|constructor]. split; intros H; discriminate H.
  - reflexivity.
  - exact H6.
  - constructor.
  - reflexivity.
  - exists w'. split; [exact Hrun|]. split; [|exact Hclosed].
    rewrite Hsent. reflexivity.
Defined.
